(** * CosmicBeats simulator: a shallow embedding of the runtime core

    The development follows the Python sources:
    - [Runtime]: [utils.Time], the nodes ([satellitebasic.py], [gsbasic.py]),
      the topology and [ManagerParallel] ([managerparallel.py]);
    - [Power]: [ModelPower] ([modelpower.py]);
    - [Orchestration]: [Orchestrator._add_Models] ([orchestrator.py]);
    - [Lora]: [LoraLink], [LoraFrame] and [LoraRadioDevice];
    - [Fov]: [ModelFovTimeBased.__find_Passes] and the merge of
      [ManagerParallel.__compute_FOVs].

    Conventions.  An instant ([utils.Time], a UTC [datetime] with microsecond
    resolution) is the integer number of microseconds since the epoch, and a
    duration handed to [add_seconds] is the number of microseconds of the
    [timedelta] it is converted to.  Python floats that only take part in
    comparisons and field arithmetic (RSSI, charge, energy, BER) are exact
    rationals.  Python objects that are shared and mutated in place live in an
    explicit store indexed by object identity. *)

From Stdlib Require Import ZArith QArith Qpower Qround Qabs List Bool Lia Lqa String Permutation Sorted.
From stdpp Require Import gmap strings list pretty.

Import ListNotations.
Local Open Scope Z_scope.

(* ===================================================================== *)
(** * The discrete-event runtime *)
(* ===================================================================== *)

Module Runtime.

(** Object identity; the store maps identities to objects. *)
Abbreviation ref := positive (only parsing).

(** [utils.Location]: the Cartesian triple is never computed with here. *)
Record Location := mkLocation { loc_x : Q; loc_y : Q; loc_z : Q }.

(** The objects the runtime shares between the nodes, the manager and the
    callers of the runtime API. *)
Inductive Obj :=
| OTime (t : Z)                 (* utils.Time *)
| OLocation (l : Location)      (* utils.Location *)
| OPositions (d : gmap Z ref).  (* SatelliteBasic.__positionDictionary, keyed
                                   by Time.to_str(), which is injective *)

Abbreviation Store := (gmap ref Obj) (only parsing).

Definition alloc (h : Store) (o : Obj) : ref * Store :=
  let r := fresh (dom h) in (r, <[r := o]> h).

(** [Time.time] of the object [r]. *)
Definition time_of (h : Store) (r : ref) : Z :=
  match h !! r with
  | Some (OTime t) => t
  | _ => 0
  end.

(** [Time.copy]: "Returns another time object with same date". *)
Definition Time_copy (h : Store) (r : ref) : ref * Store :=
  alloc h (OTime (time_of h r)).

(** [Time.add_seconds]: "Updates self by this number of seconds". *)
Definition add_seconds (h : Store) (r : ref) (second : Z) : Store :=
  match h !! r with
  | Some (OTime t) => <[r := OTime (t + second)]> h
  | _ => h
  end.

Inductive ENodeType := SAT | GS | IOTDEVICE.

(** How a node class keeps its position: [GSBasic.__position] is one Location
    object; [SatelliteBasic] keeps a dictionary and falls back on the
    [get_Position] API of the model it has under the ORBITAL tag, if any. *)
Inductive OrbitalModel :=
| OrbitComputed (f : Z -> option Location)
    (* ModelOrbit.__get_Position: builds a Location, stores it in the owner
       node with update_Position and returns that same object; [None] when
       call_APIs swallowed an exception *)
| OrbitFixed (p : ref).
    (* ModelFixedOrbit.__get_Position: returns self.__position *)

Inductive PositionStore :=
| FixedPosition (p : ref)
| PositionDictionary (d : ref) (orbital : option OrbitalModel).

Record Node := mkNode {
  iName : string;
  nodeType : ENodeType;
  nodeID : Z;
  topologyID : Z;
  timestamp : ref;        (* __timestamp, mutated in place by Execute *)
  endTimeStamp : Z;       (* __endTimeStamp, never mutated *)
  timedelta : Z;          (* __timedelta, as microseconds *)
  positions : PositionStore
}.

(** The world the nodes act on: the object store and, in place of the effects
    of the models, the record of which node ran its models at which instant. *)
Record World := mkWorld {
  store : Store;
  ran : list (Z * Z)      (* (nodeID, instant) in execution order *)
}.

(** [SatelliteBasic.Execute] and [GSBasic.Execute] (the same body). *)
Definition Execute (w : World) (n : Node) : World * bool :=
  let now := time_of (store w) (timestamp n) in
  if now <=? endTimeStamp n then
    (* for _model in self.__models: _model.Execute() *)
    let w1 := mkWorld (store w) (ran w ++ [(nodeID n, now)]) in
    (* self.__timestamp.add_seconds(self.__timedelta) *)
    (mkWorld (add_seconds (store w1) (timestamp n) (timedelta n)) (ran w1), true)
  else (w, false).

Record Topology := mkTopology {
  topo_id : Z;
  nodes : list Node
}.

(** [Topology.get_Node]: the first node added under this id. *)
Definition get_Node (t : Topology) (_nodeId : Z) : option Node :=
  List.find (fun n => nodeID n =? _nodeId) (nodes t).

Definition all_nodes (ts : list Topology) : list Node :=
  List.concat (List.map nodes ts).

(** One pass of the step body of [run_Sim] and of [__run_OneStep]:
    every node of every topology executes, in list order. *)
Definition run_nodes (l : list Node) (w : World) : World :=
  List.fold_left (fun w n => fst (Execute w n)) l w.

Definition run_OneStep (ts : list Topology) (w : World) : World :=
  run_nodes (all_nodes ts) w.

(** ** ManagerParallel *)

(** Where the driver thread stands in [run_Sim]. *)
Inductive PC :=
| AtLoopHead    (* about to test  while self.__currentStep < self.__numOfSteps *)
| AtWait        (* inside  self.__resumingCondition.wait() *)
| AtBody        (* about to execute the nodes of the current step *)
| AtExit.       (* run_Sim has returned *)

Inductive Printed :=
| SimProgress (step : Z)       (* "[Running Sim]: Current step: ..." *)
| ApiWarning (exn : string).   (* "[Runtime API Manager]: An exeption has been
                                  raised while executing the API: ..." *)

Record Manager := mkManager {
  topologies : list Topology;
  numOfSteps : Z;
  numOfThreads : Z;
  world : World;
  currentStep : Z;
  timeStepToStop : option Z;
  stoppingCondition : bool;    (* flag of the threading.Event *)
  resumingCondition : bool;
  pc : PC;
  stdout : list Printed
}.

Definition set_world (m : Manager) (w : World) : Manager :=
  mkManager (topologies m) (numOfSteps m) (numOfThreads m) w (currentStep m)
            (timeStepToStop m) (stoppingCondition m) (resumingCondition m)
            (pc m) (stdout m).
Definition set_currentStep (m : Manager) (c : Z) : Manager :=
  mkManager (topologies m) (numOfSteps m) (numOfThreads m) (world m) c
            (timeStepToStop m) (stoppingCondition m) (resumingCondition m)
            (pc m) (stdout m).
Definition set_timeStepToStop (m : Manager) (s : option Z) : Manager :=
  mkManager (topologies m) (numOfSteps m) (numOfThreads m) (world m)
            (currentStep m) s (stoppingCondition m) (resumingCondition m)
            (pc m) (stdout m).
Definition set_stopping (m : Manager) (b : bool) : Manager :=
  mkManager (topologies m) (numOfSteps m) (numOfThreads m) (world m)
            (currentStep m) (timeStepToStop m) b (resumingCondition m)
            (pc m) (stdout m).
Definition set_resuming (m : Manager) (b : bool) : Manager :=
  mkManager (topologies m) (numOfSteps m) (numOfThreads m) (world m)
            (currentStep m) (timeStepToStop m) (stoppingCondition m) b
            (pc m) (stdout m).
Definition set_pc (m : Manager) (p : PC) : Manager :=
  mkManager (topologies m) (numOfSteps m) (numOfThreads m) (world m)
            (currentStep m) (timeStepToStop m) (stoppingCondition m)
            (resumingCondition m) p (stdout m).
Definition print (m : Manager) (l : Printed) : Manager :=
  mkManager (topologies m) (numOfSteps m) (numOfThreads m) (world m)
            (currentStep m) (timeStepToStop m) (stoppingCondition m)
            (resumingCondition m) (pc m) (stdout m ++ [l]).

(** [ManagerParallel.__init__]. *)
Definition new_Manager (ts : list Topology) (numOfSimSteps numOfWorkers : Z)
    (w : World) : Manager :=
  mkManager ts numOfSimSteps numOfWorkers w 0 None false false AtLoopHead [].

(** The pause test at the head of the loop body:
    [self.__timeStepToStop is not None and
     self.__timeStepToStop == self.__currentStep]. *)
Definition gate_armed_now (m : Manager) : bool :=
  match timeStepToStop m with
  | Some s => s =? currentStep m
  | None => false
  end.

(** One move of the driver thread through [run_Sim].  With more than one
    worker the step body submits the same [Execute] calls to a thread pool and
    waits for all of them before the counter advances; the nodes act on their
    own objects, and both branches are the one fold [run_OneStep]. *)
Definition driver_step (m : Manager) : Manager :=
  match pc m with
  | AtLoopHead =>
      if currentStep m <? numOfSteps m then
        if gate_armed_now m
        then set_pc (set_stopping m true) AtWait
        else set_pc m AtBody
      else set_pc (set_stopping m true) AtExit
  | AtWait =>
      if resumingCondition m
      then set_pc (set_resuming m false) AtBody
      else m
  | AtBody =>
      let m1 := if currentStep m mod 60 =? 0
                then print m (SimProgress (currentStep m)) else m in
      let m2 := set_world m1 (run_OneStep (topologies m1) (world m1)) in
      set_pc (set_currentStep m2 (currentStep m2 + 1)) AtLoopHead
  | AtExit => m
  end.

Fixpoint driver_steps (k : nat) (m : Manager) : Manager :=
  match k with
  | O => m
  | S k' => driver_steps k' (driver_step m)
  end.

(** *** The runtime API *)

Inductive PyVal :=
| PInt (z : Z)
| PStr (s : string).

(** What an API hands back to its caller. *)
Inductive RetVal :=
| RNone
| RObject (r : ref)                   (* a Time or a Location object *)
| RStoppingEvent                      (* the manager's __stoppingCondition *)
| RTopologies (ts : list Topology)
| ROpaque (tag : Z).                  (* results of the handlers left abstract *)

Inductive Outcome :=
| Returns (m : Manager) (v : RetVal)
| Raises (m : Manager) (exn : string).

Abbreviation Kwargs := (gmap string PyVal) (only parsing).

(** Python's [list[i]] for an int index: negative indices count from the end. *)
Definition py_index {A} (l : list A) (i : Z) : option A :=
  let n := Z.of_nat (length l) in
  if (0 <=? i) && (i <? n) then nth_error l (Z.to_nat i)
  else if (i <? 0) && (- n <=? i) then nth_error l (Z.to_nat (n + i))
  else None.

(** [SatelliteBasic.get_Position] and [GSBasic.get_Position] with
    [_time=None]: the Location object, or [None] where the source raises
    "Position not found for node ...". *)
Definition get_Position (h : Store) (n : Node) : option (ref * Store) :=
  match positions n with
  | FixedPosition p => Some (p, h)
  | PositionDictionary d orbital =>
      let now := time_of h (timestamp n) in
      let dict := match h !! d with Some (OPositions dd) => dd | _ => ∅ end in
      match dict !! now with
      | Some p => Some (p, h)
      | None =>
          match orbital with
          | Some (OrbitComputed f) =>
              match f now with
              | Some l =>
                  let (p, h1) := alloc h (OLocation l) in
                  (* self.__positionDictionary[_time.to_str()] = _newLocation *)
                  Some (p, <[d := OPositions (<[now := p]> dict)]> h1)
              | None => None
              end
          | Some (OrbitFixed p) => Some (p, h)
          | None => None
          end
      end
  end.

Definition exn_incomplete : string :=
  "[API: get_NodeInfo]: The keyworded arguments are not complete for the API".
Definition exn_no_node : string :=
  "[API: get_NodeInfo]: The node instance could not be found in the topology".
Definition exn_info_type (t : string) : string :=
  "[API: get_NodeInfo]: The information type " ++ t ++ " is not supported".
Definition exn_attribute : string :=
  "'NoneType' object has no attribute".
Definition exn_position : string := "Position not found for node".

(** [ManagerParallel.__get_NodeInfo]. *)
Definition get_NodeInfo (m : Manager) (kw : Kwargs) : Outcome :=
  match kw !! "_topologyID", kw !! "_nodeID", kw !! "_infoType" with
  | Some topoID, Some nID, Some infoType =>
      (* _node = self.__topologies[_topologyID].get_Node(_nodeID) *)
      match
        match topoID with
        | PInt i =>
            match py_index (topologies m) i with
            | Some t => Some (match nID with
                              | PInt k => get_Node t k
                              | PStr _ => None
                              end)
            | None => None
            end
        | PStr _ => None
        end
      with
      | None => Raises m exn_no_node
      | Some node =>
          (* match _infoType: case "time" / case "position" / case _ *)
          match infoType with
          | PStr t =>
              if String.eqb t "time" then
                match node with
                | Some n =>
                    (* _nodeInfo = _node.timestamp.copy() *)
                    let (r, h) := Time_copy (store (world m)) (timestamp n) in
                    Returns (set_world m (mkWorld h (ran (world m)))) (RObject r)
                | None => Raises m exn_attribute
                end
              else if String.eqb t "position" then
                match node with
                | Some n =>
                    (* _nodeInfo = _node.get_Position() *)
                    match get_Position (store (world m)) n with
                    | Some (r, h) =>
                        Returns (set_world m (mkWorld h (ran (world m)))) (RObject r)
                    | None => Raises m exn_position
                    end
                | None => Raises m exn_attribute
                end
              else Raises m (exn_info_type t)
          | PInt _ => Raises m (exn_info_type "<int>")
          end
      end
  | _, _, _ => Raises m exn_incomplete
  end.

(** [ManagerParallel.__pause_AtTime]. *)
Definition pause_AtTime (m : Manager) (kw : Kwargs) : Outcome :=
  match kw !! "_timestep" with
  | None =>
      Raises m "[API: __pause_AtTime]: The keyworded arguments are not complete for the API"
  | Some (PInt _pauseTimeStep) =>
      if _pauseTimeStep <? currentStep m
      then Returns m RNone
      else Returns (set_timeStepToStop m (Some _pauseTimeStep)) RStoppingEvent
  | Some (PStr _) =>
      Raises m "'<' not supported between instances of 'str' and 'int'"
  end.

(** [ManagerParallel.__resume]. *)
Definition resume (m : Manager) (kw : Kwargs) : Outcome :=
  Returns (set_resuming (set_stopping m false) true) RNone.

(** [ManagerParallel.__get_Topologies]. *)
Definition get_Topologies (m : Manager) (kw : Kwargs) : Outcome :=
  Returns m (RTopologies (topologies m)).

(** [ManagerParallel.__run_OneStep]. *)
Definition api_run_OneStep (m : Manager) (kw : Kwargs) : Outcome :=
  Returns (set_world m (run_OneStep (topologies m) (world m))) RNone.

Section Dispatch.

(** The handlers that reach into the models and the operating system
    ([call_ModelAPIsByModelName], [compute_FOVs], [load_FOVs]) stay
    abstract here. *)
Variable external_handler : string -> Manager -> Kwargs -> Outcome.

(** [ManagerParallel.__apiHandlerDictionary]. *)
Definition apiHandlerDictionary (_api : string)
  : option (Manager -> Kwargs -> Outcome) :=
  if String.eqb _api "call_ModelAPIsByModelName" then Some (external_handler _api)
  else if String.eqb _api "get_NodeInfo" then Some get_NodeInfo
  else if String.eqb _api "pause_AtTime" then Some pause_AtTime
  else if String.eqb _api "resume" then Some resume
  else if String.eqb _api "get_Topologies" then Some get_Topologies
  else if String.eqb _api "compute_FOVs" then Some (external_handler _api)
  else if String.eqb _api "load_FOVs" then Some (external_handler _api)
  else if String.eqb _api "run_OneStep" then Some api_run_OneStep
  else None.

(** [ManagerParallel.call_APIs]: every [Exception] of the handler, and the
    [KeyError] of the lookup, is printed and turned into [None]. *)
Definition call_APIs (m : Manager) (_api : string) (kw : Kwargs)
  : Manager * RetVal :=
  match apiHandlerDictionary _api with
  | None => (print m (ApiWarning ("'" ++ _api ++ "'")), RNone)
  | Some handler =>
      match handler m kw with
      | Returns m' v => (m', v)
      | Raises m' exn => (print m' (ApiWarning exn), RNone)
      end
  end.

End Dispatch.

End Runtime.

(* ===================================================================== *)
(** * The power model *)
(* ===================================================================== *)

Module Power.
Local Open Scope Q_scope.

(** One row of the "PowerStats" line: tag, requested, granted, consumed. *)
Definition StatsRow : Type := string * bool * option bool * Q.

Inductive LogLine :=
| LogUnknownTag (tag : string)
    (* "Power consumption tag {} is not provided. Assuming this uses 0 power" *)
| LogNotEnough (charge required : Q)
    (* "Not enough power to consume. Current charge: {} J, Required charge: {} J" *)
| LogAlwaysOnDenied (tag : string)
    (* "Not enough power to perform always on task: {}" *)
| LogNoRequirement (tag : string)
    (* "Power consumption tag {} not found in the requiredEnergy dictionary..." *)
| LogPowerStats (charge generated : Q) (outOfPower : bool) (rows : list StatsRow).
    (* "PowerStats. CurrentCharge: [..] J. ChargeGenerated: [..] J.
        OutOfPower: [..]. Tag: [..]. Requested: [..]. Granted: [..].
        Consumed: [..]. ..." *)

Record ModelPower := mkPower {
  currentCharge : Q;
  maxCharge : Q;
  minCharge : Q;
  powerConsumptionDict : gmap string Q;
  requiredEnergy : gmap string Q;
  alwaysOn : list string;
  powerGeneration : Q;
  batteryEfficiency : Q;
  timestep : Q;
  loggingTags : list string;
  tagsRequestedLoggerDict : gmap string bool;
  tagsGrantedLoggerDict : gmap string (option bool);
  tagsConsumedLoggerDict : gmap string Q;
  chargeGeneratedLogger : Q;
  previousChargeLogger : Q;
  outOfPowerLogger : bool;
  log : list LogLine
}.

Definition set_charge (m : ModelPower) (c : Q) : ModelPower :=
  mkPower c (maxCharge m) (minCharge m) (powerConsumptionDict m)
          (requiredEnergy m) (alwaysOn m) (powerGeneration m)
          (batteryEfficiency m) (timestep m) (loggingTags m)
          (tagsRequestedLoggerDict m) (tagsGrantedLoggerDict m)
          (tagsConsumedLoggerDict m) (chargeGeneratedLogger m)
          (previousChargeLogger m) (outOfPowerLogger m) (log m).
Definition set_consumption (m : ModelPower) (d : gmap string Q) : ModelPower :=
  mkPower (currentCharge m) (maxCharge m) (minCharge m) d
          (requiredEnergy m) (alwaysOn m) (powerGeneration m)
          (batteryEfficiency m) (timestep m) (loggingTags m)
          (tagsRequestedLoggerDict m) (tagsGrantedLoggerDict m)
          (tagsConsumedLoggerDict m) (chargeGeneratedLogger m)
          (previousChargeLogger m) (outOfPowerLogger m) (log m).
Definition set_required (m : ModelPower) (d : gmap string Q) : ModelPower :=
  mkPower (currentCharge m) (maxCharge m) (minCharge m) (powerConsumptionDict m)
          d (alwaysOn m) (powerGeneration m)
          (batteryEfficiency m) (timestep m) (loggingTags m)
          (tagsRequestedLoggerDict m) (tagsGrantedLoggerDict m)
          (tagsConsumedLoggerDict m) (chargeGeneratedLogger m)
          (previousChargeLogger m) (outOfPowerLogger m) (log m).
Definition set_stats (m : ModelPower) (tags : list string)
    (req : gmap string bool) (gr : gmap string (option bool))
    (cons : gmap string Q) : ModelPower :=
  mkPower (currentCharge m) (maxCharge m) (minCharge m) (powerConsumptionDict m)
          (requiredEnergy m) (alwaysOn m) (powerGeneration m)
          (batteryEfficiency m) (timestep m) tags req gr cons
          (chargeGeneratedLogger m) (previousChargeLogger m)
          (outOfPowerLogger m) (log m).
Definition set_counters (m : ModelPower) (generated previous : Q)
    (outOfPower : bool) : ModelPower :=
  mkPower (currentCharge m) (maxCharge m) (minCharge m) (powerConsumptionDict m)
          (requiredEnergy m) (alwaysOn m) (powerGeneration m)
          (batteryEfficiency m) (timestep m) (loggingTags m)
          (tagsRequestedLoggerDict m) (tagsGrantedLoggerDict m)
          (tagsConsumedLoggerDict m) generated previous outOfPower (log m).
Definition write_Log (m : ModelPower) (l : LogLine) : ModelPower :=
  mkPower (currentCharge m) (maxCharge m) (minCharge m) (powerConsumptionDict m)
          (requiredEnergy m) (alwaysOn m) (powerGeneration m)
          (batteryEfficiency m) (timestep m) (loggingTags m)
          (tagsRequestedLoggerDict m) (tagsGrantedLoggerDict m)
          (tagsConsumedLoggerDict m) (chargeGeneratedLogger m)
          (previousChargeLogger m) (outOfPowerLogger m) (log m ++ [l]).

(** The keyworded arguments of [consume_Energy], typed as its docstring
    types them; an absent key is [None]. *)
Record Request := mkRequest {
  _energy : option Q;
  _power : option Q;
  _duration : option Q;
  _tag : option string
}.

Inductive Outcome (A : Type) :=
| Returns (m : ModelPower) (a : A)
| Raises (m : ModelPower) (exn : string).
Arguments Returns {A} m a.
Arguments Raises {A} m exn.

(** [ModelPower.__add_KeyToLogs]. *)
Definition add_KeyToLogs (m : ModelPower) (_key : string) : ModelPower :=
  if bool_decide (_key ∈ loggingTags m) then m
  else set_stats m (loggingTags m ++ [_key])
         (<[_key := default false (tagsRequestedLoggerDict m !! _key)]>
            (tagsRequestedLoggerDict m))
         (<[_key := default (Some false) (tagsGrantedLoggerDict m !! _key)]>
            (tagsGrantedLoggerDict m))
         (<[_key := default 0 (tagsConsumedLoggerDict m !! _key)]>
            (tagsConsumedLoggerDict m)).

(** The last branch of the request analysis: the tag has no consumption
    figure; it is logged, registered with a figure of 0, and costs nothing. *)
Definition assume_zero (m : ModelPower) (tag : string)
  : Outcome (string * Q) :=
  let m1 := write_Log m (LogUnknownTag tag) in
  let m2 := add_KeyToLogs m1 tag in
  let m3 := set_consumption m2 (<[tag := 0]> (powerConsumptionDict m2)) in
  Returns m3 ("Other"%string, 0).

(** The first half of [ModelPower.__consume_Energy]: the logger tag and the
    energy the request resolves to. *)
Definition resolve_request (m : ModelPower) (kw : Request)
  : Outcome (string * Q) :=
  match _energy kw with
  | Some e => Returns m ("Other"%string, e)
  | None =>
      match _power kw, _duration kw with
      | Some p, Some d => Returns m ("Other"%string, d * p)
      | _, _ =>
          match _tag kw with
          | Some tag =>
              match _duration kw, powerConsumptionDict m !! tag with
              | Some d, Some rate => Returns m (tag, rate * d)
              | _, _ => assume_zero m tag
              end
          | None => Raises m "KeyError: '_tag'"
          end
      end
  end.

(** [ModelPower.__consume_Energy]. *)
Definition consume_Energy (m : ModelPower) (kw : Request) : Outcome bool :=
  match resolve_request m kw with
  | Raises m' exn => Raises m' exn
  | Returns m1 (_loggerTag, _energyToConsume) =>
      let '(m2, consumed, _ret) :=
        if Qle_bool (_energyToConsume + minCharge m1) (currentCharge m1)
        then (set_charge m1 (currentCharge m1 - _energyToConsume),
              _energyToConsume, true)
        else (write_Log m1 (LogNotEnough (currentCharge m1) 0), 0, false) in
      (* self.__tagsConsumedLoggerDict[_loggerTag] += _energyToConsume *)
      match tagsConsumedLoggerDict m2 !! _loggerTag with
      | Some c =>
          Returns
            (set_stats m2 (loggingTags m2) (tagsRequestedLoggerDict m2)
               (tagsGrantedLoggerDict m2)
               (<[_loggerTag := c + consumed]> (tagsConsumedLoggerDict m2)))
            _ret
      | None => Raises m2 "KeyError"
      end
  end.

(** [ModelPower.__has_Energy]. *)
Definition has_Energy (m : ModelPower) (tag : string) : ModelPower * bool :=
  let '(m1, _granted) :=
    match requiredEnergy m !! tag with
    | None =>
        let m1 := add_KeyToLogs (write_Log m (LogNoRequirement tag)) tag in
        (set_required m1 (<[tag := 0]> (requiredEnergy m1)),
         negb (Qle_bool (currentCharge m) (minCharge m)))
    | Some required => (m, Qle_bool required (currentCharge m))
    end in
  (set_stats m1 (loggingTags m1)
     (<[tag := true]> (tagsRequestedLoggerDict m1))
     (<[tag := Some _granted]> (tagsGrantedLoggerDict m1))
     (tagsConsumedLoggerDict m1),
   _granted).

(** [ModelPower.call_APIs] for "consume_Energy": an exception of the handler
    is printed and the call returns [None]. *)
Definition call_consume_Energy (m : ModelPower) (kw : Request)
  : ModelPower * option bool :=
  match consume_Energy m kw with
  | Returns m' b => (m', Some b)
  | Raises m' _ => (m', None)
  end.

(** The rows of the summary line, one per logging tag; [None] where a
    dictionary lacks the tag (a [KeyError] in the source). *)
Definition stats_rows (m : ModelPower) : option (list StatsRow) :=
  mapM (fun tag =>
          match tagsRequestedLoggerDict m !! tag,
                tagsGrantedLoggerDict m !! tag,
                tagsConsumedLoggerDict m !! tag with
          | Some r, Some g, Some c => Some (tag, r, g, c)
          | _, _, _ => None
          end) (loggingTags m).

(** [ModelPower.__log_Stats]: emit the summary, then reset the statistics. *)
Definition log_Stats (m : ModelPower) : Outcome unit :=
  match stats_rows m with
  | None => Raises m "KeyError"
  | Some rows =>
      let m1 := write_Log m (LogPowerStats (currentCharge m)
                               (chargeGeneratedLogger m)
                               (outOfPowerLogger m) rows) in
      let m2 := set_stats m1 (loggingTags m1)
                  (list_to_map (List.map (fun t => (t, false)) (loggingTags m1)))
                  (list_to_map (List.map (fun t => (t, None)) (loggingTags m1)))
                  (list_to_map (List.map (fun t => (t, 0)) (loggingTags m1))) in
      Returns (set_counters m2 0 0 false) tt
  end.

(** The loop of [Execute] over the always-on tags; next to the state it
    yields what each [consume_Energy] call returned. *)
Fixpoint always_on_loop (m : ModelPower) (tags : list string)
  : ModelPower * list (option bool) :=
  match tags with
  | [] => (m, [])
  | tag :: rest =>
      let (m1, ret) :=
        call_consume_Energy m (mkRequest None None (Some (timestep m)) (Some tag)) in
      let m2 :=
        match ret with
        | Some true => m1
        | _ => (* if not ret *)
            set_counters (write_Log m1 (LogAlwaysOnDenied tag))
                         (chargeGeneratedLogger m1) (previousChargeLogger m1) true
        end in
      let (m3, rets) := always_on_loop m2 rest in
      (m3, ret :: rets)
  end.

(** Python's [min(a, b)]: [b] only when it is strictly smaller. *)
Definition py_min (a b : Q) : Q := if Qle_bool a b then a else b.

(** The head of [ModelPower.Execute], up to the loop over the always-on
    tags: remember the charge, add the solar gain when the orbital model
    answers "in_Sunlight" with true, clamp to the maximum. *)
Definition harvest (m : ModelPower) (_inSunlight : bool) : ModelPower :=
  let m1 := set_counters m (chargeGeneratedLogger m) (currentCharge m)
              (outOfPowerLogger m) in
  let m2 := if _inSunlight
            then set_charge m1 (currentCharge m1
                                + powerGeneration m1 * timestep m1 * batteryEfficiency m1)
            else m1 in
  let m3 := set_charge m2 (py_min (currentCharge m2) (maxCharge m2)) in
  set_counters m3 (currentCharge m3 - previousChargeLogger m3)
               (previousChargeLogger m3) (outOfPowerLogger m3).

(** [ModelPower.Execute]. *)
Definition Execute (m : ModelPower) (_inSunlight : bool) : Outcome unit :=
  let m4 := harvest m _inSunlight in
  let (m5, _) := always_on_loop m4 (alwaysOn m4) in
  log_Stats m5.

(** [ModelPower.__init__], with the keys of the three dictionaries in their
    insertion order. *)
Definition new_ModelPower (consumption : list (string * Q))
    (initial maxC minC : Q) (solar efficiency : Q) (always : list string)
    (required : list (string * Q)) (delta : Q) : ModelPower :=
  let tags := (List.map fst consumption ++ List.map fst required
               ++ ["Other"%string])%list in
  mkPower initial maxC minC (list_to_map consumption) (list_to_map required)
          always solar efficiency delta tags
          (list_to_map (List.map (fun t => (t, false)) tags))
          (list_to_map (List.map (fun t => (t, None)) tags))
          (list_to_map (List.map (fun t => (t, 0)) tags))
          0 0 false [].

End Power.

(* ===================================================================== *)
(** * The model-composition engine *)
(* ===================================================================== *)

Module Orchestration.

(** What [_add_Models] reads of a model instance (the [IModel] properties). *)
Record Model := mkModel {
  iName : string;
  supportedNodeClasses : list string;
  dependencyModelClasses : list (list string)
}.

(** One entry of the "models" array of a node's configuration. *)
Record ModelDetails := mkDetails {
  iname : string;
  arguments : list (string * string)
}.

(** What [_add_Models] reads of the node instance. *)
Record NodeInstance := mkNodeInstance {
  node_iName : string;
  nodeID : Z
}.

Inductive Exn :=
| InitError (iname : string)
    (* "[Simulator Exception] Error in initializing model: ..." *)
| Unsupported
    (* "[Simulator Exception] Model {_modelIns.iName} does not support node
        {_nodeInstance.iName}" (the source string is not an f-string) *)
| DependencyMismatch (model : string) (nodeID : Z) (wanted : gset string).



(** The orchestrator's state that outlives one call: the class-level list
    [__dependencyResolvedSetsOfModels] and what was printed. *)
Record Orchestrator := mkOrchestrator {
  dependencyResolvedSetsOfModels : list (gset string);
  printed : list string
}.

Inductive Outcome :=
| Added (models : list Model) (o : Orchestrator)
    (* the list handed to [_nodeInstance.add_Models]; nothing is handed over
       when it is empty *)
| Raises (e : Exn) (o : Orchestrator).

(** "check whether this node is supported by the model". *)
Definition isThisNodeSupported (n : NodeInstance) (m : Model) : bool :=
  match supportedNodeClasses m with
  | [] => true
  | classes => existsb (String.eqb (node_iName n)) classes
  end.

Definition duplicate_warning (n : NodeInstance) (m : Model) : string :=
  ("[Simulator Warning] Model " ++ iName m ++ " has been added to node "
   ++ pretty (nodeID n) ++ " multiple times.")%string.

(** "check whether this dependency is met by any of the models that we have
    listed in this node". *)
Definition isThisDependencyResolved (_tempModelList : list Model)
    (_dependencySublist : list string) : bool :=
  existsb (fun _dependencyModelClassName =>
             existsb (fun _aModelFromTheList =>
                        String.eqb (iName _aModelFromTheList)
                                   _dependencyModelClassName)
                     _tempModelList)
          _dependencySublist.

Definition model_resolved (_tempModelList : list Model) (m : Model) : bool :=
  forallb (isThisDependencyResolved _tempModelList) (dependencyModelClasses m).

Section AddModels.

(** [modelInitDictionary]: the initialisation method registered under a
    class name; [None] from the method when it raises. *)
Variable modelInitDictionary : gmap string (ModelDetails -> option Model).

(** [modelInitDictionary[_thisModelDetails.iname](...)]; [None] where the
    source raises "Error in initializing model". *)
Definition build (d : ModelDetails) : option Model :=
  match modelInitDictionary !! iname d with
  | Some init => init d
  | None => None
  end.

(** The first loop of [_add_Models]: build, check the node class, drop
    duplicates with a warning. *)
Fixpoint collect (n : NodeInstance) (_modelDetails : list ModelDetails)
    (_modelNameSet : gset string) (_tempModelList : list Model)
    (warnings : list string)
  : Exn + (gset string * list Model * list string) :=
  match _modelDetails with
  | [] => inr (_modelNameSet, _tempModelList, warnings)
  | d :: rest =>
      match build d with
      | None => inl (InitError (iname d))
      | Some _modelIns =>
          if isThisNodeSupported n _modelIns then
            if bool_decide (iName _modelIns ∈ _modelNameSet) then
              collect n rest _modelNameSet _tempModelList
                      (warnings ++ [duplicate_warning n _modelIns])
            else
              collect n rest ({[iName _modelIns]} ∪ _modelNameSet)
                      (_tempModelList ++ [_modelIns]) warnings
          else inl Unsupported
      end
  end.

(** [Orchestrator._add_Models]. *)
Definition _add_Models (o : Orchestrator) (n : NodeInstance)
    (_modelDetails : list ModelDetails) : Outcome :=
  match collect n _modelDetails ∅ [] [] with
  | inl e => Raises e o
  | inr (_modelNameSet, _tempModelList, warnings) =>
      let o1 := mkOrchestrator (dependencyResolvedSetsOfModels o)
                               (printed o ++ warnings) in
      if existsb (fun resolved => bool_decide (_modelNameSet = resolved))
                 (dependencyResolvedSetsOfModels o1)
      then Added _tempModelList o1
      else
        match List.find (fun m => negb (model_resolved _tempModelList m))
                        _tempModelList with
        | Some _modelToBeChecked =>
            Raises (DependencyMismatch (iName _modelToBeChecked) (nodeID n)
                                       _modelNameSet) o1
        | None =>
            Added _tempModelList
              (if bool_decide (1 < size _modelNameSet)%nat
               then mkOrchestrator
                      (dependencyResolvedSetsOfModels o1 ++ [_modelNameSet])
                      (printed o1)
               else o1)
        end
  end.

End AddModels.

End Orchestration.

(* ===================================================================== *)
(** * The LoRa link and radio device *)
(* ===================================================================== *)

Module Lora.
Local Open Scope Q_scope.

(** ** LoraLink *)

(** The radio phy setup (the keys the device constructor requires; the
    antenna figures enter only the link budget, which stays abstract). *)
Record PhySetup := mkPhy {
  _frequency : Q;
  _bandwidth : Q;
  _sf : Z;
  _coding_rate : Q;
  _preamble : Q;
  _bits_allowed : Z
}.

(** [LoraLink.sf_and_snr_to_ber]: per spreading factor, the (SNR threshold,
    BER) pairs in the order of the dictionary. *)
Definition sf_and_snr_to_ber (sf : Z) : option (list (Q * Q)) :=
  if (sf =? 7)%Z then
    Some [(-(65 # 10), 1 # 100000); (-(7), 8 # 100000); (-(8), 8 # 10000);
          (-(10), 11 # 1000); (-(12), 1 # 10); (-(14), 2 # 10);
          (-(16), 3 # 10); (-(18), 4 # 10); (-(24), 5 # 10)]
  else if (sf =? 8)%Z then
    Some [(-(8), 8 # 1000000); (-(9), 2 # 100000); (-(10), 11 # 100000);
          (-(12), 8 # 1000); (-(14), 7 # 100); (-(16), 1 # 10);
          (-(18), 3 # 10); (-(24), 5 # 10)]
  else if (sf =? 9)%Z then
    Some [(-(12), 1 # 100000); (-(13), 11 # 100000); (-(14), 11 # 10000);
          (-(15), 1 # 100); (-(16), 3 # 100); (-(18), 1 # 10);
          (-(20), 3 # 10); (-(22), 4 # 10); (-(24), 5 # 10)]
  else if (sf =? 10)%Z then
    Some [(-(15), 1 # 10000); (-(16), 11 # 100000); (-(17), 13 # 10000);
          (-(18), 1 # 100); (-(20), 1 # 10); (-(22), 2 # 10);
          (-(24), 3 # 10)]
  else if (sf =? 11)%Z then
    Some [(-(18), 12 # 1000000); (-(19), 14 # 100000); (-(20), 14 # 10000);
          (-(21), 11 # 1000); (-(22), 8 # 100); (-(24), 1 # 10)]
  else if (sf =? 12)%Z then
    Some [(-(21), 14 # 1000000); (-(22), 9 # 10000); (-(24), 12 # 1000)]
  else None.

(** [a < b] on rationals, as a boolean. *)
Definition Qltb (a b : Q) : bool := negb (Qle_bool b a).

Inductive LinkExn :=
| SFNotSupported              (* Exception("SF not supported") *)
| BERRange                    (* ValueError("BER must be between 0 and 1") *)
| AllowedBitsRange            (* ValueError("Number of allowed bits wrong must
                                 be non-negative and less than or equal to
                                 the frame size") *)
| ZeroDivision.               (* ZeroDivisionError *)

(** [LoraLink.get_BER], for the link's SNR and the sender's spreading
    factor: the first row whose threshold the SNR exceeds, else 1. *)
Definition get_BER (snr : Q) (sf : Z) : LinkExn + Q :=
  match sf_and_snr_to_ber sf with
  | None => inl SFNotSupported
  | Some rows =>
      inr (match List.find (fun row => Qltb (fst row) snr) rows with
           | Some row => snd row
           | None => 1
           end)
  end.

(** [math.comb] on naturals. *)
Fixpoint comb (n k : nat) : nat :=
  match k, n with
  | O, _ => 1%nat
  | S _, O => 0%nat
  | S k', S n' => (comb n' k' + comb n' k)%nat
  end.

(** The term the loop of [get_PERFromBER] subtracts at index [idx]:
    [math.comb(_size, _idx) * (p ** _idx) * (q ** (_size - _idx))]. *)
Definition per_term (p : Q) (bits : nat) (idx : nat) : Q :=
  inject_Z (Z.of_nat (comb bits idx)) * p ^ (Z.of_nat idx)
  * (1 - p) ^ (Z.of_nat (bits - idx)).

(** The body of [LoraLink.get_PERFromBER] once the BER [_ber] of the link is
    known; [_size] is the frame size in bytes. *)
Definition PERFromBER (_ber : Q) (_allowedBitsWrong _size : Z) : LinkExn + Q :=
  let bits := (_size * 8)%Z in
  if negb (Qle_bool 0 _ber && Qle_bool _ber 1) then inl BERRange
  else if ((_allowedBitsWrong <? 0) || (bits <? _allowedBitsWrong))%Z
       then inl AllowedBitsRange
  else
    inr (List.fold_left
           (fun prob _idx => prob - per_term _ber (Z.to_nat bits) _idx)
           (List.seq 0 (Z.to_nat (_allowedBitsWrong + 1)))
           1).

(** [LoraLink.get_PERFromBER] for a link with the given SNR and sender
    spreading factor. *)
Definition get_PERFromBER (snr : Q) (sf : Z) (_allowedBitsWrong _size : Z)
  : LinkExn + Q :=
  match get_BER snr sf with
  | inl e => inl e
  | inr _ber => PERFromBER _ber _allowedBitsWrong _size
  end.

(** [math.ceil] on a rational. *)
Definition Qceil (q : Q) : Z := (- Qfloor (- q))%Z.

(** [LoraLink.get_TimeOnAir], in milliseconds. *)
Definition get_TimeOnAir (phy : PhySetup) (_frameLength : Z) : LinkExn + Q :=
  if Qeq_bool (_bandwidth phy) 0 || (_sf phy =? 0)%Z then inl ZeroDivision
  else
    let _sf := _sf phy in
    let _symbolTime := 2 ^ _sf / _bandwidth phy in
    let low := if (_sf <=? 6)%Z then 1%Z else 0%Z in
    let _preambleTime :=
      (_preamble phy + (425 # 100) + inject_Z (2 * low)) * _symbolTime in
    let _dataLength :=
      inject_Z (Qceil (inject_Z (8 * _frameLength + 16 + 20 - 4 * _sf + 8 - 8 * low)
                       / inject_Z (4 * _sf)))
      * _coding_rate phy in
    let _payloadTime := _dataLength * _symbolTime in
    let _headerTime := 8 * _symbolTime in
    inr ((_preambleTime + _headerTime + _payloadTime) * 1000).

(** What the link budget yields for an ordered pair of devices: it goes
    through [math.log10] and the node positions and is not computed here. *)
Record LinkBudget := mkBudget {
  distance : Q;           (* metres *)
  SNR : Q;                (* LoraLink.get_SNR *)
  RSSI_dBW : Q;           (* LoraLink.get_ReceivedSignalStrength *)
  PLR_link : Q            (* LoraLink.get_PLR *)
}.

(** [LoraLink.get_PropagationDelay], in seconds. *)
Definition get_PropagationDelay (b : LinkBudget) : Q :=
  distance b / 300000000.

(** ** LoraFrame *)

(** [Frame]/[LoraFrame].  The dataclass fields are [id], [source], [size],
    [payloadString] and [instanceID]; the others are the private attributes
    behind the setters.  Instants are in microseconds. *)
Record LoraFrame := mkFrame {
  id : Z;
  source : Z;
  size : Z;
  payloadString : string;
  instanceID : Z;
  startTransmissionTime : Z;
  endTransmissionTime : Z;
  startReceptionTime : Z;
  endReceptionTime : Z;
  PLR : Q;
  PER : Q;
  CR : Q;
  BW : Q;
  SF : Z;
  RSSI : Q;
  collidedIDs : list Z
}.

(** [Frame.add_collidedID]. *)
Definition add_collidedID (f : LoraFrame) (collidedID : Z) : LoraFrame :=
  mkFrame (id f) (source f) (size f) (payloadString f) (instanceID f)
          (startTransmissionTime f) (endTransmissionTime f)
          (startReceptionTime f) (endReceptionTime f)
          (PLR f) (PER f) (CR f) (BW f) (SF f) (RSSI f)
          (collidedIDs f ++ [collidedID]).

(** The [__eq__] that [@dataclass] generates: the tuples of fields are
    compared ([globalFrameIDCounter] is read from the class on both sides). *)
Definition frame_eqb (a b : LoraFrame) : bool :=
  (id a =? id b)%Z && (source a =? source b)%Z && (size a =? size b)%Z
  && String.eqb (payloadString a) (payloadString b)
  && (instanceID a =? instanceID b)%Z.

(** [list.remove(x)]: drop the first element equal to [x]. *)
Fixpoint py_remove (x : LoraFrame) (l : list LoraFrame) : list LoraFrame :=
  match l with
  | [] => []
  | y :: rest => if frame_eqb y x then rest else y :: py_remove x rest
  end.

(** ** LoraRadioDevice *)

(** One line of [__log_Rx]; the line carries the frame's id, kept here with
    the frame it belongs to. *)
Record RxLine := mkRxLine {
  rx_frame : LoraFrame;
  rx_success : bool;
  rx_collisions : list Z;
  rx_plrDrop : bool;
  rx_perDrop : bool;
  rx_txBusyDrop : bool;
  rx_crbwDrop : bool
}.

(** The line the [send] method writes. *)
Record TxLine := mkTxLine {
  tx_frameID : Z;
  tx_payloadSize : Z;
  mtuDrop : bool;
  busyDrop : bool;
  noValidChannelDrop : bool;
  tx_instanceIDs : list Z;
  tx_destinationRadioIDs : list Z;
  tx_snrs : list Q;
  tx_secondsToTransmits : list Q;
  tx_plrs : list Q;
  tx_pers : list Q
}.

Inductive LogEntry :=
| LogRx (l : RxLine)
| LogTx (l : TxLine)
| LogNotReceivable (frameID : Z).
    (* "Frame {} not receiving due to radio not being receivable" *)

(** A radio device.  A channel is the list of the devices of
    [LoraChannel.get_Devices()], each named by its identity in the network. *)
Record LoraRadioDevice := mkDevice {
  address : Z;
  transmittable : bool;
  receivable : bool;
  channels : list (list positive);
  transmittingTimes : list (Z * Z);
  temporaryReceivedFrames : list LoraFrame;
  rxQueue : list string;
  receiveCallBack : bool;             (* whether a callback is set *)
  callbackPackets : list string;      (* the packets handed to the callback *)
  radioPhySetup : PhySetup;
  logger : list LogEntry
}.

Definition set_frames (d : LoraRadioDevice) (l : list LoraFrame) : LoraRadioDevice :=
  mkDevice (address d) (transmittable d) (receivable d) (channels d)
           (transmittingTimes d) l (rxQueue d) (receiveCallBack d)
           (callbackPackets d) (radioPhySetup d) (logger d).
Definition set_transmittingTimes (d : LoraRadioDevice) (l : list (Z * Z))
  : LoraRadioDevice :=
  mkDevice (address d) (transmittable d) (receivable d) (channels d)
           l (temporaryReceivedFrames d) (rxQueue d) (receiveCallBack d)
           (callbackPackets d) (radioPhySetup d) (logger d).
Definition write_Log (d : LoraRadioDevice) (e : LogEntry) : LoraRadioDevice :=
  mkDevice (address d) (transmittable d) (receivable d) (channels d)
           (transmittingTimes d) (temporaryReceivedFrames d) (rxQueue d)
           (receiveCallBack d) (callbackPackets d) (radioPhySetup d)
           (logger d ++ [e]).

(** [self.__receiveCallBack(_packet = ...)] when a callback is set, else
    [self.__rxQueue.put(...)]. *)
Definition deliver (d : LoraRadioDevice) (packet : string) : LoraRadioDevice :=
  if receiveCallBack d
  then mkDevice (address d) (transmittable d) (receivable d) (channels d)
                (transmittingTimes d) (temporaryReceivedFrames d) (rxQueue d)
                (receiveCallBack d) (callbackPackets d ++ [packet])
                (radioPhySetup d) (logger d)
  else mkDevice (address d) (transmittable d) (receivable d) (channels d)
                (transmittingTimes d) (temporaryReceivedFrames d)
                (rxQueue d ++ [packet])
                (receiveCallBack d) (callbackPackets d)
                (radioPhySetup d) (logger d).

(** [__log_Rx(_frame, **_kwargs)] with its defaults. *)
Definition log_Rx (d : LoraRadioDevice) (f : LoraFrame)
    (success : bool) (collisions : list Z)
    (plrDrop perDrop txBusyDrop crbwDrop : bool) : LoraRadioDevice :=
  write_Log d (LogRx (mkRxLine f success collisions plrDrop perDrop
                              txBusyDrop crbwDrop)).

(** [LoraRadioDevice.is_TxBusy] at the owner node's instant [now]. *)
Definition is_TxBusy (d : LoraRadioDevice) (now : Z) : bool :=
  existsb (fun w => (fst w <=? now)%Z && (now <? snd w)%Z) (transmittingTimes d).

(** [Time.difference_in_seconds(time1, time2)]. *)
Definition difference_in_seconds (time1 time2 : Z) : Q :=
  inject_Z (time1 - time2) / 1000000.

(** The body of the loop over the other pending frames in
    [update_Timestep], for the frame [cur] under examination and one
    [other] frame: both frames as the body leaves them, or [None] for the
    ZeroDivisionError of the symbol time. *)
Definition collide (cur other : LoraFrame) : option (LoraFrame * LoraFrame) :=
  let _timeOverlap :=
    negb ((endReceptionTime other <=? startReceptionTime cur)%Z
          || (endReceptionTime cur <=? startReceptionTime other)%Z) in
  if _timeOverlap then
    let _rssiDiff := Qabs (RSSI cur - RSSI other) in
    if Qltb _rssiDiff 6 then
      (* both frames are within 6dB of each other *)
      Some (add_collidedID cur (id other), add_collidedID other (id cur))
    else
      (* _strongerFrame = _currFrame if cur.RSSI > other.RSSI else _otherFrame
         _weakerFrame   = _currFrame if cur.RSSI < other.RSSI else _otherFrame *)
      let strongerIsCur := Qltb (RSSI other) (RSSI cur) in
      let weakerIsCur := Qltb (RSSI cur) (RSSI other) in
      let _strongerFrame := if strongerIsCur then cur else other in
      let _weakerFrame := if weakerIsCur then cur else other in
      (* frame.add_collidedID(...) on whichever of the two objects it is *)
      let mark (isCur : bool) (collidedID : Z) (pair : LoraFrame * LoraFrame) :=
        if isCur then (add_collidedID (fst pair) collidedID, snd pair)
        else (fst pair, add_collidedID (snd pair) collidedID) in
      let _strongerFrameFirst :=
        (startReceptionTime _strongerFrame <? startReceptionTime _weakerFrame)%Z in
      if _strongerFrameFirst then
        Some (mark weakerIsCur (id _strongerFrame) (cur, other))
      else if Qeq_bool (BW cur) 0 then None
      else
        let _symbolTime := 2 ^ (SF cur) / BW cur in
        let _timeToLockInSeconds := _symbolTime * 4 in
        let _timeDiff :=
          difference_in_seconds (startReceptionTime _weakerFrame)
                                (startReceptionTime _strongerFrame) in
        if Qltb _timeToLockInSeconds _timeDiff then
          Some (mark strongerIsCur (id _weakerFrame)
                  (mark weakerIsCur (id _strongerFrame) (cur, other)))
        else
          Some (mark weakerIsCur (id _strongerFrame) (cur, other))
  else Some (cur, other).

(** [for _otherFrame in self.__temporaryReceivedFrames: ...]: the frame under
    examination and the list as the loop leaves them; the flag is [false]
    when the loop was left by the exception. *)
Fixpoint collision_pass (cur : LoraFrame) (others : list LoraFrame)
  : LoraFrame * list LoraFrame * bool :=
  match others with
  | [] => (cur, [], true)
  | o :: rest =>
      match collide cur o with
      | None => (cur, o :: rest, false)
      | Some (cur', o') =>
          let '(cur'', rest', ok) := collision_pass cur' rest in
          (cur'', o' :: rest', ok)
      end
  end.

(** The half-duplex test of a frame against one transmission window. *)
Definition overlaps_transmission (f : LoraFrame) (w : Z * Z) : bool :=
  ((startReceptionTime f <=? fst w)%Z && (fst w <? endReceptionTime f)%Z)
  || ((startReceptionTime f <? snd w)%Z && (snd w <=? endReceptionTime f)%Z).

Section Reception.

(** [random.random()]: the [n]-th draw of the generator. *)
Variable random : nat -> Q.

(** The state of the [while] loop of [update_Timestep]. *)
Record RxState := mkRxState {
  dev : LoraRadioDevice;
  framesIndex : nat;
  draws : nat;              (* how many draws the generator has given *)
  raised : bool             (* the loop was left by an exception *)
}.

(** What [update_Timestep] does with a frame whose reception is over, once
    the frame is off the list and compared with the others. *)
Definition conclude (d : LoraRadioDevice) (n : nat) (cur : LoraFrame)
  : LoraRadioDevice * nat :=
  match collidedIDs cur with
  | _ :: _ =>
      (log_Rx d cur false (collidedIDs cur) false false false false, n)
  | [] =>
      let _frameDrop := existsb (overlaps_transmission cur) (transmittingTimes d) in
      let d1 := if _frameDrop
                then log_Rx d cur false [] false false true false else d in
      let _crMatches := Qeq_bool (CR cur) (_coding_rate (radioPhySetup d)) in
      if negb _crMatches then
        (log_Rx d1 cur false [] false false false true, n)
      else if negb _frameDrop then
        let _perDrop := Qltb (random n) (PER cur) in
        if negb _perDrop then
          (deliver (log_Rx d1 cur true [] false false false false)
                   (payloadString cur), S n)
        else (log_Rx d1 cur false [] false true false false, S n)
      else (d1, n)
  end.

(** One turn of the [while _framesIndex < len(...)] loop.  After a frame is
    taken off the list the index is lowered and raised again on every path,
    so it stands where it stood. *)
Definition rx_turn (now : Z) (st : RxState) : RxState :=
  match nth_error (temporaryReceivedFrames (dev st)) (framesIndex st) with
  | None => st
  | Some _currFrame =>
      if (endReceptionTime _currFrame <=? now)%Z then
        let remaining := py_remove _currFrame (temporaryReceivedFrames (dev st)) in
        let '(cur, others, ok) := collision_pass _currFrame remaining in
        let d1 := set_frames (dev st) others in
        if ok then
          let (d2, n) := conclude d1 (draws st) cur in
          mkRxState d2 (framesIndex st) n false
        else mkRxState d1 (framesIndex st) (draws st) true
      else mkRxState (dev st) (S (framesIndex st)) (draws st) false
  end.

Fixpoint rx_loop (fuel : nat) (now : Z) (st : RxState) : RxState :=
  match fuel with
  | O => st
  | S fuel' =>
      if raised st then st
      else if (framesIndex st <? length (temporaryReceivedFrames (dev st)))%nat
      then rx_loop fuel' now (rx_turn now st)
      else st
  end.

(** The tail of [update_Timestep]: transmissions that ended by the earliest
    pending reception (and by now) are forgotten.  The source removes the
    qualifying windows one by one with [list.remove]; windows are compared
    by value and qualify by value, so what remains is the filtered list. *)
Definition forget_transmissions (d : LoraRadioDevice) (now : Z) : LoraRadioDevice :=
  let _earliestReception :=
    match temporaryReceivedFrames d with
    | [] => now
    | f :: rest =>
        Z.max (List.fold_left Z.min (List.map startReceptionTime rest)
                              (startReceptionTime f))
              now
    end in
  set_transmittingTimes d
    (List.filter (fun w => negb (snd w <=? _earliestReception)%Z)
                 (transmittingTimes d)).

(** [LoraRadioDevice.update_Timestep] at the owner node's instant [now],
    with [n] draws of the generator used so far: the device, the number of
    draws after the call, and whether the call raised. *)
Definition update_Timestep (d : LoraRadioDevice) (now : Z) (n : nat)
  : LoraRadioDevice * nat * bool :=
  let st := rx_loop (length (temporaryReceivedFrames d)) now
                    (mkRxState d 0 n false) in
  if raised st then (dev st, draws st, true)
  else (forget_transmissions (dev st) now, draws st, false).

(** [LoraRadioDevice.receive]. *)
Definition receive (d : LoraRadioDevice) (n : nat) (_frame : LoraFrame)
  : LoraRadioDevice * nat * bool :=
  if negb (receivable d) then
    (write_Log d (LogNotReceivable (id _frame)), n, false)
  else if negb (Qeq_bool (BW _frame) (_bandwidth (radioPhySetup d)))
          || negb (SF _frame =? _sf (radioPhySetup d))%Z then
    (log_Rx d _frame false [] false false false true, n, false)
  else if Qltb (random n) (PLR _frame) then
    (log_Rx d _frame false [] true false false false, S n, false)
  else
    (set_frames d (temporaryReceivedFrames d ++ [_frame]), S n, true).

(** ** Sending *)

(** [timedelta(seconds = s)] in microseconds: the nearest one, a tie going
    to the even one. *)
Definition timedelta_us (s : Q) : Z :=
  let x := s * 1000000 in
  let f := Qfloor x in
  let r := x - inject_Z f in
  if Qltb r (1 # 2) then f
  else if Qltb (1 # 2) r then (f + 1)%Z
  else if Z.even f then f else (f + 1)%Z.

(** Python's [max] of a list: the first of the largest elements, and a
    [ValueError] on the empty list. *)
Definition py_max (l : list Q) : option Q :=
  match l with
  | [] => None
  | x :: rest => Some (fold_left (fun m y => if Qltb m y then y else m) rest x)
  end.

(** [LoraRadioDevice.get_MTU]. *)
Definition get_MTU : Z := 255%Z.

(** What [send] can raise. *)
Inductive SendExn :=
| AssertionError                (* assert len(self.__channels) == 1 *)
| IndexError                    (* self.__channels[_channelIndex] *)
| LinkError (e : LinkExn)       (* get_TimeOnAir, get_PERFromBER *)
| BudgetError                   (* the link budget raised *)
| ValueError.                   (* max() of an empty sequence *)

(** The devices by identity, the class attribute
    [Frame.globalFrameIDCounter], and the calls
    [consume_Energy(_tag="TXRADIO", _duration=...)] made to the power model
    of the owner node of a device. *)
Record Network := mkNetwork {
  devices : gmap positive LoraRadioDevice;
  globalFrameIDCounter : Z;
  energyCalls : list (positive * Q)
}.

(** The link budget of [LoraLink(src, dstn, distance)] at an instant, [None]
    where computing it raises. *)
Variable link : positive -> positive -> Z -> option LinkBudget.

(** [ownernode.has_ModelWithTag(EModelTag.POWER) is not None]. *)
Variable has_PowerModel : positive -> bool.

(** The variables of the loop over the devices of the channel. *)
Record TxState := mkTxState {
  net : Network;
  tx_draws : nat;
  _instanceId : Z;
  _loggerInfo : TxLine;
  _ret : bool
}.

(** One turn of [for _destinationDevice in _destinationChannel.get_Devices()]
    for the frame with this id and payload; the sender is [self]. *)
Definition transmit_to (self : positive) (now : Z) (frameID : Z)
    (_payloadSize : Z) (_payload : string) (st : TxState) (dst : positive)
  : SendExn + TxState :=
  match devices (net st) !! self, devices (net st) !! dst with
  | Some me, Some _destinationDevice =>
    if (address _destinationDevice =? address me)%Z then inr st
    else
      match get_TimeOnAir (radioPhySetup me) _payloadSize with
      | inl e => inl (LinkError e)
      | inr toa =>
        let _secondsToTrasmit := toa / 1000 in
        match link self dst now with
        | None => inl BudgetError
        | Some b =>
          let _propagationDelay := get_PropagationDelay b in
          let _plr := PLR_link b in
          match get_PERFromBER (SNR b) (_sf (radioPhySetup me))
                               (_bits_allowed (radioPhySetup me)) _payloadSize with
          | inl e => inl (LinkError e)
          | inr _per =>
            let _transmitFrame :=
              mkFrame frameID (address me) _payloadSize _payload (_instanceId st)
                      now (now + timedelta_us _secondsToTrasmit)%Z
                      (now + timedelta_us _propagationDelay)%Z
                      (now + timedelta_us (_propagationDelay + _secondsToTrasmit))%Z
                      _plr _per
                      (_coding_rate (radioPhySetup me))
                      (_bandwidth (radioPhySetup me))
                      (_sf (radioPhySetup me))
                      (RSSI_dBW b) [] in
            let '(dst', n', _) :=
              receive _destinationDevice (tx_draws st) _transmitFrame in
            let me' :=
              set_transmittingTimes me
                (transmittingTimes me
                 ++ [(now, (now + timedelta_us _secondsToTrasmit)%Z)]) in
            let i := _loggerInfo st in
            inr (mkTxState
                   (mkNetwork (<[self := me']> (<[dst := dst']> (devices (net st))))
                              (globalFrameIDCounter (net st))
                              (energyCalls (net st)))
                   n'
                   (_instanceId st + 1)%Z
                   (mkTxLine (tx_frameID i) (tx_payloadSize i)
                             (mtuDrop i) (busyDrop i) (noValidChannelDrop i)
                             (tx_instanceIDs i ++ [_instanceId st])
                             (tx_destinationRadioIDs i
                              ++ [address _destinationDevice])
                             (tx_snrs i ++ [SNR b])
                             (tx_secondsToTransmits i ++ [_secondsToTrasmit])
                             (tx_plrs i ++ [_plr])
                             (tx_pers i ++ [_per]))
                   true)
          end
        end
      end
  | _, _ => inr st
  end.

(** The loop; an exception leaves it with what the earlier turns did. *)
Fixpoint transmit_all (self : positive) (now : Z) (frameID : Z)
    (_payloadSize : Z) (_payload : string) (st : TxState)
    (_destinationChannel : list positive) : SendExn * TxState + TxState :=
  match _destinationChannel with
  | [] => inr st
  | dst :: rest =>
    match transmit_to self now frameID _payloadSize _payload st dst with
    | inl e => inl (e, st)
    | inr st' => transmit_all self now frameID _payloadSize _payload st' rest
    end
  end.

(** The line written at the end of [send]. *)
Definition log_Tx (w : Network) (self : positive) (info : TxLine) : Network :=
  match devices w !! self with
  | Some me =>
    mkNetwork (<[self := write_Log me (LogTx info)]> (devices w))
              (globalFrameIDCounter w) (energyCalls w)
  | None => w
  end.

Inductive SendOutcome :=
| SendReturns (b : bool) (w : Network) (n : nat)
| SendRaises (e : SendExn) (w : Network) (n : nat).

(** [LoraRadioDevice.send] of the device [self] at the owner node's instant
    [now], with [n] draws of the generator used so far.  [None] when [self]
    names no device. *)
Definition send (self : positive) (now : Z) (_payloadSize : Z)
    (_payload : string) (_channelIndex : Z) (w : Network) (n : nat)
  : option SendOutcome :=
  match devices w !! self with
  | None => None
  | Some me =>
    (* LoraFrame(...): the frame takes the counter and advances it *)
    let frameID := globalFrameIDCounter w in
    let w := mkNetwork (devices w) (globalFrameIDCounter w + 1)%Z (energyCalls w) in
    let info := mkTxLine frameID _payloadSize false false false [] [] [] [] [] [] in
    let drop (i : TxLine) := Some (SendReturns false (log_Tx w self i) n) in
    if (get_MTU <? _payloadSize)%Z then
      drop (mkTxLine frameID _payloadSize true false false [] [] [] [] [] [])
    else if is_TxBusy me now then
      drop (mkTxLine frameID _payloadSize false true false [] [] [] [] [] [])
    else if (length (channels me) =? 0)%nat then
      drop (mkTxLine frameID _payloadSize false false true [] [] [] [] [] [])
    else if negb (length (channels me) =? 1)%nat then
      Some (SendRaises AssertionError w n)
    else
      match Runtime.py_index (channels me) _channelIndex with
      | None => Some (SendRaises IndexError w n)
      | Some _destinationChannel =>
        match transmit_all self now frameID _payloadSize _payload
                (mkTxState w n 1 info false) _destinationChannel with
        | inl (e, st) => Some (SendRaises e (net st) (tx_draws st))
        | inr st =>
          if _ret st then
            if has_PowerModel self then
              match py_max (tx_secondsToTransmits (_loggerInfo st)) with
              | None => Some (SendRaises ValueError (net st) (tx_draws st))
              | Some _duration =>
                let w' := mkNetwork (devices (net st))
                            (globalFrameIDCounter (net st))
                            (energyCalls (net st) ++ [(self, _duration)]) in
                Some (SendReturns true (log_Tx w' self (_loggerInfo st))
                                  (tx_draws st))
              end
            else
              Some (SendReturns true (log_Tx (net st) self (_loggerInfo st))
                                (tx_draws st))
          else
            Some (SendReturns false (log_Tx (net st) self (_loggerInfo st))
                              (tx_draws st))
        end
      end
  end.

End Reception.

End Lora.

(* ===================================================================== *)
(** * The field-of-view index: models/models_fov/modelfovtimebased.py and
      the precompute of sim/managerparallel.py *)
(* ===================================================================== *)

Module Fov.

(** [ENodeType.value]. *)
Definition ENodeType_value (t : Runtime.ENodeType) : Z :=
  match t with
  | Runtime.SAT => 0
  | Runtime.GS => 1
  | Runtime.IOTDEVICE => 2
  end.

Definition ENodeType_eqb (a b : Runtime.ENodeType) : bool :=
  ENodeType_value a =? ENodeType_value b.

(** One row of a node's array: start, end, the other node's id and the value
    of the other node's type.  Instants are in microseconds. *)
Record Row := mkRow {
  row_start : Z;
  row_end : Z;
  row_nodeID : Z;
  row_nodeType : Z
}.

(** What [__find_Passes] reads of a node. *)
Record INode := mkINode {
  nodeID : Z;
  nodeType : Runtime.ENodeType;
  has_Orbital : bool;        (* has_ModelWithTag(EModelTag.ORBITAL) *)
  has_Fov : option Q;        (* the __minElevation of its ModelFovTimeBased *)
  timestamp : Z;
  simStartTime : Z;
  simEndTime : Z
}.

Record ModelFovTimeBased := mkModel {
  ownernode : INode;
  minElevation : Q
}.

(** The static variables of the class, and the lines of [__log_Pass]
    (owner, other node, start, end). *)
Record Statics := mkStatics {
  nodeToTimes : gmap Z (option (list Row));
  nodeToNode : gmap Z (list Z);
  preloaded : bool;
  passLog : list (Z * Z * Z * Z)
}.

Definition set_nodeToNode (s : Statics) (m : gmap Z (list Z)) : Statics :=
  mkStatics (nodeToTimes s) m (preloaded s) (passLog s).
Definition set_nodeToTimes (s : Statics) (m : gmap Z (option (list Row)))
  : Statics :=
  mkStatics m (nodeToNode s) (preloaded s) (passLog s).

Inductive FovExn :=
| KeyError          (* a node id that is not a key of the static dictionaries *)
| AttributeError    (* _orbitModel is None *)
| TypeError.        (* iterating the None that get_Passes returned *)

(** [max(a, b)] on floats. *)
Definition py_max2 (a b : Q) : Q := if Qle_bool b a then a else b.

(** [np.array(rows)] when there is no array yet, else
    [np.append(orig, rows, axis=0)]. *)
Definition append_rows (orig : option (list Row)) (rows : list Row) : list Row :=
  match orig with
  | None => rows
  | Some o => o ++ rows
  end.

(** [Topology.get_NodesOfAType]. *)
Definition get_NodesOfAType (nodes : list INode) (_nodeType : Runtime.ENodeType)
  : list INode :=
  List.filter (fun _node => ENodeType_eqb (nodeType _node) _nodeType) nodes.

Section Passes.

(** The [get_Passes] API of the orbital model of a satellite for a ground
    node, a start, an end and a minimum elevation: the (start, end) pairs,
    or [None] when the call returns None. *)
Variable get_Passes : INode -> INode -> Z -> Z -> Q -> option (list (Z * Z)).

(** [a[a[:,0].argsort()]]: the rows in an order of non-decreasing start;
    which one among rows of equal start is left to numpy. *)
Variable argsort_start : list Row -> list Row.

(** One turn of [for _node in _nodesToCheck].  An exception leaves the
    statics as they are when it is raised. *)
Definition visit (self : ModelFovTimeBased) (s : Statics) (_node : INode)
  : FovExn * Statics + Statics :=
  let owner := ownernode self in
  match nodeToNode s !! nodeID owner with
  | None => inl (KeyError, s)
  | Some mine =>
    let s1 := set_nodeToNode s
                (<[nodeID owner := mine ++ [nodeID _node]]> (nodeToNode s)) in
    match nodeToNode s1 !! nodeID _node with
    | None => inl (KeyError, s1)
    | Some theirs =>
      let s2 := set_nodeToNode s1
                  (<[nodeID _node := theirs ++ [nodeID owner]]> (nodeToNode s1)) in
      let '(_satelliteNode, _groundStationNode, _orbitModel) :=
        if has_Orbital owner then (owner, _node, true)
        else (_node, owner, has_Orbital _node) in
      let _minElevation :=
        py_max2 (minElevation self)
                (match has_Fov _node with Some e => e | None => 0%Q end) in
      let _startTime := Z.max (simStartTime owner) (timestamp owner) in
      if negb _orbitModel then inl (AttributeError, s2)
      else
        match get_Passes _satelliteNode _groundStationNode _startTime
                         (simEndTime owner) _minElevation with
        | None => inl (TypeError, s2)
        | Some _passes =>
          let s3 :=
            mkStatics (nodeToTimes s2) (nodeToNode s2) (preloaded s2)
              (passLog s2
               ++ List.map (fun ps => (nodeID owner, nodeID _node, fst ps, snd ps))
                           _passes) in
          if (length _passes =? 0)%nat then inr s3
          else
            let _satPasses :=
              List.map (fun ps => mkRow (fst ps) (snd ps)
                                    (nodeID _groundStationNode)
                                    (ENodeType_value (nodeType _groundStationNode)))
                       _passes in
            let _gsPasses :=
              List.map (fun ps => mkRow (fst ps) (snd ps)
                                    (nodeID _satelliteNode)
                                    (ENodeType_value (nodeType _satelliteNode)))
                       _passes in
            match nodeToTimes s3 !! nodeID _satelliteNode,
                  nodeToTimes s3 !! nodeID _groundStationNode with
            | Some _origSat, Some _origGs =>
              let _newSat := argsort_start (append_rows _origSat _satPasses) in
              let _newGs := argsort_start (append_rows _origGs _gsPasses) in
              inr (set_nodeToTimes s3
                     (<[nodeID _groundStationNode := Some _newGs]>
                        (<[nodeID _satelliteNode := Some _newSat]>
                           (nodeToTimes s3))))
            | _, _ => inl (KeyError, s3)
            end
        end
    end
  end.

Fixpoint visit_all (self : ModelFovTimeBased) (s : Statics)
    (_nodesToCheck : list INode) : FovExn * Statics + Statics :=
  match _nodesToCheck with
  | [] => inr s
  | _node :: rest =>
    match visit self s _node with
    | inl e => inl e
    | inr s' => visit_all self s' rest
    end
  end.

(** [ModelFovTimeBased.__find_Passes] for the nodes of the owner's
    topology. *)
Definition find_Passes (self : ModelFovTimeBased) (topology : list INode)
    (_targetTypes : list Runtime.ENodeType) (s : Statics)
  : FovExn * Statics + Statics :=
  let _targetNodes := List.flat_map (get_NodesOfAType topology) _targetTypes in
  match nodeToNode s !! nodeID (ownernode self) with
  | None => inl (KeyError, s)
  | Some _currentOnes =>
    visit_all self s
      (List.filter
         (fun _node => negb (existsb (Z.eqb (nodeID _node)) _currentOnes))
         _targetNodes)
  end.

(** [call_APIs("find_Passes", ...)]: an exception is printed and the call
    returns. *)
Definition call_find_Passes (self : ModelFovTimeBased) (topology : list INode)
    (_targetTypes : list Runtime.ENodeType) (s : Statics) : Statics :=
  match find_Passes self topology _targetTypes s with
  | inl (_, s') => s'
  | inr s' => s'
  end.

(** [__set_GlobalDictionary]. *)
Definition set_GlobalDictionary (s : Statics)
    (_globalDictionary : gmap Z (option (list Row))) : Statics :=
  mkStatics _globalDictionary (nodeToNode s) true (passLog s).

(** ** ManagerParallel.__compute_FOVs *)

(** [__processMethod] in a process that starts with a copy of the statics
    and takes the satellites [share] from the queue: the dictionary it puts
    on the output queue, if it has processed a satellite. *)
Definition processMethod (topology : list INode) (s0 : Statics)
    (share : list ModelFovTimeBased) : option (gmap Z (option (list Row))) :=
  match share with
  | [] => None
  | _ =>
    Some (nodeToTimes
            (List.fold_left
               (fun s sat =>
                  call_find_Passes sat topology [Runtime.GS; Runtime.IOTDEVICE] s)
               share s0))
  end.

(** The body of [for _fovDict in _processDicts] for one dictionary.  Each
    key of the dictionary is visited once: None and empty arrays are
    skipped, a first array is taken as it is, a later one is joined to the
    rows already there with [np.concatenate]. *)
Definition combine (_outputFOV : gmap Z (list Row))
    (_fovDict : gmap Z (option (list Row))) : gmap Z (list Row) :=
  merge (fun _thisList _fovArray =>
           match _fovArray with
           | Some (Some (r :: rest)) =>
             match _thisList with
             | None => Some (r :: rest)
             | Some l => Some (l ++ r :: rest)
             end
           | _ => _thisList
           end)
        _outputFOV _fovDict.

(** [__compute_FOVs] in the main process, with the satellites each worker
    took from the queue, the workers in the order their dictionaries are
    read from the output queue. *)
Definition compute_FOVs (topology : list INode) (s0 : Statics)
    (shares : list (list ModelFovTimeBased)) : Statics :=
  let _processDicts := omap (processMethod topology s0) shares in
  let _outputFOV := List.fold_left combine _processDicts ∅ in
  set_GlobalDictionary s0 (Some <$> _outputFOV).

End Passes.

End Fov.

(* ===================================================================== *)
(** * Properties of the runtime *)
(* ===================================================================== *)

Module RuntimeFacts.
Import Runtime.

(** ** The object store *)

Lemma time_of_add_seconds_same (h : Store) r t d :
  h !! r = Some (OTime t) ->
  add_seconds h r d !! r = Some (OTime (t + d)).
Proof.
  intros H. unfold add_seconds. rewrite H. apply lookup_insert_eq.
Qed.

Lemma add_seconds_other (h : Store) r r' d :
  r <> r' -> add_seconds h r d !! r' = h !! r'.
Proof.
  intros H. unfold add_seconds.
  destruct (h !! r) as [[t| |]|]; try reflexivity.
  by apply lookup_insert_ne.
Qed.

Lemma alloc_fresh (h : Store) o :
  h !! (fst (alloc h o)) = None.
Proof.
  unfold alloc; simpl. apply not_elem_of_dom. apply is_fresh.
Qed.

Lemma alloc_lookup_new (h : Store) o :
  snd (alloc h o) !! fst (alloc h o) = Some o.
Proof. unfold alloc; simpl. apply lookup_insert_eq. Qed.

Lemma alloc_lookup_old (h : Store) o r x :
  h !! r = Some x -> snd (alloc h o) !! r = Some x.
Proof.
  intros H. unfold alloc; simpl.
  rewrite lookup_insert_ne; [done|].
  intros E. pose proof (alloc_fresh h o) as F. unfold alloc in F; simpl in F.
  rewrite E in F. congruence.
Qed.

(** ** Node.Execute *)

Lemma Execute_clock (w : World) (n : Node) t :
  store w !! timestamp n = Some (OTime t) ->
  store (fst (Execute w n)) !! timestamp n
  = Some (OTime (if t <=? endTimeStamp n then t + timedelta n else t)).
Proof.
  intros H. unfold Execute, time_of. rewrite H.
  destruct (t <=? endTimeStamp n); simpl; [|done].
  by apply time_of_add_seconds_same.
Qed.

Lemma Execute_other (w : World) (n : Node) r :
  r <> timestamp n ->
  store (fst (Execute w n)) !! r = store w !! r.
Proof.
  intros H. unfold Execute.
  destruct (_ <=? _); simpl; [|done].
  by apply add_seconds_other.
Qed.

Lemma Execute_ran (w : World) (n : Node) t :
  store w !! timestamp n = Some (OTime t) ->
  ran (fst (Execute w n))
  = ran w ++ (if t <=? endTimeStamp n then [(nodeID n, t)] else []).
Proof.
  intros H. unfold Execute, time_of. rewrite H.
  destruct (t <=? endTimeStamp n); simpl; [done|].
  by rewrite app_nil_r.
Qed.

Lemma Execute_ran_incl (w : World) (n : Node) e :
  List.In e (ran w) -> List.In e (ran (fst (Execute w n))).
Proof.
  intros H. unfold Execute.
  destruct (_ <=? _); simpl; [|done].
  apply in_or_app. by left.
Qed.

(** ** One step over all the nodes *)

Lemma run_nodes_other (l : list Node) (w : World) r :
  ~ List.In r (List.map timestamp l) ->
  store (run_nodes l w) !! r = store w !! r.
Proof.
  revert w. induction l as [|n l IH]; intros w H; simpl; [done|].
  rewrite IH.
  - apply Execute_other. intros E. apply H. simpl. by left.
  - intros E. apply H. simpl. by right.
Qed.

Lemma run_nodes_ran_incl (l : list Node) (w : World) e :
  List.In e (ran w) -> List.In e (ran (run_nodes l w)).
Proof.
  revert w. induction l as [|n l IH]; intros w H; simpl; [done|].
  apply IH. by apply Execute_ran_incl.
Qed.

(** A node whose clock object is its own advances exactly once per step, and
    its models run at the instant the clock showed before. *)
Lemma run_nodes_clock (l : list Node) (w : World) (n : Node) t :
  List.NoDup (List.map timestamp l) ->
  List.In n l ->
  store w !! timestamp n = Some (OTime t) ->
  store (run_nodes l w) !! timestamp n
  = Some (OTime (if t <=? endTimeStamp n then t + timedelta n else t))
  /\ ((t <=? endTimeStamp n) = true ->
      List.In (nodeID n, t) (ran (run_nodes l w))).
Proof.
  revert w. induction l as [|a l IH]; intros w ND HIn Ht; [by destruct HIn|].
  simpl in ND. apply List.NoDup_cons_iff in ND as [Hnot ND].
  destruct HIn as [->|HIn].
  - simpl. split.
    + rewrite run_nodes_other; [|done]. by apply Execute_clock.
    + intros G. apply run_nodes_ran_incl.
      rewrite (Execute_ran _ _ _ Ht), G. apply in_or_app. right. by left.
  - simpl. apply IH; [done|done|].
    rewrite Execute_other; [done|].
    intros E. apply Hnot. rewrite <- E. by apply List.in_map.
Qed.

Fixpoint steps (k : nat) (ts : list Topology) (w : World) : World :=
  match k with
  | O => w
  | S k' => run_OneStep ts (steps k' ts w)
  end.

Lemma steps_ran_incl k ts w e :
  List.In e (ran w) -> List.In e (ran (steps k ts w)).
Proof.
  induction k as [|k IH]; intros H; simpl; [done|].
  apply run_nodes_ran_incl. by apply IH.
Qed.

Lemma steps_clock (k : nat) ts w n t0 :
  List.NoDup (List.map timestamp (all_nodes ts)) ->
  List.In n (all_nodes ts) ->
  store w !! timestamp n = Some (OTime t0) ->
  0 <= timedelta n ->
  t0 + (Z.of_nat k - 1) * timedelta n <= endTimeStamp n ->
  store (steps k ts w) !! timestamp n
  = Some (OTime (t0 + Z.of_nat k * timedelta n)).
Proof.
  intros ND HIn Ht Hd. induction k as [|k IH]; intros Hend.
  - simpl. rewrite Ht. do 2 f_equal. lia.
  - simpl. unfold run_OneStep.
    destruct (run_nodes_clock (all_nodes ts) (steps k ts w) n
                (t0 + Z.of_nat k * timedelta n) ND HIn) as [E _].
    { apply IH. nia. }
    rewrite E.
    replace (t0 + Z.of_nat k * timedelta n <=? endTimeStamp n) with true.
    + do 2 f_equal. lia.
    + symmetry. apply Z.leb_le. replace (Z.of_nat (S k) - 1) with (Z.of_nat k) in Hend by lia. lia.
Qed.

Lemma steps_shift k ts w :
  steps (S k) ts w = steps k ts (run_OneStep ts w).
Proof.
  induction k as [|k IH]; [done|].
  change (steps (S (S k)) ts w) with (run_OneStep ts (steps (S k) ts w)).
  rewrite IH. reflexivity.
Qed.

(** ** The driver loop *)

(** No pause is due within the next [k] steps. *)
Definition gate_free (m : Manager) (k : nat) : Prop :=
  match timeStepToStop m with
  | None => True
  | Some s => s < currentStep m \/ currentStep m + Z.of_nat k <= s
  end.

Lemma gate_free_now m k :
  gate_free m (S k) -> gate_armed_now m = false.
Proof.
  unfold gate_free, gate_armed_now.
  destruct (timeStepToStop m) as [s|]; [|done].
  intros H. apply Z.eqb_neq. lia.
Qed.

(** Two moves of the driver per step when no pause is due: the loop test and
    the step body. *)
Lemma driver_free_run (k : nat) (m : Manager) :
  pc m = AtLoopHead ->
  gate_free m k ->
  currentStep m + Z.of_nat k <= numOfSteps m ->
  let m' := driver_steps (2 * k) m in
  pc m' = AtLoopHead
  /\ currentStep m' = currentStep m + Z.of_nat k
  /\ world m' = steps k (topologies m) (world m)
  /\ timeStepToStop m' = timeStepToStop m
  /\ topologies m' = topologies m
  /\ numOfSteps m' = numOfSteps m
  /\ stoppingCondition m' = stoppingCondition m
  /\ resumingCondition m' = resumingCondition m.
Proof.
  revert m. induction k as [|k IH]; intros m Hpc Hfree Hle.
  - simpl. split_and!; try done; lia.
  - replace (2 * S k)%nat with (S (S (2 * k))) by lia.
    cbn [driver_steps].
    assert (E1 : driver_step m = set_pc m AtBody).
    { unfold driver_step. rewrite Hpc.
      replace (currentStep m <? numOfSteps m) with true
        by (symmetry; apply Z.ltb_lt; lia).
      by rewrite (gate_free_now m k Hfree). }
    rewrite E1.
    set (m2 := driver_step (set_pc m AtBody)).
    assert (E2 : pc m2 = AtLoopHead /\ currentStep m2 = currentStep m + 1
                 /\ world m2 = run_OneStep (topologies m) (world m)
                 /\ timeStepToStop m2 = timeStepToStop m
                 /\ topologies m2 = topologies m
                 /\ numOfSteps m2 = numOfSteps m
                 /\ stoppingCondition m2 = stoppingCondition m
                 /\ resumingCondition m2 = resumingCondition m).
    { unfold m2, driver_step. simpl.
      destruct (currentStep m mod 60 =? 0); simpl; repeat split; reflexivity. }
    destruct E2 as (P1 & P2 & P3 & P4 & P5 & P6 & P7 & P8).
    destruct (IH m2) as (Q1 & Q2 & Q3 & Q4 & Q5 & Q6 & Q7 & Q8).
    + exact P1.
    + unfold gate_free in *. rewrite P4, P2.
      destruct (timeStepToStop m); [lia|done].
    + rewrite P2, P6. lia.
    + cbv zeta. rewrite Q1, Q2, Q3, Q4, Q5, Q6, Q7, Q8, P2, P3, P4, P5, P6, P7, P8.
      rewrite steps_shift. split_and!; try done; lia.
Qed.

(** ** Node clocks along the run *)

(** A two-node topology used for the closed examples below: a satellite and a
    ground station, both starting at instant 0 with a one-second step and an
    end time of ten seconds. *)
Definition sat1 : Node :=
  mkNode "SatelliteBasic" SAT 1 0 1%positive 10000000 1000000
         (PositionDictionary 2%positive None).
Definition gs2 : Node :=
  mkNode "GSBasic" GS 2 0 3%positive 10000000 1000000
         (FixedPosition 4%positive).
Definition topo0 : Topology := mkTopology 0 [sat1; gs2].
Definition store0 : gmap positive Obj :=
  <[1%positive := OTime 0]>
    (<[2%positive := OPositions ∅]>
       (<[3%positive := OTime 0]>
          (<[4%positive := OLocation (mkLocation 0 0 0)]> ∅))).
Definition world0 : World := mkWorld store0 [].
Definition manager0 : Manager := new_Manager [topo0] 10 1 world0.

Lemma topo0_clocks_distinct :
  List.NoDup (List.map timestamp (all_nodes [topo0])).
Proof.
  simpl. repeat constructor; simpl; intuition discriminate.
Qed.

(** C1, as the code has it.  Every node owns its clock object (the
    constructors copy the start time).  For a step [i] of the run whose
    instant [t0 + i*delta] is not after the node's end time: when the loop
    reaches step [i] the clock shows [t0 + i*delta], the node's models run at
    that instant, and once step [i] is complete the counter is [i+1] and the
    clock shows [t0 + (i+1)*delta]. *)
Theorem timestamp_after_step
    (ts : list Topology) (N workers : Z) (w0 : World) (n : Node) (t0 i : Z) :
  List.NoDup (List.map timestamp (all_nodes ts)) ->
  List.In n (all_nodes ts) ->
  store w0 !! timestamp n = Some (OTime t0) ->
  0 <= timedelta n ->
  0 <= i < N ->
  t0 + i * timedelta n <= endTimeStamp n ->
  let before := driver_steps (2 * Z.to_nat i) (new_Manager ts N workers w0) in
  let after := driver_steps (2 * Z.to_nat (i + 1)) (new_Manager ts N workers w0) in
  (pc before = AtLoopHead /\ currentStep before = i
   /\ time_of (store (world before)) (timestamp n) = t0 + i * timedelta n)
  /\ (pc after = AtLoopHead /\ currentStep after = i + 1
      /\ time_of (store (world after)) (timestamp n) = t0 + (i + 1) * timedelta n
      /\ List.In (nodeID n, t0 + i * timedelta n) (ran (world after))).
Proof.
  intros ND HIn Ht Hd Hi Hend before after.
  assert (Hrun : forall k : nat, Z.of_nat k <= N ->
            let m := driver_steps (2 * k) (new_Manager ts N workers w0) in
            pc m = AtLoopHead /\ currentStep m = Z.of_nat k
            /\ world m = steps k ts w0).
  { intros k Hk.
    destruct (driver_free_run k (new_Manager ts N workers w0))
      as (P1 & P2 & P3 & _); [done | exact I | simpl; lia |].
    cbv zeta. rewrite P1, P2, P3. simpl. split_and!; try done; lia. }
  assert (Hclk : forall k : nat, Z.of_nat k <= i + 1 ->
            store (steps k ts w0) !! timestamp n
            = Some (OTime (t0 + Z.of_nat k * timedelta n))).
  { intros k Hk. apply steps_clock; try done. nia. }
  split.
  - destruct (Hrun (Z.to_nat i)) as (P1 & P2 & P3); [lia|].
    subst before. rewrite P1, P2, P3. split_and!; [done|lia|].
    unfold time_of. rewrite Hclk by lia. f_equal. lia.
  - destruct (Hrun (Z.to_nat (i + 1))) as (P1 & P2 & P3); [lia|].
    subst after. rewrite P1, P2, P3. split_and!; [done|lia| |].
    + unfold time_of. rewrite Hclk by lia. rewrite Z2Nat.id by lia. done.
    + replace (Z.to_nat (i + 1)) with (S (Z.to_nat i)) by lia.
      simpl. unfold run_OneStep.
      destruct (run_nodes_clock (all_nodes ts) (steps (Z.to_nat i) ts w0) n
                  (t0 + i * timedelta n) ND HIn) as [_ E].
      { rewrite Hclk by lia. rewrite Z2Nat.id by lia. done. }
      apply E. apply Z.leb_le. lia.
Qed.

Lemma timestamp_after_step_witness :
  let after := driver_steps (2 * Z.to_nat (3 + 1)) manager0 in
  time_of (store (world after)) (timestamp gs2) = 0 + (3 + 1) * timedelta gs2.
Proof.
  refine (proj1 (proj2 (proj2 (proj2
    (timestamp_after_step [topo0] 10 1 world0 gs2 0 3
       topo0_clocks_distinct _ _ _ _ _))))).
  - simpl. right. by left.
  - reflexivity.
  - simpl. lia.
  - lia.
  - simpl. lia.
Defined.

(** The claim as the specification words it, "after step [i] completes the
    timestamp equals [t0 + i*delta]", fails already for step 0. *)
Lemma timestamp_after_step_zero_cex :
  let after_step_0 := driver_steps 2 manager0 in
  currentStep after_step_0 = 1
  /\ time_of (store (world after_step_0)) (timestamp sat1) = 1000000
  /\ time_of (store (world after_step_0)) (timestamp sat1)
     <> 0 + 0 * timedelta sat1.
Proof. vm_compute. split_and!; [done|done|discriminate]. Qed.

(** With the step count the orchestrator derives from the configuration,
    [N = (end - start) / delta], the end-time guard of [Execute] holds for
    every step of the run. *)
Lemma orchestrated_steps_within_end (t0 tEnd delta i : Z) :
  0 < delta ->
  0 <= i < (tEnd - t0) / delta ->
  t0 + i * delta <= tEnd.
Proof.
  intros Hd Hi.
  pose proof (Z.mul_div_le (tEnd - t0) delta Hd). nia.
Qed.

(** ** Pause and resume *)

Lemma driver_blocked (m : Manager) (j : nat) :
  pc m = AtWait -> resumingCondition m = false -> driver_steps j m = m.
Proof.
  intros Hpc Hr. induction j as [|j IH]; [done|].
  simpl. unfold driver_step at 1. rewrite Hpc, Hr. exact IH.
Qed.

(** A pause step that the loop test has already passed is never honoured:
    the gate is only compared with the counter at the head of a step. *)
Definition gate_missed (m : Manager) : Prop :=
  pc m <> AtWait
  /\ match timeStepToStop m with
     | None => True
     | Some s => s < currentStep m
                 \/ (s = currentStep m /\ pc m = AtBody)
                 \/ numOfSteps m <= s
     end.

Lemma gate_missed_step (m : Manager) :
  gate_missed m ->
  gate_missed (driver_step m) /\ numOfSteps (driver_step m) = numOfSteps m.
Proof.
  intros [Hpc Hg]. unfold gate_missed, driver_step, gate_armed_now.
  destruct (timeStepToStop m) as [s|] eqn:T; destruct (pc m) eqn:E; try done;
    repeat match goal with
           | |- context [if ?b then _ else _] => destruct b eqn:?
           end;
    simpl; rewrite ?T, ?E; split_and!; try done;
    repeat match goal with
           | H : (_ <? _) = true |- _ => apply Z.ltb_lt in H
           | H : (_ <? _) = false |- _ => apply Z.ltb_ge in H
           | H : (_ =? _) = true |- _ => apply Z.eqb_eq in H
           | H : (_ =? _) = false |- _ => apply Z.eqb_neq in H
           end;
    intuition (try congruence; try lia).
Qed.

Lemma gate_missed_forever (j : nat) (m : Manager) :
  gate_missed m -> pc (driver_steps j m) <> AtWait.
Proof.
  revert m. induction j as [|j IH]; intros m H.
  - apply H.
  - simpl. apply IH. apply gate_missed_step, H.
Qed.

(** C2, as the code has it.
    (a) [pause_AtTime(step)] returns [None], leaving the manager untouched,
        exactly when [step] is below the step counter; otherwise it overwrites
        the armed step and returns the stopping event.
    (b) When the loop test of the current step still lies ahead and the armed
        step [s] is neither past nor beyond the last step, the driver runs the
        steps before [s] and nothing else, sets the stopping event and blocks
        in the wait for as long as nobody resumes it.
    (c) A pause armed at the step count never blocks the driver, which runs to
        its exit.
    (d) [resume] clears the stopping event, sets the resuming event and leaves
        the armed step in place; a driver blocked in the wait then consumes
        the resuming event and executes the step it was held at. *)
Theorem pause_resume_contract :
  (forall (m : Manager) (kw : gmap string PyVal) (step : Z),
      kw !! "_timestep" = Some (PInt step) ->
      (step < currentStep m <-> pause_AtTime m kw = Returns m RNone)
      /\ (currentStep m <= step ->
          pause_AtTime m kw
          = Returns (set_timeStepToStop m (Some step)) RStoppingEvent))
  /\ (forall (m : Manager) (s : Z),
        pc m = AtLoopHead ->
        timeStepToStop m = Some s ->
        resumingCondition m = false ->
        currentStep m <= s < numOfSteps m ->
        let k := Z.to_nat (s - currentStep m) in
        let paused := driver_steps (2 * k + 1) m in
        pc paused = AtWait
        /\ stoppingCondition paused = true
        /\ currentStep paused = s
        /\ world paused = steps k (topologies m) (world m)
        /\ forall j : nat, driver_steps j paused = paused)
  /\ (forall (m : Manager),
        pc m = AtLoopHead ->
        timeStepToStop m = Some (numOfSteps m) ->
        currentStep m <= numOfSteps m ->
        (forall j : nat, pc (driver_steps j m) <> AtWait)
        /\ exists j : nat, pc (driver_steps j m) = AtExit)
  /\ (forall (m : Manager) (kw : gmap string PyVal),
        exists m' : Manager,
          resume m kw = Returns m' RNone
          /\ stoppingCondition m' = false
          /\ resumingCondition m' = true
          /\ timeStepToStop m' = timeStepToStop m
          /\ (pc m = AtWait ->
              pc (driver_step m') = AtBody
              /\ resumingCondition (driver_step m') = false
              /\ currentStep (driver_step m') = currentStep m
              /\ world (driver_step m') = world m)).
Proof.
  split_and!.
  - intros m kw step Hkw. unfold pause_AtTime. rewrite Hkw. split.
    + split.
      * intros H. by replace (step <? currentStep m) with true
          by (symmetry; apply Z.ltb_lt; lia).
      * destruct (step <? currentStep m) eqn:E; [intros _; by apply Z.ltb_lt|].
        discriminate.
    + intros H. by replace (step <? currentStep m) with false
        by (symmetry; apply Z.ltb_ge; lia).
  - intros m s Hpc Hs Hr Hrange k paused.
    destruct (driver_free_run k m) as (P1 & P2 & P3 & P4 & P5 & P6 & P7 & P8).
    { done. }
    { unfold gate_free. rewrite Hs. right. subst k. lia. }
    { subst k. lia. }
    set (m1 := driver_steps (2 * k) m) in *.
    assert (E : paused = set_pc (set_stopping m1 true) AtWait).
    { subst paused. replace (2 * k + 1)%nat with (S (2 * k)) by lia.
      assert (G : forall j x, driver_steps (S j) x = driver_step (driver_steps j x)).
      { induction j as [|j IH]; intros x; [done|]. simpl. rewrite <- IH. done. }
      rewrite G. fold m1. unfold driver_step, gate_armed_now.
      rewrite P1, P2, P4, P6, Hs.
      replace (currentStep m + Z.of_nat k <? numOfSteps m) with true
        by (symmetry; apply Z.ltb_lt; subst k; lia).
      replace (s =? currentStep m + Z.of_nat k) with true
        by (symmetry; apply Z.eqb_eq; subst k; lia).
      done. }
    rewrite E. simpl. split_and!; try done.
    + rewrite P2. subst k. lia.
    + intros j. apply driver_blocked; simpl; [done|]. by rewrite P8.
  - intros m Hpc Hs Hle. split.
    + intros j. apply gate_missed_forever. split; [by rewrite Hpc|].
      rewrite Hs. right. right. lia.
    + set (k := Z.to_nat (numOfSteps m - currentStep m)).
      destruct (driver_free_run k m) as (P1 & P2 & P3 & P4 & P5 & P6 & P7 & P8).
      { done. }
      { unfold gate_free. rewrite Hs. right. subst k. lia. }
      { subst k. lia. }
      exists (S (2 * k)).
      assert (G : forall j x, driver_steps (S j) x = driver_step (driver_steps j x)).
      { induction j as [|j IH]; intros x; [done|]. simpl. rewrite <- IH. done. }
      rewrite G. unfold driver_step. rewrite P1, P2, P6.
      replace (currentStep m + Z.of_nat k <? numOfSteps m) with false
        by (symmetry; apply Z.ltb_ge; subst k; lia).
      done.
  - intros m kw. eexists. split; [reflexivity|]. simpl. split_and!; try done.
    intros Hpc. unfold driver_step. simpl. rewrite Hpc. simpl. done.
Qed.

(** A pause armed through the API at step 0 before the run starts: the
    driver blocks after its first move, before any [Execute]. *)
Lemma pause_resume_contract_witness :
  let armed := set_timeStepToStop manager0 (Some 0) in
  let paused := driver_steps (2 * Z.to_nat (0 - currentStep armed) + 1) armed in
  pause_AtTime manager0 {[ "_timestep" := PInt 0 ]} = Returns armed RStoppingEvent
  /\ pc paused = AtWait
  /\ stoppingCondition paused = true
  /\ ran (world paused) = [].
Proof.
  destruct pause_resume_contract as (A & B & _ & _).
  split; [|split; [|split]].
  - apply (A manager0 {[ "_timestep" := PInt 0 ]} 0); [reflexivity | simpl; lia].
  - apply (B (set_timeStepToStop manager0 (Some 0)) 0);
      [reflexivity | reflexivity | reflexivity | simpl; lia].
  - apply (B (set_timeStepToStop manager0 (Some 0)) 0);
      [reflexivity | reflexivity | reflexivity | simpl; lia].
  - reflexivity.
Defined.

(** The claim has [resume] clear the gate and release the caller that waits
    on the token.  On the manager paused at step 0, [resume] leaves the armed
    step in place and clears the token's flag: the gate is not cleared and a
    caller waiting on the token stays blocked. *)
Lemma resume_releases_caller_cex :
  let paused := driver_steps 1 (set_timeStepToStop manager0 (Some 0)) in
  pc paused = AtWait
  /\ stoppingCondition paused = true
  /\ exists m', resume paused ∅ = Returns m' RNone
       /\ timeStepToStop m' = Some 0
       /\ stoppingCondition m' = false
       /\ ~ (timeStepToStop m' = None /\ stoppingCondition m' = true).
Proof.
  split_and!; [reflexivity | reflexivity |].
  eexists. split_and!; [reflexivity | reflexivity | reflexivity |].
  intros [H _]. discriminate H.
Qed.

(** A pause armed at the current step while that step is already executing
    is accepted (the token is returned) and then never fires. *)
Lemma pause_at_running_step_never_fires (m : Manager) (kw : gmap string PyVal) :
  pc m = AtBody ->
  kw !! "_timestep" = Some (PInt (currentStep m)) ->
  exists m', pause_AtTime m kw = Returns m' RStoppingEvent
             /\ forall j : nat, pc (driver_steps j m') <> AtWait.
Proof.
  intros Hpc Hkw. unfold pause_AtTime. rewrite Hkw.
  rewrite Z.ltb_irrefl. eexists. split; [reflexivity|].
  intros j. apply gate_missed_forever. split; simpl.
  - by rewrite Hpc.
  - right. left. done.
Qed.

(** ** Node information through the runtime API *)

Lemma steps_other (k : nat) ts w r :
  ~ List.In r (List.map timestamp (all_nodes ts)) ->
  store (steps k ts w) !! r = store w !! r.
Proof.
  intros H. induction k as [|k IH]; [done|].
  simpl. unfold run_OneStep. by rewrite run_nodes_other.
Qed.

(** [r] is a Location object that the node [n] (or its orbital model) holds
    on to for the instant [now]. *)
Definition keeps_position (now : Z) (h : gmap positive Obj) (n : Node)
    (r : positive) : Prop :=
  match positions n with
  | FixedPosition p => r = p
  | PositionDictionary d orbital =>
      (exists dict, h !! d = Some (OPositions dict) /\ dict !! now = Some r)
      \/ orbital = Some (OrbitFixed r)
  end.

Lemma get_Position_aliases (h h' : gmap positive Obj) (n : Node) (r : positive) :
  get_Position h n = Some (r, h') ->
  keeps_position (time_of h (timestamp n)) h' n r.
Proof.
  unfold get_Position, keeps_position.
  destruct (positions n) as [p|d orbital].
  - intros [= -> ->]. done.
  - destruct (h !! d) as [[t|l|dd]|] eqn:Hd;
      try (rewrite lookup_empty; destruct orbital as [[f|p]|]; try done;
           [ destruct (f _); [|done]; unfold alloc; intros [= <- <-]; left;
             eexists; split; [apply lookup_insert_eq | apply lookup_insert_eq]
           | intros [= -> ->]; by right ]).
    destruct (dd !! _) as [p|] eqn:Hp.
    + intros [= -> ->]. left. eauto.
    + destruct orbital as [[f|p]|]; try done.
      * destruct (f _); [|done]. unfold alloc. intros [= <- <-]. left.
        eexists. split; apply lookup_insert_eq.
      * intros [= -> ->]. by right.
Qed.

Definition known_apis : list string :=
  ["call_ModelAPIsByModelName"; "get_NodeInfo"; "pause_AtTime"; "resume";
   "get_Topologies"; "compute_FOVs"; "load_FOVs"; "run_OneStep"]%string.

Lemma unknown_api_has_no_handler ext (api : string) :
  ~ List.In api known_apis -> apiHandlerDictionary ext api = None.
Proof.
  intros H. unfold apiHandlerDictionary.
  repeat match goal with
         | |- context [String.eqb api ?s] =>
             destruct (String.eqb_spec api s) as [->|_];
             [exfalso; apply H; unfold known_apis; simpl; tauto|]
         end.
  reflexivity.
Qed.

(** C10, as the code has it.  For a request that names an existing node:
    - "time" returns a Time object that did not exist before the call and
      carries the node's current instant; the rest of the store is as it was
      and, once every node clock is an object of the store, no later step
      changes the returned object;
    - "position" returns, when the node has a position for its current
      instant, the very Location object that the node or its orbital model
      keeps (no copy), and [None] with a printed warning otherwise;
    - an information type other than these two gives [None] with a printed
      warning, and so does an API name outside the handler table. *)
Theorem get_NodeInfo_contract
    (ext : string -> Manager -> gmap string PyVal -> Outcome)
    (m : Manager) (kw : gmap string PyVal) (i k : Z) (t : Topology) (n : Node) :
  kw !! "_topologyID" = Some (PInt i) ->
  kw !! "_nodeID" = Some (PInt k) ->
  py_index (topologies m) i = Some t ->
  get_Node t k = Some n ->
  let now := time_of (store (world m)) (timestamp n) in
  (kw !! "_infoType" = Some (PStr "time") ->
     exists (r : positive) (m' : Manager),
       call_APIs ext m "get_NodeInfo" kw = (m', RObject r)
       /\ store (world m) !! r = None
       /\ store (world m') !! r = Some (OTime now)
       /\ (forall r0, r0 <> r -> store (world m') !! r0 = store (world m) !! r0)
       /\ stdout m' = stdout m
       /\ ((forall n', List.In n' (all_nodes (topologies m)) ->
                      is_Some (store (world m) !! timestamp n')) ->
           forall j : nat,
             store (steps j (topologies m') (world m')) !! r = Some (OTime now)))
  /\ (kw !! "_infoType" = Some (PStr "position") ->
      match get_Position (store (world m)) n with
      | Some (r, h) =>
          call_APIs ext m "get_NodeInfo" kw
          = (set_world m (mkWorld h (ran (world m))), RObject r)
          /\ keeps_position now h n r
      | None =>
          call_APIs ext m "get_NodeInfo" kw
          = (print m (ApiWarning exn_position), RNone)
      end)
  /\ (forall other : string,
        kw !! "_infoType" = Some (PStr other) ->
        other <> "time"%string -> other <> "position"%string ->
        call_APIs ext m "get_NodeInfo" kw
        = (print m (ApiWarning (exn_info_type other)), RNone))
  /\ (forall api : string,
        ~ List.In api known_apis ->
        call_APIs ext m api kw = (print m (ApiWarning ("'" ++ api ++ "'")), RNone)).
Proof.
  intros Ht Hn Hidx Hnode now.
  assert (Hdisp : forall v, kw !! "_infoType" = Some v ->
            call_APIs ext m "get_NodeInfo" kw
            = match
                match v with
                | PStr ty =>
                    if String.eqb ty "time" then
                      let (r, h) := Time_copy (store (world m)) (timestamp n) in
                      Returns (set_world m (mkWorld h (ran (world m)))) (RObject r)
                    else if String.eqb ty "position" then
                      match get_Position (store (world m)) n with
                      | Some (r, h) =>
                          Returns (set_world m (mkWorld h (ran (world m)))) (RObject r)
                      | None => Raises m exn_position
                      end
                    else Raises m (exn_info_type ty)
                | PInt _ => Raises m (exn_info_type "<int>")
                end
              with
              | Returns m' v' => (m', v')
              | Raises m' exn => (print m' (ApiWarning exn), RNone)
              end).
  { intros v Hv. unfold call_APIs. simpl. unfold get_NodeInfo.
    rewrite Ht, Hn, Hv, Hidx, Hnode. destruct v; reflexivity. }
  split_and!.
  - intros Hty. rewrite (Hdisp _ Hty). simpl.
    exists (fresh (dom (store (world m)))). eexists. split; [reflexivity|].
    simpl. split_and!.
    + apply not_elem_of_dom, is_fresh.
    + apply lookup_insert_eq.
    + intros r0 Hr0. by apply lookup_insert_ne.
    + reflexivity.
    + intros Halloc j. rewrite steps_other; simpl.
      * apply lookup_insert_eq.
      * intros Hin. apply List.in_map_iff in Hin as (n' & E & Hin').
        destruct (Halloc n' Hin') as [o Ho].
        assert (F : store (world m) !! fresh (dom (store (world m))) = None)
          by (apply not_elem_of_dom, is_fresh).
        rewrite <- E in F. congruence.
  - intros Hty. rewrite (Hdisp _ Hty). simpl.
    destruct (get_Position (store (world m)) n) as [[r h]|] eqn:G; [|done].
    split; [done|]. by apply get_Position_aliases.
  - intros other Hty H1 H2. rewrite (Hdisp _ Hty).
    destruct (String.eqb_spec other "time"); [done|].
    destruct (String.eqb_spec other "position"); [done|]. reflexivity.
  - intros api Hapi. unfold call_APIs.
    by rewrite (unknown_api_has_no_handler ext api Hapi).
Qed.

(** The abstract handlers of the closed examples return an opaque value. *)
Definition no_external (api : string) (m : Manager) (kw : gmap string PyVal)
  : Outcome := Returns m (ROpaque 0).

Definition node_request (k : Z) (ty : string) : gmap string PyVal :=
  <["_topologyID" := PInt 0]>
    (<["_nodeID" := PInt k]> (<["_infoType" := PStr ty]> ∅)).

Lemma get_NodeInfo_contract_witness :
  exists (r : positive) (m' : Manager),
    call_APIs no_external manager0 "get_NodeInfo" (node_request 1 "time")
    = (m', RObject r)
    /\ store (world manager0) !! r = None
    /\ store (world m') !! r = Some (OTime 0).
Proof.
  destruct (get_NodeInfo_contract no_external manager0 (node_request 1 "time")
              0 1 topo0 sat1) as [T _]; try reflexivity.
  destruct (T eq_refl) as (r & m' & H1 & H2 & H3 & _).
  exists r, m'. split_and!; [exact H1 | exact H2 | exact H3].
Defined.

(** The claim has "position" return a copy, an object distinct from the
    node's internal state.  For the ground station of [manager0] the call
    returns the object [4], which is the node's own [__position]. *)
Lemma get_NodeInfo_position_alias_cex :
  snd (call_APIs no_external manager0 "get_NodeInfo" (node_request 2 "position"))
  = RObject 4%positive
  /\ positions gs2 = FixedPosition 4%positive
  /\ ~ (forall r, snd (call_APIs no_external manager0 "get_NodeInfo"
                         (node_request 2 "position")) = RObject r ->
                  positions gs2 <> FixedPosition r).
Proof.
  split_and!; [reflexivity | reflexivity |].
  intros H. apply (H 4%positive); reflexivity.
Qed.

End RuntimeFacts.

(* ===================================================================== *)
(** * Properties of the power model *)
(* ===================================================================== *)

Module PowerFacts.
Import Power.
Local Open Scope Q_scope.

(** The statistics dictionaries cover the logging tags, and the logging tags
    cover "Other" and every tag with a consumption figure. *)
Definition tracked (m : ModelPower) : Prop :=
  "Other"%string ∈ loggingTags m
  /\ (forall t, is_Some (powerConsumptionDict m !! t) -> t ∈ loggingTags m)
  /\ (forall t, t ∈ loggingTags m ->
        is_Some (tagsRequestedLoggerDict m !! t)
        /\ is_Some (tagsGrantedLoggerDict m !! t)
        /\ is_Some (tagsConsumedLoggerDict m !! t)).

Lemma add_KeyToLogs_tracked m key :
  tracked m ->
  tracked (add_KeyToLogs m key)
  /\ key ∈ loggingTags (add_KeyToLogs m key)
  /\ powerConsumptionDict (add_KeyToLogs m key) = powerConsumptionDict m.
Proof.
  intros (H1 & H2 & H3). unfold add_KeyToLogs.
  destruct (bool_decide_reflect (key ∈ loggingTags m)) as [Hin|Hin].
  - split_and!; try done.
  - simpl. split_and!; try done; unfold tracked; simpl.
    + split_and!.
      * apply elem_of_app. by left.
      * intros t Ht. apply elem_of_app. left. by apply H2.
      * intros t Ht. apply elem_of_app in Ht as [Ht|Ht].
        -- destruct (H3 t Ht) as (A & B & C).
           destruct (decide (key = t)) as [->|Hne].
           ++ rewrite !lookup_insert_eq. by split_and!.
           ++ rewrite !lookup_insert_ne by done. by split_and!.
        -- apply list_elem_of_singleton in Ht as ->.
           rewrite !lookup_insert_eq. by split_and!.
    + apply elem_of_app. right. by apply list_elem_of_singleton.
Qed.

Lemma resolve_request_tracked m kw m1 tag E :
  tracked m ->
  resolve_request m kw = Returns m1 (tag, E) ->
  tracked m1
  /\ is_Some (tagsConsumedLoggerDict m1 !! tag)
  /\ currentCharge m1 = currentCharge m
  /\ minCharge m1 = minCharge m
  /\ outOfPowerLogger m1 = outOfPowerLogger m.
Proof.
  intros T. assert (T' := T). destruct T' as (H1 & H2 & H3).
  assert (Zero : forall t, assume_zero m t = Returns m1 (tag, E) ->
            tracked m1 /\ is_Some (tagsConsumedLoggerDict m1 !! tag)
            /\ currentCharge m1 = currentCharge m /\ minCharge m1 = minCharge m
            /\ outOfPowerLogger m1 = outOfPowerLogger m).
  { intros t. unfold assume_zero. intros [= <- <- <-].
    assert (Tw : tracked (write_Log m (LogUnknownTag t))) by done.
    destruct (add_KeyToLogs_tracked _ t Tw) as ((A1 & A2 & A3) & B & C).
    split_and!.
    - unfold tracked. simpl. split_and!; try done.
      intros t' Ht'. destruct (decide (t = t')) as [<-|Hne]; [done|].
      rewrite lookup_insert_ne in Ht' by done. by apply A2.
    - simpl. by apply A3.
    - simpl. unfold add_KeyToLogs. by destruct (bool_decide _).
    - simpl. unfold add_KeyToLogs. by destruct (bool_decide _).
    - simpl. unfold add_KeyToLogs. by destruct (bool_decide _). }
  unfold resolve_request.
  destruct (_energy kw) as [e|].
  { intros [= <- <- <-]. split_and!; try done. by apply H3. }
  destruct (_power kw) as [p|], (_duration kw) as [d|], (_tag kw) as [t|];
    try discriminate;
    try (intros [= <- <- <-]; split_and!; try done; by apply H3);
    try (destruct (powerConsumptionDict m !! t) as [rate|] eqn:R);
    try (by apply Zero).
  all: intros [= <- <- <-]; split_and!; try done; apply H3, H2; by rewrite R.
Qed.

Lemma resolve_tag_returns m tag d :
  exists m1 t E,
    resolve_request m (mkRequest None None (Some d) (Some tag)) = Returns m1 (t, E).
Proof.
  unfold resolve_request; simpl.
  destruct (powerConsumptionDict m !! tag); unfold assume_zero; eauto.
Qed.

(** The second half of [consume_Energy], once the request is resolved. *)
Lemma consume_Energy_resolved m kw m1 tag E :
  tracked m ->
  resolve_request m kw = Returns m1 (tag, E) ->
  exists (m' : ModelPower) (c : Q),
    tagsConsumedLoggerDict m1 !! tag = Some c
    /\ consume_Energy m kw
       = Returns m' (Qle_bool (E + minCharge m) (currentCharge m))
    /\ tracked m'
    /\ minCharge m' = minCharge m
    /\ outOfPowerLogger m' = outOfPowerLogger m
    /\ tagsRequestedLoggerDict m' = tagsRequestedLoggerDict m1
    /\ tagsGrantedLoggerDict m' = tagsGrantedLoggerDict m1
    /\ loggingTags m' = loggingTags m1
    /\ (if Qle_bool (E + minCharge m) (currentCharge m)
        then currentCharge m' = currentCharge m - E
             /\ log m' = log m1
             /\ tagsConsumedLoggerDict m'
                = <[tag := c + E]> (tagsConsumedLoggerDict m1)
        else currentCharge m' = currentCharge m
             /\ log m' = (log m1 ++ [LogNotEnough (currentCharge m) 0])%list
             /\ tagsConsumedLoggerDict m'
                = <[tag := c + 0]> (tagsConsumedLoggerDict m1)).
Proof.
  intros T R.
  destruct (resolve_request_tracked m kw m1 tag E T R)
    as ((T1 & T2 & T3) & [c Hc] & Hch & Hmin & Hout).
  exists (if Qle_bool (E + minCharge m) (currentCharge m)
          then set_stats (set_charge m1 (currentCharge m1 - E)) (loggingTags m1)
                 (tagsRequestedLoggerDict m1) (tagsGrantedLoggerDict m1)
                 (<[tag := c + E]> (tagsConsumedLoggerDict m1))
          else set_stats (write_Log m1 (LogNotEnough (currentCharge m1) 0))
                 (loggingTags m1)
                 (tagsRequestedLoggerDict m1) (tagsGrantedLoggerDict m1)
                 (<[tag := c + 0]> (tagsConsumedLoggerDict m1))), c.
  split; [done|].
  unfold consume_Energy. rewrite R, Hmin, Hch.
  assert (Tr : forall (x : Q) (base : ModelPower),
            loggingTags base = loggingTags m1 ->
            powerConsumptionDict base = powerConsumptionDict m1 ->
            tracked (set_stats base (loggingTags m1)
                       (tagsRequestedLoggerDict m1) (tagsGrantedLoggerDict m1)
                       (<[tag := x]> (tagsConsumedLoggerDict m1)))).
  { intros x base E1 E2. unfold tracked; simpl. rewrite E2. split_and!; try done.
    intros t Ht. destruct (T3 t Ht) as (A & B & C). split_and!; try done.
    destruct (decide (tag = t)) as [->|Hne].
    - by rewrite lookup_insert_eq.
    - by rewrite lookup_insert_ne. }
  destruct (Qle_bool (E + minCharge m) (currentCharge m)); simpl; rewrite Hc;
    (split; [reflexivity|]); split_and!; try done; try (by apply Tr);
    by rewrite ?Hch.
Qed.

Lemma always_on_loop_spec (tags : list string) (m : ModelPower) :
  tracked m ->
  tracked (fst (always_on_loop m tags))
  /\ (outOfPowerLogger m = true ->
      outOfPowerLogger (fst (always_on_loop m tags)) = true)
  /\ ((exists r, List.In r (snd (always_on_loop m tags)) /\ r <> Some true) ->
      outOfPowerLogger (fst (always_on_loop m tags)) = true).
Proof.
  revert m. induction tags as [|tag rest IH]; intros m T.
  - simpl. split_and!; try done. intros (r & [] & _).
  - cbn [always_on_loop].
    destruct (resolve_tag_returns m tag (timestep m)) as (m1 & t & E & R).
    destruct (consume_Energy_resolved _ _ _ _ _ T R)
      as (m' & c & _ & Hc & T' & _ & Hout & _).
    unfold call_consume_Energy. rewrite Hc.
    set (b := Qle_bool (E + minCharge m) (currentCharge m)).
    set (m2 := match Some b with
               | Some true => m'
               | _ => set_counters (write_Log m' (LogAlwaysOnDenied tag))
                        (chargeGeneratedLogger m') (previousChargeLogger m') true
               end).
    assert (T2 : tracked m2) by (subst m2; destruct b; done).
    destruct (IH m2 T2) as (I1 & I2 & I3).
    destruct (always_on_loop m2 rest) as [m3 rets] eqn:L. simpl in *.
    split_and!; try done.
    + intros Ho. apply I2. subst m2. destruct b; simpl; [congruence|done].
    + intros (r & [<-|Hr] & Hne).
      * apply I2. subst m2. destruct b; [done|reflexivity].
      * apply I3. eauto.
Qed.

Lemma harvest_tracked m sun : tracked m -> tracked (harvest m sun).
Proof. unfold tracked, harvest. destruct sun; simpl; done. Qed.

Lemma stats_rows_tracked m : tracked m -> is_Some (stats_rows m).
Proof.
  intros (_ & _ & H). unfold stats_rows. apply mapM_is_Some.
  apply Forall_forall. intros t Ht. simpl.
  destruct (H t Ht) as ([a ->] & [b ->] & [c ->]). done.
Qed.


Lemma const_map_covers {V} (v : V) (tags : list string) (t : string) :
  t ∈ tags ->
  is_Some ((list_to_map (List.map (fun t => (t, v)) tags) : gmap string V) !! t).
Proof.
  induction tags as [|a tags IH]; intros H.
  - by apply not_elem_of_nil in H.
  - simpl. destruct (decide (a = t)) as [->|Hne].
    + rewrite lookup_insert_eq. done.
    + rewrite lookup_insert_ne by done. apply IH.
      apply elem_of_cons in H as [->|H]; done.
Qed.

(** The constructor establishes the tracking invariant. *)
Lemma new_ModelPower_tracked consumption initial maxC minC solar eff always
    required delta :
  tracked (new_ModelPower consumption initial maxC minC solar eff always
                          required delta).
Proof.
  unfold tracked, new_ModelPower; simpl. split_and!.
  - rewrite !elem_of_app. right. right. by apply list_elem_of_singleton.
  - intros t [q Hq]. apply elem_of_list_to_map_2 in Hq.
    rewrite elem_of_app. left. apply list_elem_of_In.
    apply list_elem_of_In in Hq. by apply (List.in_map fst) in Hq.
  - intros t Ht. split_and!; by apply const_map_covers.
Qed.





End PowerFacts.

(* ===================================================================== *)
(** * Properties of the model-composition engine *)
(* ===================================================================== *)

Module OrchestrationFacts.
Import Orchestration.


(** A dependency slot is resolved when one of its entries is the name of a
    model of the list; the model that owns the slot is not excluded. *)
Lemma isThisDependencyResolved_iff (temp : list Model) (slot : list string) :
  isThisDependencyResolved temp slot = true
  <-> exists name m', name ∈ slot /\ m' ∈ temp /\ iName m' = name.
Proof.
  unfold isThisDependencyResolved. rewrite existsb_exists. split.
  - intros (name & Hn & Hex). apply existsb_exists in Hex as (m' & Hm & Heq).
    apply String.eqb_eq in Heq. exists name, m'.
    split_and!; try done; by apply list_elem_of_In.
  - intros (name & m' & Hn & Hm & Heq). exists name. split.
    + by apply list_elem_of_In.
    + apply existsb_exists. exists m'. split.
      * by apply list_elem_of_In.
      * by apply String.eqb_eq.
Qed.

Lemma model_resolved_iff (temp : list Model) (m : Model) :
  model_resolved temp m = true
  <-> forall slot, slot ∈ dependencyModelClasses m ->
        exists name m', name ∈ slot /\ m' ∈ temp /\ iName m' = name.
Proof.
  unfold model_resolved. rewrite forallb_forall. split.
  - intros H slot Hs. apply isThisDependencyResolved_iff, H.
    by apply list_elem_of_In.
  - intros H slot Hs. apply isThisDependencyResolved_iff, H.
    by apply list_elem_of_In.
Qed.

Section Collect.

Variable reg : gmap string (ModelDetails -> option Model).

Lemma collect_spec (n : NodeInstance) (ds : list ModelDetails) :
  forall names temp warn names' temp' warn',
    collect reg n ds names temp warn = inr (names', temp', warn') ->
    (forall x, x ∈ names <-> x ∈ iName <$> temp) ->
    NoDup (iName <$> temp) ->
    (forall x, x ∈ names' <-> x ∈ iName <$> temp')
    /\ NoDup (iName <$> temp')
    /\ (exists new, temp' = temp ++ new
          /\ forall m, m ∈ new ->
               isThisNodeSupported n m = true
               /\ exists d, d ∈ ds /\ build reg d = Some m)
    /\ (forall d, d ∈ ds ->
          exists m, build reg d = Some m
                    /\ isThisNodeSupported n m = true
                    /\ iName m ∈ names')
    /\ (forall x, x ∈ names -> x ∈ names').
Proof.
  induction ds as [|d ds IH]; intros names temp warn names' temp' warn' H Hn Hd.
  - simpl in H. injection H as <- <- <-. split_and!; try done.
    + exists []. split; [by rewrite app_nil_r|]. intros m Hm.
      by apply not_elem_of_nil in Hm.
    + intros d Hd'. by apply not_elem_of_nil in Hd'.
  - simpl in H. destruct (build reg d) as [m|] eqn:B; [|done].
    destruct (isThisNodeSupported n m) eqn:S; [|done].
    destruct (bool_decide_reflect (iName m ∈ names)) as [Hin|Hin].
    + destruct (IH _ _ _ _ _ _ H Hn Hd) as (I1 & I2 & (new & I3 & I4) & I5 & I6).
      split_and!; try done.
      * exists new. split; [done|]. intros m' Hm'.
        destruct (I4 m' Hm') as (A & d' & Hd' & Bd). split; [done|].
        exists d'. split; [by apply elem_of_cons; right | done].
      * intros d' Hd'. apply elem_of_cons in Hd' as [->|Hd'].
        -- exists m. split_and!; try done. by apply I6.
        -- by apply I5.
    + assert (Hn' : forall x, x ∈ {[iName m]} ∪ names <-> x ∈ iName <$> (temp ++ [m])).
      { intros x. rewrite fmap_app, elem_of_app, elem_of_union, elem_of_singleton.
        simpl. rewrite list_elem_of_singleton, Hn. tauto. }
      assert (Hd' : NoDup (iName <$> (temp ++ [m]))).
      { rewrite fmap_app. apply NoDup_app. split_and!; try done.
        - intros x Hx Hx'. simpl in Hx'. apply list_elem_of_singleton in Hx' as ->.
          apply Hin. by apply Hn.
        - simpl. apply NoDup_singleton. }
      destruct (IH _ _ _ _ _ _ H Hn' Hd') as (I1 & I2 & (new & I3 & I4) & I5 & I6).
      split_and!; try done.
      * exists (m :: new). split; [by rewrite I3, <- app_assoc|].
        intros m' Hm'. apply elem_of_cons in Hm' as [->|Hm'].
        -- split; [done|]. exists d. split; [by apply elem_of_cons; left | done].
        -- destruct (I4 m' Hm') as (A & d' & Hd'' & Bd). split; [done|].
           exists d'. split; [by apply elem_of_cons; right | done].
      * intros d' Hd''. apply elem_of_cons in Hd'' as [->|Hd''].
        -- exists m. split_and!; try done. apply I6.
           apply elem_of_union. left. by apply elem_of_singleton.
        -- by apply I5.
      * intros x Hx. apply I6. apply elem_of_union. by right.
Qed.


End Collect.

Definition slots_resolved (temp : list Model) : Prop :=
  forall m slot, m ∈ temp -> slot ∈ dependencyModelClasses m ->
    exists name m', name ∈ slot /\ m' ∈ temp /\ iName m' = name.

Lemma cache_hit_iff (names : gset string) (cache : list (gset string)) :
  existsb (fun resolved => bool_decide (names = resolved)) cache = true
  <-> names ∈ cache.
Proof.
  rewrite existsb_exists. split.
  - intros (s & Hs & E). apply bool_decide_eq_true in E as <-.
    by apply list_elem_of_In.
  - intros H. exists names. split; [by apply list_elem_of_In|].
    by apply bool_decide_eq_true.
Qed.


(** ** Closed examples: three model classes of the repository *)

Definition ModelPower : Model :=
  mkModel "ModelPower" []
          [["ModelFixedOrbit"; "ModelOrbit"; "ModelOrbitOneFullUpdate"]]%string.
Definition ModelOrbit : Model :=
  mkModel "ModelOrbit" ["SatelliteBasic"%string] [].
Definition ModelFovTimeBased : Model :=
  mkModel "ModelFovTimeBased" [] [].

Definition registry : gmap string (ModelDetails -> option Model) :=
  <["ModelPower"%string := fun _ => Some ModelPower]>
    (<["ModelOrbit"%string := fun _ => Some ModelOrbit]>
       (<["ModelFovTimeBased"%string := fun _ => Some ModelFovTimeBased]> ∅)).

Definition fresh_orchestrator : Orchestrator := mkOrchestrator [] [].
Definition satellite_node : NodeInstance := mkNodeInstance "SatelliteBasic" 1.
Definition ground_node : NodeInstance := mkNodeInstance "GSBasic" 2.



(** The dependency test ranges over the whole list: a model whose slot names
    its own class is accepted without any other model. *)
Lemma self_dependency_accepted :
  let selfish := mkModel "ModelSelf" [] [["ModelSelf"%string]] in
  exists o',
    _add_Models (<["ModelSelf"%string := fun _ => Some selfish]> ∅)
                fresh_orchestrator ground_node [mkDetails "ModelSelf" []]
    = Added [selfish] o'.
Proof. eexists. vm_compute. reflexivity. Qed.

End OrchestrationFacts.

(* ===================================================================== *)
(** * Properties of the LoRa link and radio device *)
(* ===================================================================== *)

Module LoraFacts.
Import Lora.
Local Open Scope Q_scope.

(** ** Packet error rate *)



(** [comb] is the binomial coefficient: [C(n,k) * k! * (n-k)! = n!]. *)
Lemma comb_above (n : nat) : forall k, (n < k)%nat -> comb n k = 0%nat.
Proof.
  induction n as [|n IH]; intros k H; destruct k as [|k]; try lia; [done|].
  simpl. rewrite !IH by lia. done.
Qed.

Lemma comb_factorial (n : nat) :
  forall k, (k <= n)%nat ->
    (comb n k * fact k * fact (n - k) = fact n)%nat.
Proof.
  induction n as [|n IH]; intros k H.
  - assert (k = 0%nat) as -> by lia. reflexivity.
  - destruct k as [|k].
    + simpl comb. rewrite Nat.sub_0_r. simpl fact at 1. lia.
    + simpl comb. destruct (decide (k = n)) as [->|Hne].
      * rewrite (comb_above n (S n)) by lia. rewrite Nat.sub_diag.
        pose proof (IH n (le_n n)) as E. rewrite Nat.sub_diag in E.
        simpl fact in *. nia.
      * pose proof (IH k ltac:(lia)) as E1.
        pose proof (IH (S k) ltac:(lia)) as E2.
        replace (S n - S k)%nat with (n - k)%nat by lia.
        replace (n - k)%nat with (S (n - S k)) in * by lia.
        change (fact (S n)) with (S n * fact n)%nat.
        change (fact (S k)) with (S k * fact k)%nat in *.
        change (fact (S (n - S k))) with (S (n - S k) * fact (n - S k))%nat in *.
        nia.
Qed.






Example PER_one_byte_one_bit :
  PERFromBER (1 # 10) 1 1 = inr (1 - per_term (1 # 10) 8 0 - per_term (1 # 10) 8 1)
  /\ 1 - per_term (1 # 10) 8 0 - per_term (1 # 10) 8 1 == 18689527 # 100000000.
Proof. split; [reflexivity | vm_compute; reflexivity]. Qed.

(** ** The capture rule *)

Lemma Qltb_lt (a b : Q) : Qltb a b = true <-> a < b.
Proof.
  unfold Qltb. rewrite negb_true_iff. split.
  - intros H. apply Qnot_le_lt. intros L. apply Qle_bool_iff in L. congruence.
  - intros H. destruct (Qle_bool b a) eqn:E; [|done].
    apply Qle_bool_iff in E. exfalso. by apply (Qlt_not_le a b).
Qed.

Lemma Qltb_ge (a b : Q) : Qltb a b = false <-> b <= a.
Proof.
  unfold Qltb. rewrite negb_false_iff. apply Qle_bool_iff.
Qed.

(** The two frames of a pair overlap in time. *)
Definition time_overlap (cur other : LoraFrame) : Prop :=
  ~ ((endReceptionTime other <= startReceptionTime cur)%Z
     \/ (endReceptionTime cur <= startReceptionTime other)%Z).

Lemma time_overlap_test (cur other : LoraFrame) :
  time_overlap cur other ->
  negb ((endReceptionTime other <=? startReceptionTime cur)%Z
        || (endReceptionTime cur <=? startReceptionTime other)%Z) = true.
Proof.
  unfold time_overlap. intros H. apply negb_true_iff, orb_false_iff.
  split; apply Z.leb_gt; lia.
Qed.

(** The lock-on test compares the four symbol times with the start of the
    weaker frame minus the start of the stronger one.  Where the test is
    made the weaker frame did not start after the stronger one, so that
    difference is never positive and the test never succeeds. *)
Lemma lock_on_test_never_succeeds (sf : Z) (bw : Q) (weakerStart strongerStart : Z) :
  0 < bw ->
  (weakerStart <= strongerStart)%Z ->
  Qltb (2 ^ sf / bw * 4) (difference_in_seconds weakerStart strongerStart) = false.
Proof.
  intros Hbw Hle. apply Qltb_ge.
  assert (L : 0 < 2 ^ sf / bw * 4).
  { apply Qmult_lt_0_compat; [|reflexivity].
    apply Qlt_shift_div_l; [done|]. rewrite Qmult_0_l.
    apply Qpower_0_lt. reflexivity. }
  assert (D : difference_in_seconds weakerStart strongerStart <= 0).
  { unfold difference_in_seconds. apply Qle_shift_div_r; [reflexivity|].
    rewrite Qmult_0_l. change 0 with (inject_Z 0). rewrite <- Zle_Qle. lia. }
  apply Qlt_le_weak. eapply Qle_lt_trans; eassumption.
Qed.

(** What the comparison of two overlapping frames does, as coded: within
    6 dB both frames are marked; from 6 dB on only the weaker frame is ever
    marked, whichever frame started first and whatever the gap between the
    two starts. *)
Lemma capture_rule_as_coded (cur other : LoraFrame) :
  time_overlap cur other ->
  (Qabs (RSSI cur - RSSI other) < 6 ->
     collide cur other
     = Some (add_collidedID cur (id other), add_collidedID other (id cur)))
  /\ (6 <= Qabs (RSSI cur - RSSI other) -> 0 < BW cur ->
      RSSI other < RSSI cur ->
      collide cur other = Some (cur, add_collidedID other (id cur)))
  /\ (6 <= Qabs (RSSI cur - RSSI other) -> 0 < BW cur ->
      RSSI cur < RSSI other ->
      collide cur other = Some (add_collidedID cur (id other), other)).
Proof.
  intros Hov. apply time_overlap_test in Hov.
  assert (Hbw : 0 < BW cur -> Qeq_bool (BW cur) 0 = false).
  { intros H. destruct (Qeq_bool (BW cur) 0) eqn:E; [|done].
    apply Qeq_bool_iff in E. rewrite E in H. by apply Qlt_irrefl in H. }
  split_and!.
  - intros H. unfold collide. rewrite Hov.
    by rewrite (proj2 (Qltb_lt _ _) H).
  - intros H Hpos Hs. unfold collide. rewrite Hov.
    rewrite (proj2 (Qltb_ge _ _) H).
    rewrite (proj2 (Qltb_lt _ _) Hs).
    rewrite (proj2 (Qltb_ge _ _) (Qlt_le_weak _ _ Hs)).
    destruct (startReceptionTime cur <? startReceptionTime other)%Z eqn:F; [done|].
    rewrite (Hbw Hpos). apply Z.ltb_ge in F.
    by rewrite lock_on_test_never_succeeds.
  - intros H Hpos Hs. unfold collide. rewrite Hov.
    rewrite (proj2 (Qltb_ge _ _) H).
    rewrite (proj2 (Qltb_lt _ _) Hs).
    rewrite (proj2 (Qltb_ge _ _) (Qlt_le_weak _ _ Hs)).
    destruct (startReceptionTime other <? startReceptionTime cur)%Z eqn:F; [done|].
    rewrite (Hbw Hpos). apply Z.ltb_ge in F.
    by rewrite lock_on_test_never_succeeds.
Qed.

(** A receiver at SF 7 and 125 kHz (four symbol times are 4.096 ms) with two
    pending frames.  The weaker frame (-120 dBW) is received from 0 s to 2 s,
    the stronger one (-100 dBW) from 1 s to 3 s: the weaker frame started
    first and the gap of one second exceeds the lock-on window. *)
Definition phy_sf7 : PhySetup := mkPhy 138000000 125000 7 5 8 0.
Definition weak_frame : LoraFrame :=
  mkFrame 1 10 20 "weak" 1 0 2000000 0 2000000 0 0 5 125000 7 (-(120)) [].
Definition strong_frame : LoraFrame :=
  mkFrame 2 11 20 "strong" 1 1000000 3000000 1000000 3000000 0 0 5 125000 7
          (-(100)) [].
Definition receiver0 : LoraRadioDevice :=
  mkDevice 99 true true [] [] [weak_frame; strong_frame] [] false [] phy_sf7 [].
Definition half : nat -> Q := fun _ => 1 # 2.

(** C4 at the failing input: the claim has both frames marked collided.  The
    update at 2 s marks the weaker frame only, and the update at 3 s delivers
    the stronger frame with an empty collided list. *)
Lemma lock_on_failing_input :
  let '(d1, n1, _) := update_Timestep half receiver0 2000000 0 in
  let '(d2, _, _) := update_Timestep half d1 3000000 n1 in
  collide weak_frame strong_frame
  = Some (add_collidedID weak_frame 2, strong_frame)
  /\ temporaryReceivedFrames d1 = [strong_frame]
  /\ logger d1 = [LogRx (mkRxLine (add_collidedID weak_frame 2) false [2%Z]
                                  false false false false)]
  /\ rxQueue d2 = ["strong"%string]
  /\ logger d2 = (logger d1 ++ [LogRx (mkRxLine strong_frame true []
                                                false false false false)])%list.
Proof. vm_compute. split_and!; reflexivity. Qed.

(** ** Delivery of received frames *)

(** What the dataclass equality compares. *)
Definition key (f : LoraFrame) : Z * Z * Z * string * Z :=
  (id f, source f, size f, payloadString f, instanceID f).

Lemma frame_eqb_key (a b : LoraFrame) :
  frame_eqb a b = true <-> key a = key b.
Proof.
  unfold frame_eqb, key. rewrite !andb_true_iff, !Z.eqb_eq, String.eqb_eq.
  split.
  - intros ((((-> & ->) & ->) & ->) & ->). reflexivity.
  - intros [= -> -> -> -> ->]. done.
Qed.

(** [f] is the frame [f0] after some more [add_collidedID]. *)
Definition evolves (f0 f : LoraFrame) : Prop :=
  exists extra,
    f = mkFrame (id f0) (source f0) (size f0) (payloadString f0) (instanceID f0)
                (startTransmissionTime f0) (endTransmissionTime f0)
                (startReceptionTime f0) (endReceptionTime f0)
                (PLR f0) (PER f0) (CR f0) (BW f0) (SF f0) (RSSI f0)
                (collidedIDs f0 ++ extra).

Lemma evolves_refl f : evolves f f.
Proof. exists []. destruct f; simpl. by rewrite app_nil_r. Qed.

Lemma evolves_add f0 f x : evolves f0 f -> evolves f0 (add_collidedID f x).
Proof.
  intros [extra ->]. exists (extra ++ [x])%list. unfold add_collidedID; simpl.
  by rewrite app_assoc.
Qed.

Lemma evolves_trans f0 f1 f2 : evolves f0 f1 -> evolves f1 f2 -> evolves f0 f2.
Proof.
  intros [e1 ->] [e2 ->]. exists (e1 ++ e2)%list. simpl. by rewrite app_assoc.
Qed.

Lemma evolves_key f0 f : evolves f0 f -> key f = key f0.
Proof. by intros [extra ->]. Qed.

Lemma evolves_end f0 f : evolves f0 f -> endReceptionTime f = endReceptionTime f0.
Proof. by intros [extra ->]. Qed.

(** A frame that still has no collided id is the frame it evolved from. *)
Lemma evolves_uncollided f0 f : evolves f0 f -> collidedIDs f = [] -> f = f0.
Proof.
  intros [extra ->]. simpl. intros H. apply app_eq_nil in H as [H1 ->].
  destruct f0; simpl in *. by rewrite app_nil_r.
Qed.

Lemma collide_evolves cur other cur' other' :
  collide cur other = Some (cur', other') ->
  evolves cur cur' /\ evolves other other'.
Proof.
  unfold collide.
  repeat match goal with
         | |- context [if ?b then _ else _] => destruct b
         end;
    intros [= <- <-]; simpl;
    split; repeat apply evolves_add; apply evolves_refl.
Qed.

Lemma collision_pass_evolves cur others :
  forall cur' others' ok,
    collision_pass cur others = (cur', others', ok) ->
    evolves cur cur' /\ Forall2 evolves others others'.
Proof.
  revert cur. induction others as [|o rest IH]; intros cur cur' others' ok H.
  - injection H as <- <- <-. split; [apply evolves_refl | constructor].
  - simpl in H. destruct (collide cur o) as [[c1 o1]|] eqn:C.
    + destruct (collision_pass c1 rest) as [[c2 rest'] ok'] eqn:P.
      injection H as <- <- <-.
      destruct (collide_evolves _ _ _ _ C) as [E1 E2].
      destruct (IH _ _ _ _ P) as [E3 E4].
      split; [by eapply evolves_trans | by constructor].
    + injection H as <- <- <-. split; [apply evolves_refl|].
      apply Forall2_same_length_lookup_2; [done|].
      intros i x y Hx Hy. rewrite Hx in Hy. injection Hy as <-. apply evolves_refl.
Qed.

Lemma Forall2_evolves_keys l l' :
  Forall2 evolves l l' -> List.map key l' = List.map key l.
Proof.
  induction 1 as [|x y l l' E F IH]; [done|].
  simpl. by rewrite IH, (evolves_key _ _ E).
Qed.

Lemma py_remove_incl x l f : List.In f (py_remove x l) -> List.In f l.
Proof.
  induction l as [|y rest IH]; [done|]. simpl.
  destruct (frame_eqb y x); [by right|].
  intros [->|H]; [by left | right; by apply IH].
Qed.

Lemma py_remove_keys_incl x l k :
  List.In k (List.map key (py_remove x l)) -> List.In k (List.map key l).
Proof.
  rewrite !List.in_map_iff. intros (f & E & H). exists f.
  split; [done | by apply (py_remove_incl x)].
Qed.

Lemma py_remove_NoDup x l :
  List.NoDup (List.map key l) -> List.NoDup (List.map key (py_remove x l)).
Proof.
  induction l as [|y rest IH]; [done|]. simpl. intros H.
  apply List.NoDup_cons_iff in H as [H1 H2].
  destruct (frame_eqb y x); [done|]. simpl.
  apply List.NoDup_cons; [|by apply IH].
  intros K. apply H1. by apply (py_remove_keys_incl x).
Qed.

Lemma py_remove_gone x l :
  List.NoDup (List.map key l) -> List.In x l ->
  ~ List.In (key x) (List.map key (py_remove x l)).
Proof.
  induction l as [|y rest IH]; [done|]. simpl. intros H Hin.
  apply List.NoDup_cons_iff in H as [H1 H2].
  destruct (frame_eqb y x) eqn:E.
  - apply frame_eqb_key in E. by rewrite <- E.
  - destruct Hin as [->|Hin].
    + assert (frame_eqb x x = true) by (by apply frame_eqb_key). congruence.
    + simpl. intros [K|K].
      * assert (frame_eqb y x = true) by (by apply frame_eqb_key). congruence.
      * by apply IH.
Qed.

Lemma py_remove_length x l :
  List.In x l -> S (length (py_remove x l)) = length l.
Proof.
  induction l as [|y rest IH]; [done|]. simpl. intros Hin.
  destruct (frame_eqb y x) eqn:E; [done|].
  destruct Hin as [->|Hin].
  - assert (frame_eqb x x = true) by (by apply frame_eqb_key). congruence.
  - simpl. by rewrite IH.
Qed.

(** The frames that a stretch of the log reports as received. *)
Fixpoint successes (log : list LogEntry) : list LoraFrame :=
  match log with
  | [] => []
  | LogRx l :: rest =>
      if rx_success l then rx_frame l :: successes rest else successes rest
  | _ :: rest => successes rest
  end.

Lemma successes_app l1 l2 :
  successes (l1 ++ l2) = (successes l1 ++ successes l2)%list.
Proof.
  induction l1 as [|[l|l|i] l1 IH]; simpl; try done.
  destruct (rx_success l); simpl; by rewrite IH.
Qed.

(** What reached the upper layer between the device states [d0] and [d],
    given the frames [got] reported as received in between: their payloads
    went to the callback when one is set and into the rx queue otherwise. *)
Definition handed_over (d0 d : LoraRadioDevice) (got : list LoraFrame) : Prop :=
  receiveCallBack d = receiveCallBack d0
  /\ rxQueue d
     = (rxQueue d0 ++ if receiveCallBack d0 then []
                      else List.map payloadString got)%list
  /\ callbackPackets d
     = (callbackPackets d0 ++ if receiveCallBack d0
                              then List.map payloadString got else [])%list.

Section Delivery.

Variable random : nat -> Q.

Lemma conclude_spec (d : LoraRadioDevice) (n : nat) (cur : LoraFrame) :
  forall d' n',
    conclude random d n cur = (d', n') ->
    temporaryReceivedFrames d' = temporaryReceivedFrames d
    /\ exists extra,
         logger d' = (logger d ++ extra)%list
         /\ handed_over d d' (successes extra)
         /\ (successes extra = [] \/
             (successes extra = [cur] /\ collidedIDs cur = [])).
Proof.
  intros d' n'. unfold conclude.
  destruct (collidedIDs cur) as [|c cs] eqn:C.
  - destruct (existsb _ _) eqn:Drop; simpl;
      destruct (Qeq_bool _ _) eqn:Cr; simpl.
    + intros [= <- <-]. split; [done|]. eexists [_]. simpl.
      split; [reflexivity|]. split; [|by left].
      unfold handed_over; simpl. destruct (receiveCallBack d);
        by rewrite !app_nil_r.
    + intros [= <- <-]. split; [done|]. eexists [_; _]. simpl.
      split; [by rewrite <- app_assoc|]. split; [|by left].
      unfold handed_over; simpl. destruct (receiveCallBack d);
        by rewrite !app_nil_r.
    + destruct (Qltb _ _) eqn:Per; simpl.
      * intros [= <- <-]. split; [done|]. eexists [_]. simpl.
        split; [reflexivity|]. split; [|by left].
        unfold handed_over; simpl. destruct (receiveCallBack d);
          by rewrite !app_nil_r.
      * intros [= <- <-]. unfold deliver, log_Rx, write_Log; simpl.
        destruct (receiveCallBack d) eqn:Cb; simpl.
        -- split; [done|]. eexists [_]. simpl. split; [reflexivity|].
           split; [|by right].
           unfold handed_over; simpl. rewrite Cb. by rewrite !app_nil_r.
        -- split; [done|]. eexists [_]. simpl. split; [reflexivity|].
           split; [|by right].
           unfold handed_over; simpl. rewrite Cb. by rewrite !app_nil_r.
    + intros [= <- <-]. split; [done|]. eexists [_]. simpl.
      split; [reflexivity|]. split; [|by left].
      unfold handed_over; simpl. destruct (receiveCallBack d);
        by rewrite !app_nil_r.
  - intros [= <- <-]. split; [done|]. eexists [_]. simpl.
    split; [reflexivity|]. split; [|by left].
    unfold handed_over; simpl. destruct (receiveCallBack d);
      by rewrite !app_nil_r.
Qed.

(** The invariant of the reception loop, relative to the device [d0] the
    call started from and the instant [now]. *)
Definition rx_inv (d0 : LoraRadioDevice) (now : Z) (d : LoraRadioDevice) : Prop :=
  (forall f, List.In f (temporaryReceivedFrames d) ->
     exists f0, List.In f0 (temporaryReceivedFrames d0) /\ evolves f0 f)
  /\ (List.NoDup (List.map key (temporaryReceivedFrames d0)) ->
      List.NoDup (List.map key (temporaryReceivedFrames d)))
  /\ exists new,
       logger d = (logger d0 ++ new)%list
       /\ handed_over d0 d (successes new)
       /\ (forall f, List.In f (successes new) ->
             (endReceptionTime f <= now)%Z
             /\ collidedIDs f = []
             /\ List.In f (temporaryReceivedFrames d0)
             /\ (List.NoDup (List.map key (temporaryReceivedFrames d0)) ->
                 ~ List.In (key f) (List.map key (temporaryReceivedFrames d))))
       /\ (List.NoDup (List.map key (temporaryReceivedFrames d0)) ->
           List.NoDup (List.map key (successes new))).

Lemma rx_inv_start d0 now : rx_inv d0 now d0.
Proof.
  split_and!.
  - intros f Hf. exists f. split; [done | apply evolves_refl].
  - done.
  - exists []. simpl. split_and!.
    + by rewrite app_nil_r.
    + unfold handed_over. destruct (receiveCallBack d0); by rewrite !app_nil_r.
    + done.
    + intros _. constructor.
Qed.

Lemma handed_over_trans d0 d1 d2 got1 got2 :
  handed_over d0 d1 got1 -> handed_over d1 d2 got2 ->
  handed_over d0 d2 (got1 ++ got2).
Proof.
  intros (A1 & A2 & A3) (B1 & B2 & B3). unfold handed_over.
  rewrite B1, A1, B2, B3, A2, A3, A1, List.map_app.
  destruct (receiveCallBack d0); rewrite ?app_nil_r, <- ?app_assoc; done.
Qed.

Lemma rx_turn_inv d0 now st :
  rx_inv d0 now (dev st) -> rx_inv d0 now (dev (rx_turn random now st)).
Proof.
  intros Inv. unfold rx_turn.
  destruct (nth_error _ _) as [cur|] eqn:N; [|done].
  destruct (endReceptionTime cur <=? now)%Z eqn:Done; [|done].
  apply Z.leb_le in Done.
  set (L := temporaryReceivedFrames (dev st)) in *.
  assert (HcurL : List.In cur L) by (by eapply List.nth_error_In).
  destruct (collision_pass cur (py_remove cur L)) as [[cur' others] ok] eqn:P.
  destruct (collision_pass_evolves _ _ _ _ _ P) as [Ecur Eoth].
  pose proof (Forall2_evolves_keys _ _ Eoth) as Koth.
  destruct Inv as (I1 & I2 & new & I3 & I4 & I5 & I6).
  (* the state once the frame is off the list and the others are marked *)
  assert (F1 : forall f, List.In f others ->
            exists f0, List.In f0 (temporaryReceivedFrames d0) /\ evolves f0 f).
  { intros f Hf. apply list_elem_of_In in Hf.
    destruct (proj1 (list_elem_of_lookup _ _) Hf) as [i Hi].
    destruct (Forall2_lookup_r _ _ _ _ _ Eoth Hi) as (g & Hg & Egf).
    assert (HgL : List.In g L).
    { apply (py_remove_incl cur). apply list_elem_of_In.
      by apply (list_elem_of_lookup_2 _ i). }
    destruct (I1 g HgL) as (f0 & Hf0 & E0).
    exists f0. split; [done | by eapply evolves_trans]. }
  assert (F2 : List.NoDup (List.map key (temporaryReceivedFrames d0)) ->
               List.NoDup (List.map key others)).
  { intros ND. rewrite Koth. by apply py_remove_NoDup, I2. }
  assert (F5 : forall f, List.In f (successes new) ->
            (endReceptionTime f <= now)%Z
            /\ collidedIDs f = []
            /\ List.In f (temporaryReceivedFrames d0)
            /\ (List.NoDup (List.map key (temporaryReceivedFrames d0)) ->
                ~ List.In (key f) (List.map key others))).
  { intros f Hf. destruct (I5 f Hf) as (A & B & C & D).
    split_and!; try done. intros ND K. apply (D ND).
    rewrite Koth in K. by apply (py_remove_keys_incl cur). }
  assert (Hgone : List.NoDup (List.map key (temporaryReceivedFrames d0)) ->
                  ~ List.In (key cur') (List.map key others)).
  { intros ND. rewrite Koth, (evolves_key _ _ Ecur).
    apply py_remove_gone; [by apply I2 | done]. }
  destruct ok.
  2:{ simpl. split_and!; try done. exists new. split_and!; done. }
  destruct (conclude random (set_frames (dev st) others) (draws st) cur')
    as [d2 n2] eqn:C.
  destruct (conclude_spec _ _ _ _ _ C) as (Hframes & extra & Hlog & Hhand & Hsucc).
  simpl in Hframes, Hlog. simpl.
  split_and!.
  - rewrite Hframes. exact F1.
  - rewrite Hframes. exact F2.
  - exists (new ++ extra)%list. rewrite successes_app. split_and!.
    + by rewrite Hlog, I3, app_assoc.
    + eapply handed_over_trans; [|exact Hhand]. exact I4.
    + intros f Hf. apply List.in_app_or in Hf as [Hf|Hf].
      * rewrite Hframes. by apply F5.
      * destruct Hsucc as [Hs|[Hs Hc]]; rewrite Hs in Hf; [done|].
        destruct Hf as [<-|[]].
        destruct (I1 cur HcurL) as (f0 & Hf0 & E0).
        assert (Ecur0 : evolves f0 cur') by (by eapply evolves_trans).
        pose proof (evolves_uncollided _ _ Ecur0 Hc) as ->.
        split_and!; try done.
        -- by rewrite (evolves_end _ _ Ecur), (evolves_end _ _ E0) in *.
        -- rewrite Hframes. exact Hgone.
    + intros ND. destruct Hsucc as [Hs|[Hs Hc]]; rewrite Hs.
      * rewrite app_nil_r. by apply I6.
      * rewrite List.map_app. simpl.
        apply NoDup_ListNoDup, NoDup_app. split_and!.
        -- apply NoDup_ListNoDup. by apply I6.
        -- intros k Hk Hk'. apply list_elem_of_singleton in Hk' as ->.
           apply list_elem_of_In, List.in_map_iff in Hk as (f & Ef & Hf).
           destruct (I5 f Hf) as (_ & _ & _ & D). apply (D ND).
           rewrite Ef, (evolves_key _ _ Ecur).
           by apply List.in_map.
        -- apply NoDup_singleton.
Qed.

Lemma rx_loop_inv d0 now fuel : forall st,
  rx_inv d0 now (dev st) -> rx_inv d0 now (dev (rx_loop random fuel now st)).
Proof.
  induction fuel as [|fuel IH]; intros st Inv; [done|].
  simpl. destruct (raised st); [done|].
  destruct (_ <? _)%nat; [|done].
  apply IH. by apply rx_turn_inv.
Qed.

(** *** The loop runs to its end *)

Lemma rx_loop_raised fuel now st :
  raised st = true -> rx_loop random fuel now st = st.
Proof. intros H. destruct fuel; simpl; [done | by rewrite H]. Qed.

Lemma py_remove_nth (l : list LoraFrame) :
  forall i x,
    List.NoDup (List.map key l) ->
    nth_error l i = Some x ->
    py_remove x l = (take i l ++ drop (S i) l)%list.
Proof.
  induction l as [|y rest IH]; intros i x ND Hi; [by destruct i|].
  simpl in ND. apply List.NoDup_cons_iff in ND as [Hy ND].
  destruct i as [|i]; simpl in Hi.
  - injection Hi as ->. simpl.
    by rewrite (proj2 (frame_eqb_key x x) eq_refl).
  - simpl. destruct (frame_eqb y x) eqn:E.
    + apply frame_eqb_key in E. exfalso. apply Hy. rewrite E.
      apply List.in_map. by eapply List.nth_error_In.
    + by rewrite (IH i x ND Hi).
Qed.

Lemma lookup_nth_error {A} (l : list A) (i : nat) : l !! i = nth_error l i.
Proof. revert i. induction l as [|a l IH]; intros [|i]; simpl; try done. Qed.

(** The frames the index has passed are still being received. *)
Definition passed_pending (now : Z) (st : RxState) : Prop :=
  forall j f, (j < framesIndex st)%nat ->
    temporaryReceivedFrames (dev st) !! j = Some f ->
    (now < endReceptionTime f)%Z.

(** Every turn of the loop brings the index one closer to the length of
    the list. *)
Lemma rx_turn_measure now st :
  (framesIndex st < length (temporaryReceivedFrames (dev st)))%nat ->
  raised (rx_turn random now st) = true
  \/ S (length (temporaryReceivedFrames (dev (rx_turn random now st)))
        - framesIndex (rx_turn random now st))
     = (length (temporaryReceivedFrames (dev st)) - framesIndex st)%nat.
Proof.
  intros Hlt. unfold rx_turn.
  destruct (nth_error _ _) as [cur|] eqn:N.
  2:{ apply List.nth_error_None in N. lia. }
  destruct (endReceptionTime cur <=? now)%Z eqn:Done; [|right; simpl; lia].
  set (L := temporaryReceivedFrames (dev st)) in *.
  assert (HcurL : List.In cur L) by (by eapply List.nth_error_In).
  destruct (collision_pass cur (py_remove cur L)) as [[cur' others] ok] eqn:P.
  destruct (collision_pass_evolves _ _ _ _ _ P) as [Ecur Eoth].
  pose proof (Forall2_length _ _ _ Eoth) as Hlen.
  pose proof (py_remove_length cur L HcurL) as Hrem.
  destruct ok; [|by left].
  destruct (conclude random (set_frames (dev st) others) (draws st) cur')
    as [d2 n2] eqn:C.
  destruct (conclude_spec _ _ _ _ _ C) as (Hframes & _).
  simpl in Hframes. right. simpl. rewrite Hframes. lia.
Qed.

Lemma rx_turn_passed d0 now st :
  rx_inv d0 now (dev st) ->
  List.NoDup (List.map key (temporaryReceivedFrames d0)) ->
  passed_pending now st ->
  passed_pending now (rx_turn random now st).
Proof.
  intros Inv ND Hpass. unfold rx_turn.
  destruct (nth_error _ _) as [cur|] eqn:N; [|done].
  destruct (endReceptionTime cur <=? now)%Z eqn:Done.
  - set (L := temporaryReceivedFrames (dev st)) in *.
    destruct (collision_pass cur (py_remove cur L)) as [[cur' others] ok] eqn:P.
    destruct (collision_pass_evolves _ _ _ _ _ P) as [Ecur Eoth].
    destruct Inv as (_ & I2 & _).
    assert (Hidx : (framesIndex st < length L)%nat).
    { apply List.nth_error_Some. by rewrite N. }
    assert (Hpass' : forall j f, (j < framesIndex st)%nat ->
              others !! j = Some f -> (now < endReceptionTime f)%Z).
    { intros j f Hj Hf.
      destruct (Forall2_lookup_r _ _ _ _ _ Eoth Hf) as (g & Hg & Egf).
      rewrite (py_remove_nth L (framesIndex st) cur (I2 ND) N) in Hg.
      rewrite lookup_app_l in Hg by (rewrite length_take; lia).
      rewrite lookup_take_lt in Hg by lia.
      rewrite (evolves_end _ _ Egf). by apply (Hpass j). }
    destruct ok; [|exact Hpass'].
    destruct (conclude random (set_frames (dev st) others) (draws st) cur')
      as [d2 n2] eqn:C.
    destruct (conclude_spec _ _ _ _ _ C) as (Hframes & _).
    simpl in Hframes. unfold passed_pending. simpl. rewrite Hframes. exact Hpass'.
  - unfold passed_pending. simpl. intros j f Hj Hf.
    destruct (decide (j = framesIndex st)) as [->|Hne].
    + rewrite lookup_nth_error, N in Hf. injection Hf as <-.
      by apply Z.leb_gt.
    + apply (Hpass j); [lia | done].
Qed.

(** With as much fuel as there are pending frames, the loop ends because
    its condition fails or because the comparison raised. *)
Lemma rx_loop_exits now fuel : forall st,
  (length (temporaryReceivedFrames (dev st)) - framesIndex st <= fuel)%nat ->
  raised (rx_loop random fuel now st) = true
  \/ (length (temporaryReceivedFrames (dev (rx_loop random fuel now st)))
      <= framesIndex (rx_loop random fuel now st))%nat.
Proof.
  induction fuel as [|fuel IH]; intros st Hm.
  - simpl. right. lia.
  - simpl. destruct (raised st) eqn:R; [by left|].
    destruct (_ <? _)%nat eqn:Lt.
    + apply Nat.ltb_lt in Lt.
      destruct (rx_turn_measure now st Lt) as [Hr|Hs].
      * rewrite rx_loop_raised by done. by left.
      * apply IH. lia.
    + right. by apply Nat.ltb_ge.
Qed.

Lemma rx_loop_passed d0 now fuel : forall st,
  rx_inv d0 now (dev st) ->
  List.NoDup (List.map key (temporaryReceivedFrames d0)) ->
  passed_pending now st ->
  passed_pending now (rx_loop random fuel now st).
Proof.
  induction fuel as [|fuel IH]; intros st Inv ND Hp; [done|].
  simpl. destruct (raised st); [done|].
  destruct (_ <? _)%nat; [|done].
  apply IH; [by apply rx_turn_inv | done | by eapply rx_turn_passed].
Qed.

(** One call of [update_Timestep] at the instant [now]: the frames reported
    as received in the stretch of the log the call writes are exactly the
    ones whose payloads reach the callback (or the rx queue); each of them
    was pending when the call started, its reception had ended by [now] and
    its collided list is empty.  The frames still pending are frames that
    were pending, with more collided ids at most.  When the pending frames
    are pairwise distinct under the frame equality, no frame is handed over
    twice, a frame that was handed over is no longer pending, and when the
    call returns normally every frame still pending is one whose reception
    has not ended. *)
Lemma update_Timestep_delivers (d : LoraRadioDevice) (now : Z) (n : nat) :
  forall d' n' r,
    update_Timestep random d now n = (d', n', r) ->
    exists new,
      logger d' = (logger d ++ new)%list
      /\ handed_over d d' (successes new)
      /\ (forall f, List.In f (successes new) ->
            List.In f (temporaryReceivedFrames d)
            /\ (endReceptionTime f <= now)%Z
            /\ collidedIDs f = [])
      /\ (forall f, List.In f (temporaryReceivedFrames d') ->
            exists f0, List.In f0 (temporaryReceivedFrames d) /\ evolves f0 f)
      /\ (List.NoDup (List.map key (temporaryReceivedFrames d)) ->
          List.NoDup (List.map key (successes new))
          /\ List.NoDup (List.map key (temporaryReceivedFrames d'))
          /\ (forall f, List.In f (successes new) ->
                ~ List.In (key f) (List.map key (temporaryReceivedFrames d')))
          /\ (r = false ->
              forall f, List.In f (temporaryReceivedFrames d') ->
                        (now < endReceptionTime f)%Z)).
Proof.
  intros d' n' r H. unfold update_Timestep in H.
  set (st0 := mkRxState d 0 n false) in *.
  set (st := rx_loop random (length (temporaryReceivedFrames d)) now st0) in *.
  pose proof (rx_loop_inv d now (length (temporaryReceivedFrames d)) st0
                (rx_inv_start d now)) as Inv.
  fold st in Inv. destruct Inv as (I1 & I2 & new & I3 & I4 & I5 & I6).
  assert (Hd' : logger d' = logger (dev st)
                /\ temporaryReceivedFrames d' = temporaryReceivedFrames (dev st)
                /\ rxQueue d' = rxQueue (dev st)
                /\ callbackPackets d' = callbackPackets (dev st)
                /\ receiveCallBack d' = receiveCallBack (dev st)
                /\ r = raised st).
  { destruct (raised st); injection H as <- <- <-; done. }
  destruct Hd' as (E1 & E2 & E3 & E4 & E5 & E6).
  exists new. split_and!.
  - by rewrite E1.
  - destruct I4 as (A1 & A2 & A3). unfold handed_over.
    by rewrite E3, E4, E5.
  - intros f Hf. destruct (I5 f Hf) as (A & B & C & _). done.
  - intros f Hf. rewrite E2 in Hf. by apply I1.
  - intros ND. split_and!.
    + by apply I6.
    + rewrite E2. by apply I2.
    + intros f Hf. rewrite E2. destruct (I5 f Hf) as (_ & _ & _ & D). by apply D.
    + intros Hr f Hf. rewrite E2 in Hf.
      assert (Hp : passed_pending now st).
      { apply (rx_loop_passed d); [apply rx_inv_start | done |].
        intros j g Hj. simpl in Hj. lia. }
      destruct (rx_loop_exits now (length (temporaryReceivedFrames d)) st0)
        as [Hx|Hx]; [simpl; lia | fold st in Hx; congruence |].
      fold st in Hx. apply list_elem_of_In in Hf.
      destruct (proj1 (list_elem_of_lookup _ _) Hf) as [j Hj].
      apply (Hp j f); [|done].
      apply lookup_lt_Some in Hj. lia.
Qed.

End Delivery.

(** ** Sending *)

(** What a device has been handed so far: every call of [receive] either
    writes one line or keeps the frame. *)
Definition heard (d : LoraRadioDevice) : nat :=
  (length (logger d) + length (temporaryReceivedFrames d))%nat.

Lemma set_transmittingTimes_id (d : LoraRadioDevice) :
  set_transmittingTimes d (transmittingTimes d ++ []) = d.
Proof. destruct d. unfold set_transmittingTimes. simpl. by rewrite app_nil_r. Qed.

Lemma py_max_repeat (x : Q) (k : nat) : py_max (repeat x (S k)) = Some x.
Proof.
  assert (E : Qltb x x = false).
  { unfold Qltb. apply negb_false_iff, Qle_bool_iff, Qle_refl. }
  simpl. f_equal. induction k as [|k IH]; [done|].
  simpl. by rewrite E.
Qed.

Section Sending.
Variable random : nat -> Q.
Variable link : positive -> positive -> Z -> option LinkBudget.
Variable has_PowerModel : positive -> bool.

Lemma receive_heard d n f d' n' b :
  receive random d n f = (d', n', b) ->
  address d' = address d /\ heard d' = S (heard d).
Proof.
  unfold receive, heard. intros H.
  repeat match type of H with
         | (if ?c then _ else _) = _ => destruct c
         end; injection H as <- <- <-; simpl;
    rewrite ?length_app; simpl; split; try done; lia.
Qed.

(** The sender's view of the devices of a channel: the ones with another
    address. *)
Definition is_peer (w : Network) (me : LoraRadioDevice) (j : positive) : bool :=
  match devices w !! j with
  | Some dd => negb (address dd =? address me)%Z
  | None => false
  end.

Definition peers (w : Network) (me : LoraRadioDevice) (ch : list positive)
  : list positive :=
  List.filter (is_peer w me) ch.

Definition address_of (w : Network) (j : positive) : Z :=
  match devices w !! j with Some dd => address dd | None => 0%Z end.

(** The network when a call of [send] rejects the frame with the line
    [line]: the frame has taken an id, the sender has one more line, and
    nothing else has changed. *)
Definition dropped (w : Network) (self : positive) (me : LoraRadioDevice)
    (line : TxLine) : Network :=
  mkNetwork (<[self := write_Log me (LogTx line)]> (devices w))
            (globalFrameIDCounter w + 1)%Z (energyCalls w).

(** What holds in the loop of [send] once the destinations [seen] have been
    transmitted to. *)
Definition tx_inv (w : Network) (self : positive) (me : LoraRadioDevice)
    (win : Z * Z) (secs : Q) (seen : list positive) (st : TxState) : Prop :=
  devices (net st) !! self
  = Some (set_transmittingTimes me
            (transmittingTimes me ++ repeat win (length seen)))
  /\ (forall j, address <$> (devices (net st) !! j) = address <$> (devices w !! j))
  /\ globalFrameIDCounter (net st) = globalFrameIDCounter w
  /\ energyCalls (net st) = energyCalls w
  /\ _instanceId st = (1 + Z.of_nat (length seen))%Z
  /\ _ret st = negb (length seen =? 0)%nat
  /\ mtuDrop (_loggerInfo st) = false
  /\ busyDrop (_loggerInfo st) = false
  /\ noValidChannelDrop (_loggerInfo st) = false
  /\ tx_instanceIDs (_loggerInfo st) = List.map Z.of_nat (seq 1 (length seen))
  /\ tx_destinationRadioIDs (_loggerInfo st) = List.map (address_of w) seen
  /\ tx_secondsToTransmits (_loggerInfo st) = repeat secs (length seen)
  /\ (forall j dj, j <> self -> devices w !! j = Some dj ->
        exists dj', devices (net st) !! j = Some dj'
                    /\ heard dj' = (heard dj + count_occ Pos.eq_dec seen j)%nat)
  /\ (forall j, devices w !! j = None -> devices (net st) !! j = None).

Lemma transmit_to_step w self me now fid size payload toa seen st dst :
  let secs := toa / 1000 in
  let win := (now, (now + timedelta_us secs)%Z) in
  devices w !! self = Some me ->
  get_TimeOnAir (radioPhySetup me) size = inr toa ->
  (is_peer w me dst = true ->
   exists b per,
     link self dst now = Some b
     /\ get_PERFromBER (SNR b) (_sf (radioPhySetup me))
                       (_bits_allowed (radioPhySetup me)) size = inr per) ->
  tx_inv w self me win secs seen st ->
  exists st',
    transmit_to random link self now fid size payload st dst = inr st'
    /\ tx_inv w self me win secs (seen ++ List.filter (is_peer w me) [dst]) st'.
Proof.
  intros secs win Hme Htoa Hlink Inv.
  pose proof Inv as
    (I1 & I2 & I3 & I4 & I5 & I6 & I7 & I8 & I9 & I10 & I11 & I12 & I13 & I14).
  unfold transmit_to. rewrite I1.
  destruct (devices w !! dst) as [dd|] eqn:Hdst.
  2:{ rewrite (I14 _ Hdst). exists st. split; [done|].
      simpl. unfold is_peer. rewrite Hdst. by rewrite app_nil_r. }
  pose proof (I2 dst) as Hadr. rewrite Hdst in Hadr.
  destruct (devices (net st) !! dst) as [dd'|] eqn:Hdst'; [|done].
  simpl in Hadr. injection Hadr as Hadr.
  cbn [address set_transmittingTimes radioPhySetup].
  destruct (address dd' =? address me)%Z eqn:A.
  { exists st. split; [done|].
    simpl. unfold is_peer. rewrite Hdst, <- Hadr, A. simpl. by rewrite app_nil_r. }
  assert (P : is_peer w me dst = true).
  { unfold is_peer. by rewrite Hdst, <- Hadr, A. }
  assert (Hne : dst <> self).
  { intros ->. rewrite Hme in Hdst. injection Hdst as <-.
    rewrite Hadr in A. by rewrite Z.eqb_refl in A. }
  destruct (Hlink P) as (b & per & Hb & Hper).
  rewrite Htoa, Hb, Hper.
  destruct (receive random dd' _ _) as [[dst' n'] ok] eqn:R.
  destruct (receive_heard _ _ _ _ _ _ R) as [Ra Rh].
  eexists. split; [reflexivity|].
  simpl List.filter. rewrite P.
  unfold tx_inv. cbn [net tx_draws _instanceId _loggerInfo _ret devices
                      globalFrameIDCounter energyCalls mtuDrop busyDrop
                      noValidChannelDrop tx_instanceIDs tx_destinationRadioIDs
                      tx_secondsToTransmits].
  rewrite !length_app. cbn [length].
  split_and!.
  - rewrite lookup_insert_eq. f_equal. unfold set_transmittingTimes. simpl.
    f_equal. rewrite repeat_app. simpl. by rewrite <- app_assoc.
  - intros j. destruct (decide (j = self)) as [->|Hj].
    + rewrite lookup_insert_eq, Hme. done.
    + rewrite lookup_insert_ne by done.
      destruct (decide (j = dst)) as [->|Hj'].
      * rewrite lookup_insert_eq, Hdst. simpl. by rewrite Ra, Hadr.
      * rewrite lookup_insert_ne by done. apply I2.
  - done.
  - done.
  - rewrite I5. lia.
  - by rewrite Nat.add_1_r.
  - done.
  - done.
  - done.
  - rewrite I10, seq_app, map_app. simpl. do 3 f_equal. lia.
  - rewrite I11, map_app. simpl. do 2 f_equal.
    unfold address_of. by rewrite Hdst.
  - rewrite I12, repeat_app. done.
  - intros j dj Hj Hdj. rewrite lookup_insert_ne by done.
    rewrite count_occ_app. simpl.
    destruct (decide (j = dst)) as [->|Hj'].
    + rewrite lookup_insert_eq. exists dst'. split; [done|].
      destruct (I13 dst dj Hj Hdj) as (x & Hx & Hh).
      rewrite Hdst' in Hx. injection Hx as <-.
      destruct (Pos.eq_dec dst dst); [|done]. lia.
    + rewrite lookup_insert_ne by done.
      destruct (I13 j dj Hj Hdj) as (x & Hx & Hh).
      exists x. split; [done|].
      destruct (Pos.eq_dec dst j); [congruence|]. lia.
  - intros j Hj.
    assert (j <> self) by congruence. assert (j <> dst) by congruence.
    rewrite !lookup_insert_ne by done. by apply I14.
Qed.

Lemma transmit_all_ok w self me now fid size payload toa : forall ch seen st,
  let secs := toa / 1000 in
  let win := (now, (now + timedelta_us secs)%Z) in
  devices w !! self = Some me ->
  get_TimeOnAir (radioPhySetup me) size = inr toa ->
  (forall dst, List.In dst ch -> is_peer w me dst = true ->
   exists b per,
     link self dst now = Some b
     /\ get_PERFromBER (SNR b) (_sf (radioPhySetup me))
                       (_bits_allowed (radioPhySetup me)) size = inr per) ->
  tx_inv w self me win secs seen st ->
  exists st',
    transmit_all random link self now fid size payload st ch = inr st'
    /\ tx_inv w self me win secs (seen ++ peers w me ch) st'.
Proof.
  induction ch as [|dst rest IH]; intros seen st secs win Hme Htoa Hlink Inv.
  - exists st. split; [done|]. unfold peers. simpl. by rewrite app_nil_r.
  - destruct (transmit_to_step w self me now fid size payload toa seen st dst
                Hme Htoa (Hlink dst (or_introl eq_refl)) Inv) as (st1 & E1 & Inv1).
    destruct (IH _ st1 Hme Htoa (fun d Hd => Hlink d (or_intror Hd)) Inv1)
      as (st2 & E2 & Inv2).
    exists st2. split.
    + simpl. by rewrite E1.
    + unfold peers in *. simpl List.filter in *.
      destruct (is_peer w me dst); simpl in *;
        [by rewrite <- app_assoc in Inv2 | by rewrite app_nil_r in Inv2].
Qed.

Lemma py_index_single {A} (x : A) (i : Z) :
  (i = 0 \/ i = -1)%Z -> Runtime.py_index [x] i = Some x.
Proof. by intros [-> | ->]. Qed.

(** C6.  A call of [send] by the device [me].  The three checks are made
    in this order and the first that applies decides: a payload above the
    MTU of 255 bytes gives [False] with [mtuDrop]; otherwise a transmission
    window that contains the current instant gives [False] with [busyDrop];
    otherwise a device without a channel gives [False] with
    [noValidChannelDrop].  In each of these the frame has taken an id, the
    sender has one more log line, and nothing else has changed: no window is
    recorded, no other device is touched, the power model is not called.
    A frame of at most the MTU, so one of exactly 255 bytes, with a free
    transmitter, exactly one channel chosen by the index 0 or -1, links whose
    computations succeed and at least one device with another address in the
    channel is transmitted: [send] returns [True], the sender records one
    window from the current instant to the end of the time on air per
    destination and writes one line, the power model is asked once, and every
    other device has been handed one frame per time it occurs among the
    destinations. *)
Theorem send_contract (w : Network) (self : positive) (me : LoraRadioDevice)
    (now size idx : Z) (payload : string) (n : nat) :
  devices w !! self = Some me ->
  let out := send random link has_PowerModel self now size payload idx w n in
  let fid := globalFrameIDCounter w in
  ((get_MTU < size)%Z ->
   out = Some (SendReturns false
                 (dropped w self me
                    (mkTxLine fid size true false false [] [] [] [] [] [])) n))
  /\ ((size <= get_MTU)%Z -> is_TxBusy me now = true ->
      out = Some (SendReturns false
                    (dropped w self me
                       (mkTxLine fid size false true false [] [] [] [] [] [])) n))
  /\ ((size <= get_MTU)%Z -> is_TxBusy me now = false -> channels me = [] ->
      out = Some (SendReturns false
                    (dropped w self me
                       (mkTxLine fid size false false true [] [] [] [] [] [])) n))
  /\ (forall line,
        let w' := dropped w self me line in
        (forall j, j <> self -> devices w' !! j = devices w !! j)
        /\ energyCalls w' = energyCalls w
        /\ exists me',
             devices w' !! self = Some me'
             /\ transmittingTimes me' = transmittingTimes me
             /\ temporaryReceivedFrames me' = temporaryReceivedFrames me
             /\ rxQueue me' = rxQueue me
             /\ callbackPackets me' = callbackPackets me
             /\ logger me' = (logger me ++ [LogTx line])%list)
  /\ ((size <= get_MTU)%Z -> is_TxBusy me now = false ->
      forall ch toa,
        channels me = [ch] ->
        (idx = 0 \/ idx = -1)%Z ->
        get_TimeOnAir (radioPhySetup me) size = inr toa ->
        (forall dst, List.In dst ch -> is_peer w me dst = true ->
         exists b per,
           link self dst now = Some b
           /\ get_PERFromBER (SNR b) (_sf (radioPhySetup me))
                             (_bits_allowed (radioPhySetup me)) size = inr per) ->
        peers w me ch <> [] ->
        exists w' n' line me',
          out = Some (SendReturns true w' n')
          /\ devices w' !! self = Some me'
          /\ transmittingTimes me'
             = (transmittingTimes me
                ++ repeat (now, (now + timedelta_us (toa / 1000))%Z)
                          (length (peers w me ch)))%list
          /\ logger me' = (logger me ++ [LogTx line])%list
          /\ mtuDrop line = false /\ busyDrop line = false
          /\ noValidChannelDrop line = false
          /\ tx_destinationRadioIDs line
             = List.map (address_of w) (peers w me ch)
          /\ tx_instanceIDs line
             = List.map Z.of_nat (seq 1 (length (peers w me ch)))
          /\ energyCalls w'
             = (energyCalls w
                ++ if has_PowerModel self then [(self, toa / 1000)] else [])%list
          /\ forall j dj, j <> self -> devices w !! j = Some dj ->
               exists dj',
                 devices w' !! j = Some dj'
                 /\ heard dj'
                    = (heard dj + count_occ Pos.eq_dec (peers w me ch) j)%nat).
Proof.
  intros Hme out fid. subst out fid. unfold get_MTU. split_and!.
  - intros Hbig. unfold send, dropped, log_Tx. rewrite Hme. simpl.
    apply Z.ltb_lt in Hbig. unfold get_MTU. rewrite Hbig. simpl.
    by rewrite Hme.
  - intros Hsmall Hbusy. unfold send, dropped, log_Tx. rewrite Hme. simpl.
    apply Z.ltb_ge in Hsmall. unfold get_MTU. rewrite Hsmall, Hbusy. simpl.
    by rewrite Hme.
  - intros Hsmall Hbusy Hch. unfold send, dropped, log_Tx. rewrite Hme. simpl.
    apply Z.ltb_ge in Hsmall. unfold get_MTU. rewrite Hsmall, Hbusy, Hch. simpl.
    by rewrite Hme.
  - intros line. unfold dropped. simpl. split_and!.
    + intros j Hj. by rewrite lookup_insert_ne.
    + done.
    + eexists. rewrite lookup_insert_eq. split; [reflexivity|]. done.
  - intros Hsmall Hbusy ch toa Hch Hidx Htoa Hlink Hpeers.
    set (w1 := mkNetwork (devices w) (globalFrameIDCounter w + 1)%Z (energyCalls w)).
    set (secs := toa / 1000).
    set (win := (now, (now + timedelta_us secs)%Z)).
    set (info := mkTxLine (globalFrameIDCounter w) size false false false
                          [] [] [] [] [] []).
    assert (Inv0 : tx_inv w1 self me win secs [] (mkTxState w1 n 1 info false)).
    { unfold tx_inv. simpl. rewrite set_transmittingTimes_id. split_and!; try done.
      intros j dj _ Hj. exists dj. split; [done | lia]. }
    destruct (transmit_all_ok w1 self me now (globalFrameIDCounter w) size payload
                toa ch [] _ Hme Htoa Hlink Inv0) as (st & E & Inv).
    simpl app in Inv. change (peers w1 me ch) with (peers w me ch) in Inv.
    destruct Inv as
      (I1 & I2 & I3 & I4 & I5 & I6 & I7 & I8 & I9 & I10 & I11 & I12 & I13 & I14).
    destruct (peers w me ch) as [|p0 ps] eqn:Hp; [done|].
    simpl length in *. simpl in I6.
    unfold send. rewrite Hme. cbv zeta.
    apply Z.ltb_ge in Hsmall. unfold get_MTU. rewrite Hsmall, Hbusy, Hch.
    cbn [length Nat.eqb negb]. rewrite (py_index_single ch idx Hidx).
    fold w1. fold info. rewrite E, I6, I12, py_max_repeat.
    destruct (has_PowerModel self).
    + unfold log_Tx. cbn [devices]. rewrite I1.
      eexists _, _, _, _. split; [reflexivity|].
      cbn [devices energyCalls]. rewrite lookup_insert_eq.
      split; [reflexivity|]. simpl.
      split_and!; try done.
      * by rewrite I4.
      * intros j dj Hj Hdj. rewrite lookup_insert_ne by done.
        by apply I13.
    + unfold log_Tx. rewrite I1.
      eexists _, _, _, _. split; [reflexivity|].
      cbn [devices energyCalls]. rewrite lookup_insert_eq.
      split; [reflexivity|]. simpl.
      split_and!; try done.
      * by rewrite I4, app_nil_r.
      * intros j dj Hj Hdj. rewrite lookup_insert_ne by done.
        by apply I13.
Qed.

End Sending.

(** Two devices on one channel, 600 km apart, on a link whose SNR is below
    every row of the BER table. *)
Definition sender0 : LoraRadioDevice :=
  mkDevice 1 true true [[1%positive; 2%positive]] [] [] [] false [] phy_sf7 [].
Definition peer0 : LoraRadioDevice :=
  mkDevice 2 true true [[1%positive; 2%positive]] [] [] [] false [] phy_sf7 [].
Definition net0 : Network :=
  mkNetwork (<[1%positive := sender0]> (<[2%positive := peer0]> ∅)) 0 [].
Definition link0 : positive -> positive -> Z -> option LinkBudget :=
  fun _ _ _ => Some (mkBudget 600000 (-(30)) (-(130)) 0).
Definition power0 : positive -> bool := fun _ => true.

(** The same sender while a transmission from 0 s to 1 s is recorded. *)
Definition busy_sender : LoraRadioDevice :=
  mkDevice 1 true true [[1%positive; 2%positive]] [(0%Z, 1000000%Z)] [] []
           false [] phy_sf7 [].
Definition busy_net : Network :=
  mkNetwork (<[1%positive := busy_sender]> (<[2%positive := peer0]> ∅)) 0 [].

(** A call made while a recorded window contains the current instant is not
    always answered with [busyDrop]: with a payload of 256 bytes the line
    has [mtuDrop] and not [busyDrop]. *)
Lemma busy_oversize_send_cex :
  is_TxBusy busy_sender 500000 = true
  /\ exists w' me' line,
       send half link0 power0 1 500000 256 "x" 0 busy_net 0
       = Some (SendReturns false w' 0)
       /\ devices w' !! 1%positive = Some me'
       /\ logger me' = [LogTx line]
       /\ mtuDrop line = true
       /\ busyDrop line = false.
Proof.
  split; [reflexivity|].
  eexists _, _, _. split; [vm_compute; reflexivity|].
  split; [vm_compute; reflexivity|].
  split; [reflexivity|]. split; reflexivity.
Qed.

(** The assertion on the number of channels: a device on two channels
    raises instead of transmitting. *)
Lemma send_two_channels_raises :
  let d := mkDevice 1 true true [[1%positive; 2%positive]; [1%positive]] [] [] []
                    false [] phy_sf7 [] in
  let w := mkNetwork (<[1%positive := d]> (<[2%positive := peer0]> ∅)) 0 [] in
  send half link0 power0 1 0 255 "x" 0 w 0
  = Some (SendRaises AssertionError
            (mkNetwork (devices w) 1 []) 0).
Proof. vm_compute. reflexivity. Qed.

(** What the call at the MTU does in the two-device network: the sender is
    busy for the 399616 microseconds of the time on air, the power model is
    asked once, and the peer holds the frame, whose reception ends 2 ms
    later. *)
Lemma send_at_MTU_example :
  exists w',
    send half link0 power0 1 0 255 "x" 0 net0 0 = Some (SendReturns true w' 1)
    /\ (transmittingTimes <$> devices w' !! 1%positive)
       = Some [(0%Z, 399616%Z)]
    /\ (List.map endReceptionTime
          <$> (temporaryReceivedFrames <$> devices w' !! 2%positive))
       = Some [401616%Z]
    /\ length (energyCalls w') = 1%nat.
Proof.
  eexists. split; [vm_compute; reflexivity|].
  split; [vm_compute; reflexivity|].
  split; [vm_compute; reflexivity|]. reflexivity.
Qed.

Lemma send_contract_witness :
  devices net0 !! 1%positive = Some sender0
  /\ (exists w' n',
        send half link0 power0 1 0 255 "x" 0 net0 0
        = Some (SendReturns true w' n'))
  /\ send half link0 power0 1 0 256 "x" 0 net0 0
     = Some (SendReturns false
               (dropped net0 1 sender0
                  (mkTxLine 0 256 true false false [] [] [] [] [] [])) 0).
Proof.
  split; [reflexivity|]. split.
  - destruct (send_contract half link0 power0 net0 1 sender0 0 255 0 "x" 0
                eq_refl) as (_ & _ & _ & _ & H).
    edestruct H as (w' & n' & line & me' & E & _);
      [ unfold get_MTU; lia
      | reflexivity
      | reflexivity
      | left; reflexivity
      | vm_compute; reflexivity
      | intros dst _ _; eexists _, _; split;
        [reflexivity | vm_compute; reflexivity]
      | vm_compute; discriminate
      | exists w', n'; exact E ].
  - apply (send_contract half link0 power0 net0 1 sender0 0 256 0 "x" 0 eq_refl).
    unfold get_MTU. lia.
Defined.

(** ** The radios over a run *)

(** The frames a device has reported as received or still holds. *)
Definition known (d : LoraRadioDevice) : list LoraFrame :=
  (successes (logger d) ++ temporaryReceivedFrames d)%list.

(** Every frame the device knows has an id below [c], or the id [c] and an
    instance id below [i], and no two of them are equal under the frame
    equality. *)
Definition device_fresh (c i : Z) (d : LoraRadioDevice) : Prop :=
  (forall f, List.In f (known d) ->
             (id f < c \/ (id f = c /\ instanceID f < i))%Z)
  /\ List.NoDup (List.map key (known d)).

(** The frames of every device were created before the frame id counter
    reached its value. *)
Definition fresh (w : Network) : Prop :=
  map_Forall (fun _ d => device_fresh (globalFrameIDCounter w) 0 d) (devices w).

Lemma device_fresh_mono c i i' d :
  (i <= i')%Z -> device_fresh c i d -> device_fresh c i' d.
Proof.
  intros Hi [H1 H2]. split; [|done].
  intros f Hf. destruct (H1 f Hf) as [H|[H H']]; [by left | right; lia].
Qed.

Lemma device_fresh_next c i d : device_fresh c i d -> device_fresh (c + 1) 0 d.
Proof.
  intros [H1 H2]. split; [|done].
  intros f Hf. destruct (H1 f Hf) as [H|[H H']]; left; lia.
Qed.

Lemma device_fresh_known c i d d' :
  known d' = known d -> device_fresh c i d -> device_fresh c i d'.
Proof. unfold device_fresh. by intros ->. Qed.

Lemma known_write_LogTx d line : known (write_Log d (LogTx line)) = known d.
Proof. unfold known. simpl. rewrite successes_app. simpl. by rewrite app_nil_r. Qed.

Lemma key_id_instance f g :
  key f = key g -> id f = id g /\ instanceID f = instanceID g.
Proof. unfold key. by intros [= -> _ _ _ ->]. Qed.

(** A device that is handed a frame newer than all it knows stays fresh. *)
Lemma device_fresh_add c i d d' f :
  known d' = (known d ++ [f])%list ->
  id f = c -> instanceID f = i ->
  device_fresh c i d -> device_fresh c (i + 1) d'.
Proof.
  intros E Hid Hin [H1 H2]. split.
  - intros g Hg. rewrite E in Hg. apply in_app_iff in Hg as [Hg|[<-|[]]].
    + destruct (H1 g Hg) as [H|[H H']]; [by left | right; lia].
    + right. lia.
  - rewrite E, map_app. simpl. apply NoDup_ListNoDup, NoDup_app.
    split_and!.
    + by apply NoDup_ListNoDup.
    + intros k Hk Hk'. apply list_elem_of_singleton in Hk'. subst k.
      apply list_elem_of_In, in_map_iff in Hk as (g & Eg & Hg).
      apply key_id_instance in Eg as [Eg1 Eg2].
      destruct (H1 g Hg) as [H|[H H']]; lia.
    + apply NoDup_singleton.
Qed.

Section Run.
Variable random : nat -> Q.
Variable link : positive -> positive -> Z -> option LinkBudget.
Variable has_PowerModel : positive -> bool.

Lemma receive_known d n f d' n' b :
  receive random d n f = (d', n', b) ->
  known d' = known d \/ known d' = (known d ++ [f])%list.
Proof.
  unfold receive, known. intros H.
  repeat match type of H with
         | (if ?c then _ else _) = _ => destruct c
         end; injection H as <- <- <-; simpl;
    rewrite ?successes_app; simpl; rewrite ?app_nil_r; auto.
  right. by rewrite app_assoc.
Qed.

(** What holds of the devices in the loop of [send] for the frame id
    [fid]. *)
Definition tx_fresh (fid : Z) (st : TxState) : Prop :=
  globalFrameIDCounter (net st) = (fid + 1)%Z
  /\ map_Forall (fun _ d => device_fresh fid (_instanceId st) d)
                (devices (net st)).

Lemma transmit_to_fresh self now fid size payload st dst st' :
  tx_fresh fid st ->
  transmit_to random link self now fid size payload st dst = inr st' ->
  tx_fresh fid st'.
Proof.
  intros [Hc Hd] H. unfold transmit_to in H.
  destruct (devices (net st) !! self) as [me|] eqn:Hme;
    [|by injection H as <-].
  destruct (devices (net st) !! dst) as [dd|] eqn:Hdst;
    [|by injection H as <-].
  destruct (address dd =? address me)%Z eqn:A; [by injection H as <-|].
  destruct (get_TimeOnAir _ _) as [e|toa]; [done|].
  destruct (link self dst now) as [b|]; [|done].
  destruct (get_PERFromBER _ _ _ _) as [e|per]; [done|].
  destruct (receive random dd _ _) as [[dst' n'] ok] eqn:R.
  injection H as <-. split; [done|]. cbn [net devices _instanceId].
  assert (Hne : dst <> self).
  { intros ->. rewrite Hme in Hdst. injection Hdst as <-.
    by rewrite Z.eqb_refl in A. }
  intros j dj Hj.
  destruct (decide (j = self)) as [->|Hjs].
  - rewrite lookup_insert_eq in Hj. injection Hj as <-.
    apply (device_fresh_known _ _ me); [done|].
    apply (device_fresh_mono _ (_instanceId st)); [lia|]. by apply (Hd self).
  - rewrite lookup_insert_ne in Hj by done.
    destruct (decide (j = dst)) as [->|Hjd].
    + rewrite lookup_insert_eq in Hj. injection Hj as <-.
      destruct (receive_known _ _ _ _ _ _ R) as [E|E].
      * apply (device_fresh_known _ _ dd); [done|].
        apply (device_fresh_mono _ (_instanceId st)); [lia|]. by apply (Hd dst).
      * apply (device_fresh_add _ _ dd _ _ E); [done | done |].
        by apply (Hd dst).
    + rewrite lookup_insert_ne in Hj by done.
      apply (device_fresh_mono _ (_instanceId st)); [lia|]. by apply (Hd j).
Qed.

Lemma transmit_all_fresh self now fid size payload ch : forall st,
  tx_fresh fid st ->
  match transmit_all random link self now fid size payload st ch with
  | inl (_, st') => tx_fresh fid st'
  | inr st' => tx_fresh fid st'
  end.
Proof.
  induction ch as [|dst rest IH]; intros st Inv; simpl; [done|].
  destruct (transmit_to _ _ _ _ _ _ _ _ _) as [e|st1] eqn:E; [done|].
  apply IH. by eapply transmit_to_fresh.
Qed.

Lemma fresh_log_Tx w self line : fresh w -> fresh (log_Tx w self line).
Proof.
  intros H. unfold log_Tx.
  destruct (devices w !! self) as [me|] eqn:Hme; [|done].
  intros j dj Hj. cbn [devices globalFrameIDCounter] in *.
  destruct (decide (j = self)) as [->|Hne].
  - rewrite lookup_insert_eq in Hj. injection Hj as <-.
    apply (device_fresh_known _ _ me); [apply known_write_LogTx|].
    by apply (H self).
  - rewrite lookup_insert_ne in Hj by done. by apply (H j).
Qed.

Lemma tx_fresh_fresh fid st : tx_fresh fid st -> fresh (net st).
Proof.
  intros [Hc Hd] j dj Hj. rewrite Hc.
  apply (device_fresh_next _ (_instanceId st)). by apply (Hd j).
Qed.

(** The network of an outcome of [send]. *)
Definition outcome_network (o : SendOutcome) : Network * nat :=
  match o with
  | SendReturns _ w n => (w, n)
  | SendRaises _ w n => (w, n)
  end.

Lemma send_fresh self now size payload idx w n out :
  fresh w ->
  send random link has_PowerModel self now size payload idx w n = Some out ->
  fresh (fst (outcome_network out)).
Proof.
  intros Hw H. unfold send in H.
  destruct (devices w !! self) as [me|] eqn:Hme; [|done].
  set (w1 := mkNetwork (devices w) (globalFrameIDCounter w + 1)%Z (energyCalls w)) in *.
  assert (H1 : fresh w1).
  { intros j dj Hj. simpl in *.
    apply (device_fresh_next _ 0). by apply (Hw j). }
  cbv zeta in H.
  destruct (get_MTU <? size)%Z.
  { injection H as <-. simpl. by apply fresh_log_Tx. }
  destruct (is_TxBusy me now).
  { injection H as <-. simpl. by apply fresh_log_Tx. }
  destruct (length (channels me) =? 0)%nat.
  { injection H as <-. simpl. by apply fresh_log_Tx. }
  destruct (negb _).
  { by injection H as <-. }
  destruct (Runtime.py_index _ _) as [ch|]; [|by injection H as <-].
  match type of H with
  | context [transmit_all _ _ _ _ _ _ _ ?st0 _] =>
    assert (Inv0 : tx_fresh (globalFrameIDCounter w) st0)
  end.
  { split; [done|]. intros j dj Hj. simpl in *.
    apply (device_fresh_mono _ 0); [lia|]. by apply (Hw j). }
  pose proof (transmit_all_fresh self now (globalFrameIDCounter w) size payload
                ch _ Inv0) as Inv.
  destruct (transmit_all _ _ _ _ _ _ _ _ _) as [[e st]|st].
  { injection H as <-. simpl. by eapply tx_fresh_fresh. }
  apply tx_fresh_fresh in Inv.
  destruct (_ret st).
  - destruct (has_PowerModel self).
    + destruct (py_max _) as [m|]; injection H as <-; simpl; [|done].
      by apply fresh_log_Tx.
    + injection H as <-. simpl. by apply fresh_log_Tx.
  - injection H as <-. simpl. by apply fresh_log_Tx.
Qed.

Lemma update_fresh c i d now n d' n' r :
  device_fresh c i d ->
  update_Timestep random d now n = (d', n', r) ->
  device_fresh c i d'.
Proof.
  intros [H1 H2] U.
  destruct (update_Timestep_delivers random d now n d' n' r U)
    as (new & L & _ & S & Ev & ND).
  unfold device_fresh, known in *. rewrite map_app in H2.
  apply NoDup_ListNoDup, NoDup_app in H2 as (N1 & N2 & N3).
  destruct (ND (proj1 (NoDup_ListNoDup _) N3)) as (D1 & D2 & D3 & _).
  assert (Snew : forall k, k ∈ List.map key (successes new) ->
                           k ∈ List.map key (temporaryReceivedFrames d)).
  { intros k Hk. apply list_elem_of_In, in_map_iff in Hk as (f & <- & Hf).
    apply list_elem_of_In, in_map. by apply S. }
  assert (Spend : forall k, k ∈ List.map key (temporaryReceivedFrames d') ->
                            k ∈ List.map key (temporaryReceivedFrames d)).
  { intros k Hk. apply list_elem_of_In, in_map_iff in Hk as (f & <- & Hf).
    destruct (Ev f Hf) as (f0 & Hf0 & E). rewrite (evolves_key _ _ E).
    by apply list_elem_of_In, in_map. }
  split.
  - intros f Hf. rewrite L, successes_app in Hf.
    apply in_app_iff in Hf as [Hf|Hf]; [apply in_app_iff in Hf as [Hf|Hf]|].
    + apply H1, in_app_iff. by left.
    + apply H1, in_app_iff. right. by apply S.
    + destruct (Ev f Hf) as (f0 & Hf0 & E).
      destruct (key_id_instance _ _ (evolves_key _ _ E)) as [-> ->].
      apply H1, in_app_iff. by right.
  - rewrite L, successes_app, !map_app, <- app_assoc.
    apply NoDup_ListNoDup, NoDup_app. split_and!; [done | |].
    + intros k Hk Hk'. apply (N2 k Hk).
      apply elem_of_app in Hk' as [Hk'|Hk']; [by apply Snew | by apply Spend].
    + apply NoDup_app. split_and!.
      * by apply NoDup_ListNoDup.
      * intros k Hk Hk'.
        apply list_elem_of_In, in_map_iff in Hk as (f & <- & Hf).
        apply (D3 f Hf). by apply list_elem_of_In.
      * by apply NoDup_ListNoDup.
Qed.

(** The calls a simulation makes on the radios of a network. *)
Inductive Call :=
| CallSend (self : positive) (now : Z) (_payloadSize : Z) (_payload : string)
           (_channelIndex : Z)
| CallUpdate (k : positive) (now : Z).

Definition call (c : Call) (s : Network * nat) : Network * nat :=
  let '(w, n) := s in
  match c with
  | CallSend self now _payloadSize _payload _channelIndex =>
    match send random link has_PowerModel self now _payloadSize _payload
               _channelIndex w n with
    | Some out => outcome_network out
    | None => (w, n)
    end
  | CallUpdate k now =>
    match devices w !! k with
    | Some d =>
      let '(d', n', _) := update_Timestep random d now n in
      (mkNetwork (<[k := d']> (devices w)) (globalFrameIDCounter w)
                 (energyCalls w), n')
    | None => (w, n)
    end
  end.

Definition run (calls : list Call) (s : Network * nat) : Network * nat :=
  List.fold_left (fun s c => call c s) calls s.

Lemma call_fresh c w n : fresh w -> fresh (fst (call c (w, n))).
Proof.
  intros Hw. destruct c as [self now size payload idx | k now]; simpl.
  - destruct (send _ _ _ _ _ _ _ _ _ _) as [out|] eqn:E; [|done].
    by eapply send_fresh.
  - destruct (devices w !! k) as [d|] eqn:Hd; [|done].
    destruct (update_Timestep random d now n) as [[d' n'] r] eqn:U. simpl.
    intros j dj Hj. simpl in *.
    destruct (decide (j = k)) as [->|Hne].
    + rewrite lookup_insert_eq in Hj. injection Hj as <-.
      eapply update_fresh; [|exact U]. by apply (Hw k).
    + rewrite lookup_insert_ne in Hj by done. by apply (Hw j).
Qed.

Lemma run_fresh calls : forall w n, fresh w -> fresh (fst (run calls (w, n))).
Proof.
  induction calls as [|c rest IH]; intros w n Hw; [done|].
  change (run (c :: rest) (w, n)) with (run rest (call c (w, n))).
  pose proof (call_fresh c w n Hw) as H.
  destruct (call c (w, n)) as [w1 n1]. by apply IH.
Qed.

(** C3.  Take a network whose frames are older than the frame id counter,
    for one a network where no frame has been sent yet, and any calls of
    [send] and [update_Timestep] on its radios.  For a call of
    [update_Timestep] by a device at the instant [now] after them: the
    frames reported as received in the stretch of the log the call writes
    are exactly the ones whose payloads reach the callback (or the rx
    queue); each of them was pending, its reception had ended by [now] and
    its collided list is empty, so a frame with a collided id is not handed
    over; among all the frames the device has handed over, in this call and
    before, no frame copy occurs twice; a frame handed over is no longer
    pending; and when the call returns normally every frame still pending is
    one whose reception has not ended. *)
Theorem delivery_contract (w0 : Network) (n0 : nat) (calls : list Call) :
  fresh w0 ->
  forall k d now n,
    devices (fst (run calls (w0, n0))) !! k = Some d ->
    forall d' n' r,
      update_Timestep random d now n = (d', n', r) ->
      exists new,
        logger d' = (logger d ++ new)%list
        /\ handed_over d d' (successes new)
        /\ (forall f, List.In f (successes new) ->
              List.In f (temporaryReceivedFrames d)
              /\ (endReceptionTime f <= now)%Z
              /\ collidedIDs f = [])
        /\ List.NoDup (List.map key (successes (logger d')))
        /\ (forall f, List.In f (successes new) ->
              ~ List.In (key f) (List.map key (temporaryReceivedFrames d')))
        /\ (r = false ->
            forall f, List.In f (temporaryReceivedFrames d') ->
                      (now < endReceptionTime f)%Z).
Proof.
  intros Hw k d now n Hd d' n' r U.
  pose proof (run_fresh calls w0 n0 Hw k d Hd) as F.
  pose proof (update_fresh _ _ d now n d' n' r F U) as [_ G2].
  destruct F as [_ F2].
  destruct (update_Timestep_delivers random d now n d' n' r U)
    as (new & L & HO & S & _ & ND).
  unfold known in F2, G2. rewrite map_app in F2, G2.
  apply NoDup_ListNoDup, NoDup_app in F2 as (_ & _ & F2).
  apply NoDup_ListNoDup, NoDup_app in G2 as (G2 & _ & _).
  destruct (ND (proj1 (NoDup_ListNoDup _) F2)) as (_ & _ & D3 & D4).
  exists new. split_and!; try done. by apply NoDup_ListNoDup.
Qed.

End Run.

(** A link good enough for a frame of one byte to get through. *)
Definition link1 : positive -> positive -> Z -> option LinkBudget :=
  fun _ _ _ => Some (mkBudget 600000 (-(5)) (-(130)) 0).

Lemma fresh_net0 : fresh net0.
Proof.
  intros j dj Hj. unfold net0 in Hj. cbn [devices] in Hj.
  repeat (apply lookup_insert_Some in Hj as [[<- <-]|[_ Hj]];
          [split; [intros f [] | constructor]|]).
  by rewrite lookup_empty in Hj.
Qed.

(** Device 1 sends one byte at 0 s; the update of device 2 at 1 s hands the
    payload over, once. *)
Lemma delivery_contract_witness :
  fresh net0
  /\ exists d d' n' new,
       devices (fst (run half link1 power0 [CallSend 1 0 1 "x" 0] (net0, 0%nat)))
         !! 2%positive = Some d
       /\ update_Timestep half d 1000000 1 = (d', n', false)
       /\ logger d' = (logger d ++ new)%list
       /\ List.map payloadString (successes new) = ["x"%string]
       /\ rxQueue d' = ["x"%string]
       /\ List.NoDup (List.map key (successes (logger d'))).
Proof.
  split; [exact fresh_net0|].
  destruct (devices (fst (run half link1 power0 [CallSend 1 0 1 "x" 0]
                              (net0, 0%nat))) !! 2%positive) as [d|] eqn:Hd;
    [|vm_compute in Hd; discriminate].
  destruct (update_Timestep half d 1000000 1) as [[d' n'] r] eqn:U.
  destruct (delivery_contract half link1 power0 net0 0
              [CallSend 1 0 1 "x" 0] fresh_net0 2%positive d 1000000 1%nat Hd
              d' n' r U) as (new & L & _ & _ & ND & _).
  exists d, d', n', new.
  vm_compute in Hd. injection Hd as <-.
  vm_compute in U. injection U as <- <- <-.
  simpl in L. subst new.
  split_and!; try reflexivity. exact ND.
Defined.

End LoraFacts.

(* ===================================================================== *)
(** * Properties of the field-of-view index *)
(* ===================================================================== *)

Module FovFacts.
Import Fov.

Definition le_start (a b : Row) : Prop := row_start a <= row_start b.

(** The pass sequence of a node in a dictionary: no rows under a missing key
    or under None. *)
Definition sequence (t : gmap Z (option (list Row))) (n : Z) : list Row :=
  match t !! n with
  | Some (Some rows) => rows
  | _ => []
  end.

(** The row that node [n] expects to find on the other side of [r]. *)
Definition mirror (kind : Z -> Z) (n : Z) (r : Row) : Row :=
  mkRow (row_start r) (row_end r) n (kind n).

Definition symmetric (kind : Z -> Z) (seq : Z -> list Row) : Prop :=
  forall n r, List.In r (seq n) -> List.In (mirror kind n r) (seq (row_nodeID r)).

Definition sorted (seq : Z -> list Row) : Prop :=
  forall n, Sorted le_start (seq n).

(** A sort by start for the examples: insertion from the right, which keeps
    the order of rows of equal start. *)
Fixpoint insert_row (r : Row) (l : list Row) : list Row :=
  match l with
  | [] => [r]
  | x :: rest =>
    if row_start r <? row_start x then r :: x :: rest
    else x :: insert_row r rest
  end.

Definition isort (l : list Row) : list Row := List.fold_right insert_row [] l.

Lemma insert_row_perm r l : Permutation (r :: l) (insert_row r l).
Proof.
  induction l as [|x rest IH]; simpl; [done|].
  destruct (row_start r <? row_start x); [done|].
  rewrite perm_swap. by apply perm_skip.
Qed.

Lemma insert_row_sorted r l : Sorted le_start l -> Sorted le_start (insert_row r l).
Proof.
  induction l as [|x rest IH]; intros Hs; simpl.
  - by repeat constructor.
  - destruct (row_start r <? row_start x) eqn:E.
    + constructor; [done|]. constructor. unfold le_start.
      apply Z.ltb_lt in E. lia.
    + apply Z.ltb_ge in E. inversion Hs as [|? ? Hrest Hhd]; subst.
      constructor; [by apply IH|].
      destruct rest as [|y rest']; simpl.
      * by constructor.
      * destruct (row_start r <? row_start y); constructor; try done.
        by inversion Hhd.
Qed.

Lemma isort_perm l : Permutation l (isort l).
Proof.
  induction l as [|r l IH]; simpl; [done|].
  rewrite <- insert_row_perm. by apply perm_skip.
Qed.

Lemma isort_sorted l : Sorted le_start (isort l).
Proof.
  induction l as [|r l IH]; simpl; [constructor|]. by apply insert_row_sorted.
Qed.

Section Invariant.
Variable get_Passes : INode -> INode -> Z -> Z -> Q -> option (list (Z * Z)).
Variable argsort_start : list Row -> list Row.
Hypothesis argsort_perm : forall l, Permutation l (argsort_start l).
Hypothesis argsort_sorted : forall l, Sorted le_start (argsort_start l).

(** The value of the type of the node with a given id. *)
Variable kind : Z -> Z.

Definition well_kinded (n : INode) : Prop :=
  kind (nodeID n) = ENodeType_value (nodeType n).

Lemma sequence_append t n orig rows r :
  t !! n = Some orig ->
  List.In r (append_rows orig rows) <-> List.In r (sequence t n) \/ List.In r rows.
Proof.
  intros H. unfold sequence. rewrite H.
  destruct orig as [o|]; simpl; [apply in_app_iff | tauto].
Qed.

(** Adding the two sides of the passes of a pair of nodes, each side sorted
    again, keeps the index symmetric and sorted. *)
Lemma add_passes_keeps t satID gsID satK gsK passes origSat origGs :
  kind satID = satK -> kind gsID = gsK ->
  t !! satID = Some origSat -> t !! gsID = Some origGs ->
  symmetric kind (sequence t) -> sorted (sequence t) ->
  let satRows := List.map (fun ps : Z * Z => mkRow (fst ps) (snd ps) gsID gsK) passes in
  let gsRows := List.map (fun ps : Z * Z => mkRow (fst ps) (snd ps) satID satK) passes in
  let t' := <[gsID := Some (argsort_start (append_rows origGs gsRows))]>
              (<[satID := Some (argsort_start (append_rows origSat satRows))]> t) in
  symmetric kind (sequence t') /\ sorted (sequence t').
Proof.
  intros Ks Kg Hsat Hgs Sym Srt satRows gsRows t'.
  assert (Hin : forall n r,
             List.In r (sequence t' n)
             <-> List.In r (sequence t n)
                 \/ (n = gsID /\ List.In r gsRows)
                 \/ (n = satID /\ n <> gsID /\ List.In r satRows)).
  { intros n r. unfold sequence at 1. subst t'.
    destruct (decide (n = gsID)) as [->|Hg].
    - rewrite lookup_insert_eq. split.
      + intros H. apply (Permutation_in _ (Permutation_sym (argsort_perm _))) in H.
        apply (sequence_append t gsID origGs gsRows r Hgs) in H.
        destruct H; [by left | right; left; done].
      + intros H. apply (Permutation_in _ (argsort_perm _)).
        apply (sequence_append t gsID origGs gsRows r Hgs).
        destruct H as [H | [[_ H] | [_ [Hne _]]]]; [by left | by right | done].
    - rewrite lookup_insert_ne by done.
      destruct (decide (n = satID)) as [->|Hs].
      + rewrite lookup_insert_eq. split.
        * intros H. apply (Permutation_in _ (Permutation_sym (argsort_perm _))) in H.
          apply (sequence_append t satID origSat satRows r Hsat) in H.
          destruct H; [by left | right; right; done].
        * intros H. apply (Permutation_in _ (argsort_perm _)).
          apply (sequence_append t satID origSat satRows r Hsat).
          destruct H as [H | [[Hc _] | [_ [_ H]]]]; [by left | done | by right].
      + rewrite lookup_insert_ne by done. fold (sequence t n).
        split; [by left|].
        intros [H | [[Hc _] | [Hc _]]]; done. }
  split.
  - intros n r Hr. apply Hin in Hr. apply Hin.
    destruct Hr as [Hr | [[-> Hr] | (-> & Hne & Hr)]].
    + left. by apply Sym.
    + apply in_map_iff in Hr. destruct Hr as ([a b] & <- & Hab).
      unfold mirror. simpl.
      destruct (decide (satID = gsID)) as [E|E].
      * right. left. split; [done|]. apply in_map_iff. exists (a, b).
        split; [|done]. simpl. f_equal; congruence.
      * right. right. split_and!; try done. apply in_map_iff. exists (a, b).
        split; [|done]. simpl. f_equal; congruence.
    + apply in_map_iff in Hr. destruct Hr as ([a b] & <- & Hab).
      unfold mirror. simpl. right. left. split; [done|].
      apply in_map_iff. exists (a, b). split; [|done]. simpl. f_equal; congruence.
  - intros n. unfold sequence. subst t'.
    destruct (decide (n = gsID)) as [->|Hg].
    + rewrite lookup_insert_eq. apply argsort_sorted.
    + rewrite lookup_insert_ne by done.
      destruct (decide (n = satID)) as [->|Hs].
      * rewrite lookup_insert_eq. apply argsort_sorted.
      * rewrite lookup_insert_ne by done. apply Srt.
Qed.

(** The statics a call leaves, whether it returns or raises. *)
Definition outcome_statics (o : FovExn * Statics + Statics) : Statics :=
  match o with
  | inl (_, s) => s
  | inr s => s
  end.

Definition invariant (s : Statics) : Prop :=
  symmetric kind (sequence (nodeToTimes s))
  /\ sorted (sequence (nodeToTimes s)).

Lemma visit_keeps self s _node :
  well_kinded (ownernode self) -> well_kinded _node -> invariant s ->
  invariant (outcome_statics (visit get_Passes argsort_start self s _node)).
Proof.
  intros Ko Kn [Sym Srt]. unfold visit.
  destruct (nodeToNode s !! nodeID (ownernode self)) as [mine|]; [|done].
  cbn [nodeToNode set_nodeToNode].
  destruct (_ !! nodeID _node) as [theirs|]; [|done].
  destruct (has_Orbital (ownernode self)).
  - cbn [negb]. destruct (get_Passes _ _ _ _ _) as [_passes|]; [|done].
    destruct (length _passes =? 0)%nat; [done|].
    cbn [nodeToTimes set_nodeToTimes set_nodeToNode].
    destruct (nodeToTimes s !! nodeID (ownernode self)) as [origSat|] eqn:Hs; [|done].
    destruct (nodeToTimes s !! nodeID _node) as [origGs|] eqn:Hg; [|done].
    unfold outcome_statics, invariant. cbn [nodeToTimes set_nodeToTimes].
    by eapply add_passes_keeps.
  - destruct (has_Orbital _node); cbn [negb]; [|done].
    destruct (get_Passes _ _ _ _ _) as [_passes|]; [|done].
    destruct (length _passes =? 0)%nat; [done|].
    cbn [nodeToTimes set_nodeToTimes set_nodeToNode].
    destruct (nodeToTimes s !! nodeID _node) as [origSat|] eqn:Hs; [|done].
    destruct (nodeToTimes s !! nodeID (ownernode self)) as [origGs|] eqn:Hg; [|done].
    unfold outcome_statics, invariant. cbn [nodeToTimes set_nodeToTimes].
    by eapply add_passes_keeps.
Qed.

Lemma visit_all_keeps self nodes : forall s,
  well_kinded (ownernode self) -> Forall well_kinded nodes -> invariant s ->
  invariant (outcome_statics (visit_all get_Passes argsort_start self s nodes)).
Proof.
  induction nodes as [|n rest IH]; intros s Ko Kn Inv; [done|].
  apply Forall_cons_1 in Kn as [Kn Krest]. simpl.
  pose proof (visit_keeps self s n Ko Kn Inv) as H.
  destruct (visit _ _ _ _ _) as [[e s']|s']; [done|].
  by apply IH.
Qed.

(** One call of [find_Passes], whether it returns or raises, keeps the index
    symmetric and sorted. *)
Lemma find_Passes_keeps self topology types s :
  well_kinded (ownernode self) -> Forall well_kinded topology -> invariant s ->
  invariant (call_find_Passes get_Passes argsort_start self topology types s).
Proof.
  intros Ko Kt Inv. unfold call_find_Passes, find_Passes.
  destruct (nodeToNode s !! _) as [cur|]; [|done].
  match goal with
  | |- context [visit_all _ _ _ _ ?l] =>
    assert (Kl : Forall well_kinded l)
  end.
  { apply List.Forall_forall. intros n Hn.
    apply filter_In in Hn as [Hn _]. apply in_flat_map in Hn as (ty & _ & Hn).
    unfold get_NodesOfAType in Hn. apply filter_In in Hn as [Hn _].
    by eapply (proj1 (List.Forall_forall _ _) Kt). }
  pose proof (visit_all_keeps self _ s Ko Kl Inv) as H.
  destruct (visit_all _ _ _ _ _) as [[e s']|s']; done.
Qed.

(** ** The merge of the workers' dictionaries *)

Lemma combine_rows (out : gmap Z (list Row)) d n :
  default [] (combine out d !! n) = (default [] (out !! n) ++ sequence d n)%list.
Proof.
  unfold combine, sequence. rewrite lookup_merge.
  destruct (out !! n) as [l|], (d !! n) as [[[|r rest]|]|]; simpl;
    by rewrite ?app_nil_r.
Qed.

Lemma fold_combine_rows ds : forall (out : gmap Z (list Row)) n,
  default [] (List.fold_left combine ds out !! n)
  = (default [] (out !! n) ++ concat (List.map (fun d => sequence d n) ds))%list.
Proof.
  induction ds as [|d ds IH]; intros out n; simpl.
  - by rewrite app_nil_r.
  - by rewrite IH, combine_rows, <- app_assoc.
Qed.

Lemma sequence_fmap_Some (out : gmap Z (list Row)) n :
  sequence (Some <$> out) n = default [] (out !! n).
Proof. unfold sequence. rewrite lookup_fmap. by destruct (out !! n). Qed.

(** After [__compute_FOVs] the sequence of a node is made of its sequences
    in the workers' dictionaries, one after the other. *)
Lemma compute_FOVs_sequence topology s0 shares n :
  sequence (nodeToTimes (compute_FOVs get_Passes argsort_start topology s0 shares)) n
  = concat (List.map (fun d => sequence d n)
              (omap (processMethod get_Passes argsort_start topology s0) shares)).
Proof.
  unfold compute_FOVs, set_GlobalDictionary. cbn [nodeToTimes].
  rewrite sequence_fmap_Some, fold_combine_rows. by rewrite lookup_empty.
Qed.

Lemma worker_keeps topology share : forall s,
  Forall (fun m => well_kinded (ownernode m)) share ->
  Forall well_kinded topology -> invariant s ->
  invariant (List.fold_left
               (fun s sat => call_find_Passes get_Passes argsort_start sat topology
                               [Runtime.GS; Runtime.IOTDEVICE] s)
               share s).
Proof.
  induction share as [|m rest IH]; intros s Ks Kt Inv; [done|].
  apply Forall_cons_1 in Ks as [Km Krest]. simpl.
  apply IH; [done | done |]. by apply find_Passes_keeps.
Qed.

Lemma processMethod_keeps topology s0 share d :
  Forall (fun m => well_kinded (ownernode m)) share ->
  Forall well_kinded topology -> invariant s0 ->
  processMethod get_Passes argsort_start topology s0 share = Some d ->
  symmetric kind (sequence d) /\ sorted (sequence d).
Proof.
  intros Ks Kt Inv H. unfold processMethod in H.
  destruct share as [|m rest]; [done|]. injection H as <-.
  by apply (worker_keeps topology (m :: rest) s0).
Qed.


(** With one worker the merged index is the worker's, and sorted. *)
Lemma compute_FOVs_one_worker_sorted topology s0 share :
  Forall (fun m => well_kinded (ownernode m)) share ->
  Forall well_kinded topology -> invariant s0 ->
  sorted
    (sequence (nodeToTimes (compute_FOVs get_Passes argsort_start topology s0 [share]))).
Proof.
  intros Ks Kt Inv n. rewrite compute_FOVs_sequence. simpl.
  destruct (processMethod _ _ _ _ _) as [d|] eqn:Hd; simpl; [|constructor].
  rewrite app_nil_r.
  destruct (processMethod_keeps topology s0 share d Ks Kt Inv Hd) as [_ Srt].
  apply Srt.
Qed.

End Invariant.

(** ** Two satellites over one ground station *)

Definition satA : INode := mkINode 1 Runtime.SAT true (Some 10%Q) 0 0 100.
Definition satB : INode := mkINode 2 Runtime.SAT true (Some 10%Q) 0 0 100.
Definition ground : INode := mkINode 3 Runtime.GS false (Some 10%Q) 0 0 100.
Definition topology0 : list INode := [satA; satB; ground].
Definition fovA : ModelFovTimeBased := mkModel satA 10%Q.
Definition fovB : ModelFovTimeBased := mkModel satB 10%Q.

(** The statics once the three models are constructed. *)
Definition statics0 : Statics :=
  mkStatics (<[1 := None]> (<[2 := None]> (<[3 := None]> ∅)))
            (<[1 := []]> (<[2 := []]> (<[3 := []]> ∅)))
            false [].

(** Satellite 1 passes over the ground station from 10 to 20, satellite 2
    from 5 to 8. *)
Definition passes0 (sat gs : INode) (_start _end : Z) (_minElevation : Q)
  : option (list (Z * Z)) :=
  if nodeID sat =? 1 then Some [(10, 20)] else Some [(5, 8)].

(** C5 at the failing input: two worker processes, one satellite each.  The
    claim has every sequence sorted by start after the precompute.  The
    ground station's merged sequence is the first worker's rows followed by
    the second worker's, the pass that starts at 10 before the pass that
    starts at 5, while one process that finds both passes leaves them
    sorted. *)
Theorem compute_FOVs_failing_input :
  let merged := compute_FOVs passes0 isort topology0 statics0 [[fovA]; [fovB]] in
  let alone := compute_FOVs passes0 isort topology0 statics0 [[fovA; fovB]] in
  sequence (nodeToTimes merged) 3 = [mkRow 10 20 1 0; mkRow 5 8 2 0]
  /\ ~ Sorted le_start (sequence (nodeToTimes merged) 3)
  /\ sequence (nodeToTimes merged) 1 = [mkRow 10 20 3 1]
  /\ sequence (nodeToTimes merged) 2 = [mkRow 5 8 3 1]
  /\ sequence (nodeToTimes alone) 3 = [mkRow 5 8 2 0; mkRow 10 20 1 0].
Proof.
  intros merged alone.
  assert (E : sequence (nodeToTimes merged) 3 = [mkRow 10 20 1 0; mkRow 5 8 2 0])
    by (vm_compute; reflexivity).
  split_and!.
  - exact E.
  - rewrite E. intros H. inversion H as [|? ? _ Hhd]; subst.
    inversion Hhd as [|? ? Hle]; subst. unfold le_start in Hle. simpl in Hle. lia.
  - vm_compute. reflexivity.
  - vm_compute. reflexivity.
  - vm_compute. reflexivity.
Qed.

End FovFacts.

(* ===================================================================== *)
(** * Visibility queries on the field-of-view index *)
(* ===================================================================== *)

Module View.
Import Fov.

Section GetView.
Variable get_Passes : INode -> INode -> Z -> Z -> Q -> option (list (Z * Z)).
Variable argsort_start : list Row -> list Row.

(** The mask of [__get_View]:
    [(_fp[:,0] <= _datetime) & (_fp[:,1] >= _datetime)
     & np.isin(_fp[:,3], _targetNodeInt)]. *)
Definition in_view (_targetNodeTypes : list Runtime.ENodeType) (_datetime : Z)
    (r : Row) : bool :=
  (row_start r <=? _datetime) && (_datetime <=? row_end r)
  && existsb (Z.eqb (row_nodeType r))
             (List.map ENodeType_value _targetNodeTypes).

(** [ModelFovTimeBased.__get_View] with the keyword [_targetNodeTypes]
    given; [_myTime] is [None] when the keyword is absent or None.  The ids
    come in the order of the rows. *)
Definition get_View (self : ModelFovTimeBased) (topology : list INode)
    (_targetNodeTypes : list Runtime.ENodeType) (_myTime : option Z)
    (s : Statics) : FovExn * Statics + Statics * list Z :=
  let _myTime :=
    match _myTime with
    | Some t => t
    | None => timestamp (ownernode self)
    end in
  match
    (if preloaded s then inr s
     else find_Passes get_Passes argsort_start self topology _targetNodeTypes s)
  with
  | inl e => inl e
  | inr s1 =>
    match nodeToTimes s1 !! nodeID (ownernode self) with
    | Some (Some _fp) =>
      inr (s1, List.map row_nodeID
                 (List.filter (in_view _targetNodeTypes _myTime) _fp))
    | _ => inr (s1, [])
    end
  end.

End GetView.

End View.

Module ViewFacts.
Import Fov FovFacts View.

Lemma filter_none {A} (f : A -> bool) (l : list A) :
  (forall x, List.In x l -> f x = false) -> List.filter f l = [].
Proof.
  induction l as [|a l IH]; intros H; simpl; [done|].
  rewrite (H a (or_introl eq_refl)). apply IH. intros x Hx. apply H. by right.
Qed.

Lemma existsb_eqb_In (x : Z) (l : list Z) :
  existsb (Z.eqb x) l = true <-> List.In x l.
Proof.
  rewrite existsb_exists. split.
  - intros (y & Hy & E). apply Z.eqb_eq in E. by subst.
  - intros H. exists x. split; [done | apply Z.eqb_refl].
Qed.

Section Settled.
Variable get_Passes : INode -> INode -> Z -> Z -> Q -> option (list (Z * Z)).
Variable argsort_start : list Row -> list Row.

(** A turn of the loop that returns has entered the node under the owner's
    key of [__nodeToNode], and has removed nothing there. *)
Lemma visit_marks self s _node s' :
  visit get_Passes argsort_start self s _node = inr s' ->
  exists l l',
    nodeToNode s !! nodeID (ownernode self) = Some l
    /\ nodeToNode s' !! nodeID (ownernode self) = Some l'
    /\ List.In (nodeID _node) l'
    /\ (forall x, List.In x l -> List.In x l').
Proof.
  unfold visit. intros H.
  destruct (nodeToNode s !! nodeID (ownernode self)) as [mine|] eqn:Hm; [|done].
  cbn [nodeToNode set_nodeToNode] in H.
  destruct (_ !! nodeID _node) as [theirs|] eqn:Ht; [|done].
  assert (K : exists l',
             (<[nodeID _node := (theirs ++ [nodeID (ownernode self)])%list]>
                (<[nodeID (ownernode self) := (mine ++ [nodeID _node])%list]>
                   (nodeToNode s))) !! nodeID (ownernode self) = Some l'
             /\ List.In (nodeID _node) l'
             /\ (forall x, List.In x mine -> List.In x l')).
  { destruct (decide (nodeID _node = nodeID (ownernode self))) as [E|E].
    - rewrite E in *. rewrite lookup_insert_eq in Ht. injection Ht as <-.
      rewrite lookup_insert_eq. eexists. split; [done|].
      split; intros; rewrite !in_app_iff; simpl; auto.
    - rewrite lookup_insert_ne by done. rewrite lookup_insert_eq.
      eexists. split; [done|].
      split; intros; rewrite !in_app_iff; simpl; auto. }
  destruct K as (l' & K1 & K2 & K3).
  exists mine, l'. split; [done|].
  destruct (has_Orbital (ownernode self)).
  - cbn [negb] in H. destruct (get_Passes _ _ _ _ _) as [ps|]; [|done].
    destruct (length ps =? 0)%nat; [by injection H as <-|].
    cbn [nodeToTimes set_nodeToTimes set_nodeToNode] in H.
    destruct (nodeToTimes s !! _) as [o1|]; [|done].
    destruct (nodeToTimes s !! _) as [o2|]; [|done].
    by injection H as <-.
  - destruct (has_Orbital _node); cbn [negb] in H; [|done].
    destruct (get_Passes _ _ _ _ _) as [ps|]; [|done].
    destruct (length ps =? 0)%nat; [by injection H as <-|].
    cbn [nodeToTimes set_nodeToTimes set_nodeToNode] in H.
    destruct (nodeToTimes s !! _) as [o1|]; [|done].
    destruct (nodeToTimes s !! _) as [o2|]; [|done].
    by injection H as <-.
Qed.

Lemma visit_all_marks self nodes : forall s s' l,
  nodeToNode s !! nodeID (ownernode self) = Some l ->
  visit_all get_Passes argsort_start self s nodes = inr s' ->
  exists l',
    nodeToNode s' !! nodeID (ownernode self) = Some l'
    /\ (forall n, List.In n nodes -> List.In (nodeID n) l')
    /\ (forall x, List.In x l -> List.In x l').
Proof.
  induction nodes as [|n rest IH]; intros s s' l Hl H; simpl in H.
  - injection H as <-. exists l. split_and!; done.
  - destruct (visit _ _ _ _ _) as [e|s1] eqn:V; [done|].
    destruct (visit_marks _ _ _ _ V) as (l0 & l1 & A & B & C & D).
    rewrite Hl in A. injection A as <-.
    destruct (IH s1 s' l1 B H) as (l' & E & F & G).
    exists l'. split_and!; [done | | by auto].
    intros m [<-|Hm]; [by apply G | by apply F].
Qed.

(** When [find_Passes] has returned, every target node is entered under
    the owner's key, and a second call with the same targets finds nothing
    left to check: it returns with the statics as they are. *)
Theorem find_Passes_settles self topology types s s1 :
  find_Passes get_Passes argsort_start self topology types s = inr s1 ->
  find_Passes get_Passes argsort_start self topology types s1 = inr s1.
Proof.
  unfold find_Passes. intros H.
  destruct (nodeToNode s !! nodeID (ownernode self)) as [cur|] eqn:Hc; [|done].
  destruct (visit_all_marks _ _ _ _ _ Hc H) as (l' & E & F & G).
  rewrite E. rewrite filter_none; [done|].
  intros n Hn. apply negb_false_iff.
  rewrite existsb_eqb_In.
  destruct (existsb (Z.eqb (nodeID n)) cur) eqn:X.
  - apply G. by apply existsb_eqb_In.
  - apply F. apply filter_In. split; [done|]. by rewrite X.
Qed.




End Settled.

(** One call of [find_Passes] through [call_APIs], whether the handler
    returns or raises, keeps the index symmetric and sorted by start, for any
    sort that [argsort] may stand for. *)
Theorem find_Passes_keeps_index
    (get_Passes : INode -> INode -> Z -> Z -> Q -> option (list (Z * Z)))
    (argsort_start : list Row -> list Row) (kind : Z -> Z)
    self topology types s :
  (forall l, Permutation l (argsort_start l)) ->
  (forall l, Sorted le_start (argsort_start l)) ->
  well_kinded kind (ownernode self) ->
  Forall (well_kinded kind) topology ->
  symmetric kind (sequence (nodeToTimes s)) ->
  sorted (sequence (nodeToTimes s)) ->
  symmetric kind
    (sequence (nodeToTimes
                 (call_find_Passes get_Passes argsort_start self topology types s)))
  /\ sorted
       (sequence (nodeToTimes
                    (call_find_Passes get_Passes argsort_start self topology
                                      types s))).
Proof.
  intros Hp Hs Ko Kt Sym Srt.
  exact (find_Passes_keeps get_Passes argsort_start Hp Hs kind self topology
           types s Ko Kt (conj Sym Srt)).
Qed.


(** The ground station of the example, with its own model. *)
Definition fovG : ModelFovTimeBased := mkModel ground 10%Q.

Definition kind0 (n : Z) : Z := if n =? 3 then 1 else 0.

Lemma statics0_empty n : sequence (nodeToTimes statics0) n = [].
Proof.
  unfold sequence, statics0. cbn [nodeToTimes].
  destruct (_ !! n) as [[l|]|] eqn:H; try done.
  repeat (apply lookup_insert_Some in H as [[_ H]|[_ H]]; [done|]).
  by rewrite lookup_empty in H.
Qed.

Lemma statics0_invariant : invariant kind0 statics0.
Proof.
  split.
  - intros n r Hr. by rewrite statics0_empty in Hr.
  - intros n. rewrite statics0_empty. constructor.
Qed.

Lemma topology0_kinds : Forall (well_kinded kind0) topology0.
Proof. by repeat constructor. Qed.

Lemma find_Passes_settles_witness :
  exists s1,
    find_Passes passes0 isort fovA topology0 [Runtime.GS] statics0 = inr s1
    /\ find_Passes passes0 isort fovA topology0 [Runtime.GS] s1 = inr s1.
Proof.
  destruct (find_Passes passes0 isort fovA topology0 [Runtime.GS] statics0)
    as [e|s1] eqn:H; [vm_compute in H; discriminate|].
  exists s1. split; [reflexivity|].
  exact (find_Passes_settles passes0 isort fovA topology0 [Runtime.GS]
           statics0 s1 H).
Defined.

Lemma find_Passes_keeps_index_witness :
  symmetric kind0
    (sequence (nodeToTimes
                 (call_find_Passes passes0 isort fovA topology0 [Runtime.GS]
                                   statics0)))
  /\ sorted
       (sequence (nodeToTimes
                    (call_find_Passes passes0 isort fovA topology0 [Runtime.GS]
                                      statics0))).
Proof.
  apply (find_Passes_keeps_index passes0 isort kind0 fovA topology0
           [Runtime.GS] statics0 isort_perm isort_sorted).
  - reflexivity.
  - exact topology0_kinds.
  - exact (proj1 statics0_invariant).
  - exact (proj2 statics0_invariant).
Defined.


(** In the example the station is in view of satellite 1 at 15, and the
    satellite in view of the station. *)
Lemma views_example :
  let s := compute_FOVs passes0 isort topology0 statics0 [[fovA]; [fovB]] in
  get_View passes0 isort fovA topology0 [Runtime.GS] (Some 15) s = inr (s, [3])
  /\ get_View passes0 isort fovG topology0 [Runtime.SAT] (Some 15) s
     = inr (s, [1])
  /\ get_View passes0 isort fovG topology0 [Runtime.SAT] (Some 9) s
     = inr (s, []).
Proof. vm_compute. by split_and!. Qed.

End ViewFacts.

(* ===================================================================== *)
(** * More on the LoRa radio device *)
(* ===================================================================== *)

Module LoraMore.
Import Lora LoraFacts.
Local Open Scope Q_scope.

Section SendEdges.
Variable random : nat -> Q.
Variable link : positive -> positive -> Z -> option LinkBudget.
Variable has_PowerModel : positive -> bool.

(** The network once the frame of a call has taken its id. *)
Definition with_next_id (w : Network) : Network :=
  mkNetwork (devices w) (globalFrameIDCounter w + 1)%Z (energyCalls w).

Lemma transmit_all_no_peer self now fid size payload me ch : forall st,
  devices (net st) !! self = Some me ->
  (forall dst, List.In dst ch -> is_peer (net st) me dst = false) ->
  transmit_all random link self now fid size payload st ch = inr st.
Proof.
  induction ch as [|dst rest IH]; intros st Hme Hno; simpl; [done|].
  assert (E : transmit_to random link self now fid size payload st dst = inr st).
  { unfold transmit_to. rewrite Hme.
    pose proof (Hno dst (or_introl eq_refl)) as P. unfold is_peer in P.
    destruct (devices (net st) !! dst) as [dd|]; [|done].
    apply negb_false_iff in P. by rewrite P. }
  rewrite E. apply IH; [done|]. intros d Hd. apply Hno. by right.
Qed.

Lemma transmit_to_counter self now fid size payload st dst st' :
  transmit_to random link self now fid size payload st dst = inr st' ->
  globalFrameIDCounter (net st') = globalFrameIDCounter (net st).
Proof.
  unfold transmit_to. intros H.
  destruct (devices (net st) !! self) as [me|]; [|by injection H as <-].
  destruct (devices (net st) !! dst) as [dd|]; [|by injection H as <-].
  destruct (address dd =? address me)%Z; [by injection H as <-|].
  destruct (get_TimeOnAir _ _) as [e|toa]; [done|].
  destruct (link self dst now) as [b|]; [|done].
  destruct (get_PERFromBER _ _ _ _) as [e|per]; [done|].
  destruct (receive random dd _ _) as [[dst' n'] ok].
  by injection H as <-.
Qed.

Lemma transmit_all_counter self now fid size payload ch : forall st,
  match transmit_all random link self now fid size payload st ch with
  | inl (_, st') => globalFrameIDCounter (net st') = globalFrameIDCounter (net st)
  | inr st' => globalFrameIDCounter (net st') = globalFrameIDCounter (net st)
  end.
Proof.
  induction ch as [|dst rest IH]; intros st; simpl; [done|].
  destruct (transmit_to _ _ _ _ _ _ _ _ _) as [e|st1] eqn:E; [done|].
  specialize (IH st1). rewrite (transmit_to_counter _ _ _ _ _ _ _ _ E) in IH.
  exact IH.
Qed.

Lemma log_Tx_counter w self line :
  globalFrameIDCounter (log_Tx w self line) = globalFrameIDCounter w.
Proof. unfold log_Tx. by destruct (devices w !! self). Qed.

(** Every call of [send] by a device of the network takes exactly one frame
    id, whether the frame is transmitted, rejected, or the call raises. *)
Theorem send_takes_one_id self now size payload idx w n :
  match send random link has_PowerModel self now size payload idx w n with
  | Some out =>
    globalFrameIDCounter (fst (outcome_network out))
    = (globalFrameIDCounter w + 1)%Z
  | None => devices w !! self = None
  end.
Proof.
  unfold send. destruct (devices w !! self) as [me|] eqn:Hme; [|done].
  cbv zeta.
  destruct (get_MTU <? size)%Z; [by simpl; rewrite log_Tx_counter|].
  destruct (is_TxBusy me now); [by simpl; rewrite log_Tx_counter|].
  destruct (length (channels me) =? 0)%nat; [by simpl; rewrite log_Tx_counter|].
  destruct (negb _); [done|].
  destruct (Runtime.py_index _ _) as [ch|]; [|done].
  match goal with
  | |- context [transmit_all _ _ _ _ _ _ _ ?st0 ch] =>
    pose proof (transmit_all_counter self now (globalFrameIDCounter w) size
                  payload ch st0) as C
  end.
  destruct (transmit_all _ _ _ _ _ _ _ _ _) as [[e st]|st]; [done|].
  simpl in C.
  destruct (_ret st).
  - destruct (has_PowerModel self).
    + destruct (py_max _); simpl; [by rewrite log_Tx_counter | done].
    + simpl. by rewrite log_Tx_counter.
  - simpl. by rewrite log_Tx_counter.
Qed.

Lemma peers_nil w me ch :
  peers w me ch = [] -> forall dst, List.In dst ch -> is_peer w me dst = false.
Proof.
  unfold peers. intros H dst Hd.
  destruct (is_peer w me dst) eqn:P; [|done].
  assert (X : List.In dst (List.filter (is_peer w me) ch))
    by (apply filter_In; done).
  by rewrite H in X.
Qed.

(** A frame sent on a channel that holds no device with another address
    goes nowhere: [send] returns [False] with none of the three drop flags
    set, and apart from the frame id taken and the line written nothing
    changes: no window is recorded, no device is handed a frame, the power
    model is not called. *)
Theorem send_without_peer (w : Network) (self : positive) (me : LoraRadioDevice)
    (now size idx : Z) (payload : string) (n : nat) (ch : list positive) :
  devices w !! self = Some me ->
  (size <= get_MTU)%Z ->
  is_TxBusy me now = false ->
  channels me = [ch] ->
  (idx = 0 \/ idx = -1)%Z ->
  peers w me ch = [] ->
  send random link has_PowerModel self now size payload idx w n
  = Some (SendReturns false
            (dropped w self me
               (mkTxLine (globalFrameIDCounter w) size false false false
                         [] [] [] [] [] [])) n).
Proof.
  intros Hme Hsize Hbusy Hch Hidx Hp.
  unfold send. rewrite Hme. cbv zeta.
  apply Z.ltb_ge in Hsize. rewrite Hsize, Hbusy, Hch.
  cbn [length Nat.eqb negb]. rewrite (py_index_single ch idx Hidx).
  rewrite (transmit_all_no_peer self now _ size payload me ch);
    [| done | by apply peers_nil].
  cbn [_ret net _loggerInfo tx_draws]. unfold log_Tx, dropped.
  cbn [devices globalFrameIDCounter energyCalls]. by rewrite Hme.
Qed.

(** With a frame that fits and a free transmitter, a device on two or more
    channels fails the assertion on their number, and a device on one
    channel raises IndexError for any index but 0 and -1.  In both cases
    the frame id is taken and nothing else changes: no line is written. *)
Theorem send_channel_errors (w : Network) (self : positive) (me : LoraRadioDevice)
    (now size idx : Z) (payload : string) (n : nat) :
  devices w !! self = Some me ->
  (size <= get_MTU)%Z ->
  is_TxBusy me now = false ->
  ((2 <= length (channels me))%nat ->
   send random link has_PowerModel self now size payload idx w n
   = Some (SendRaises AssertionError (with_next_id w) n))
  /\ (length (channels me) = 1%nat -> idx <> 0%Z -> idx <> (-1)%Z ->
      send random link has_PowerModel self now size payload idx w n
      = Some (SendRaises IndexError (with_next_id w) n)).
Proof.
  intros Hme Hsize Hbusy. apply Z.ltb_ge in Hsize. split.
  - intros Hl. unfold send. rewrite Hme. cbv zeta. rewrite Hsize, Hbusy.
    destruct (length (channels me)) as [|[|k]]; [lia | lia | done].
  - intros Hl H0 H1. unfold send. rewrite Hme. cbv zeta.
    rewrite Hsize, Hbusy, Hl. cbn [Nat.eqb negb].
    assert (E : Runtime.py_index (channels me) idx = None).
    { unfold Runtime.py_index. rewrite Hl.
      change (Z.of_nat 1) with 1%Z. cbv zeta.
      destruct (Z.leb_spec 0 idx), (Z.ltb_spec idx 1), (Z.ltb_spec idx 0),
        (Z.leb_spec (- (1)) idx); simpl; try done; lia. }
    by rewrite E.
Qed.

(** What [send] does when the transmitter is busy. *)
Lemma send_busy (w : Network) (self : positive) (me : LoraRadioDevice)
    (now size idx : Z) (payload : string) (n : nat) :
  devices w !! self = Some me ->
  (size <= get_MTU)%Z ->
  is_TxBusy me now = true ->
  send random link has_PowerModel self now size payload idx w n
  = Some (SendReturns false
            (dropped w self me
               (mkTxLine (globalFrameIDCounter w) size false true false
                         [] [] [] [] [] [])) n).
Proof.
  intros Hme Hsize Hbusy. apply Z.ltb_ge in Hsize.
  unfold send, dropped, log_Tx. rewrite Hme. cbv zeta. rewrite Hsize, Hbusy.
  cbn [devices globalFrameIDCounter energyCalls]. by rewrite Hme.
Qed.

(** What a transmission leaves of the sender. *)
Lemma send_success (w : Network) (self : positive) (me : LoraRadioDevice)
    (now size idx : Z) (payload : string) (n : nat) ch toa :
  devices w !! self = Some me ->
  (size <= get_MTU)%Z ->
  is_TxBusy me now = false ->
  channels me = [ch] ->
  (idx = 0 \/ idx = -1)%Z ->
  get_TimeOnAir (radioPhySetup me) size = inr toa ->
  (forall dst, List.In dst ch -> is_peer w me dst = true ->
   exists b per,
     link self dst now = Some b
     /\ get_PERFromBER (SNR b) (_sf (radioPhySetup me))
                       (_bits_allowed (radioPhySetup me)) size = inr per) ->
  peers w me ch <> [] ->
  exists w' n' line,
    send random link has_PowerModel self now size payload idx w n
    = Some (SendReturns true w' n')
    /\ devices w' !! self
       = Some (write_Log
                 (set_transmittingTimes me
                    (transmittingTimes me
                     ++ repeat (now, (now + timedelta_us (toa / 1000))%Z)
                               (length (peers w me ch))))
                 (LogTx line)).
Proof.
  intros Hme Hsmall Hbusy Hch Hidx Htoa Hlink Hpeers.
  set (w1 := mkNetwork (devices w) (globalFrameIDCounter w + 1)%Z (energyCalls w)).
  set (info := mkTxLine (globalFrameIDCounter w) size false false false
                        [] [] [] [] [] []).
  assert (Inv0 : tx_inv w1 self me (now, (now + timedelta_us (toa / 1000))%Z)
                        (toa / 1000) [] (mkTxState w1 n 1 info false)).
  { unfold tx_inv. simpl. rewrite set_transmittingTimes_id. split_and!; try done.
    intros j dj _ Hj. exists dj. split; [done | lia]. }
  destruct (transmit_all_ok random link w1 self me now (globalFrameIDCounter w)
              size payload toa ch [] _ Hme Htoa Hlink Inv0) as (st & E & Inv).
  simpl app in Inv. change (peers w1 me ch) with (peers w me ch) in Inv.
  destruct Inv as (I1 & _ & _ & _ & _ & I6 & _ & _ & _ & _ & _ & I12 & _).
  destruct (peers w me ch) as [|p0 ps] eqn:Hp; [done|].
  simpl length in *. simpl in I6.
  unfold send. rewrite Hme. cbv zeta.
  apply Z.ltb_ge in Hsmall. rewrite Hsmall, Hbusy, Hch.
  cbn [length Nat.eqb negb]. rewrite (py_index_single ch idx Hidx).
  fold w1. fold info. rewrite E, I6, I12, py_max_repeat.
  destruct (has_PowerModel self); unfold log_Tx; cbn [devices]; rewrite I1;
    eexists _, _, _; (split; [reflexivity|]);
    cbn [devices]; by rewrite lookup_insert_eq.
Qed.

Lemma is_TxBusy_window d (a b t : Z) (l1 l2 : list (Z * Z)) :
  transmittingTimes d = (l1 ++ (a, b) :: l2)%list ->
  (a <= t < b)%Z -> is_TxBusy d t = true.
Proof.
  intros E [H1 H2]. unfold is_TxBusy. rewrite E, existsb_app. simpl.
  apply Z.leb_le in H1. apply Z.ltb_lt in H2. rewrite H1, H2.
  by rewrite orb_true_r.
Qed.

(** The radio is half duplex on the sending side as well: once a frame is
    transmitted at [now], every call of [send] by the same device at an
    instant from [now] up to the end of the time on air is rejected with
    [busyDrop]. *)
Theorem send_then_busy (w : Network) (self : positive) (me : LoraRadioDevice)
    (now size idx : Z) (payload : string) (n : nat) ch toa :
  devices w !! self = Some me ->
  (size <= get_MTU)%Z ->
  is_TxBusy me now = false ->
  channels me = [ch] ->
  (idx = 0 \/ idx = -1)%Z ->
  get_TimeOnAir (radioPhySetup me) size = inr toa ->
  (forall dst, List.In dst ch -> is_peer w me dst = true ->
   exists b per,
     link self dst now = Some b
     /\ get_PERFromBER (SNR b) (_sf (radioPhySetup me))
                       (_bits_allowed (radioPhySetup me)) size = inr per) ->
  peers w me ch <> [] ->
  exists w' n' me',
    send random link has_PowerModel self now size payload idx w n
    = Some (SendReturns true w' n')
    /\ devices w' !! self = Some me'
    /\ forall t size2 payload2 idx2 n2,
         (now <= t < now + timedelta_us (toa / 1000))%Z ->
         (size2 <= get_MTU)%Z ->
         send random link has_PowerModel self t size2 payload2 idx2 w' n2
         = Some (SendReturns false
                   (dropped w' self me'
                      (mkTxLine (globalFrameIDCounter w') size2 false true false
                                [] [] [] [] [] [])) n2).
Proof.
  intros Hme Hsmall Hbusy Hch Hidx Htoa Hlink Hpeers.
  destruct (send_success w self me now size idx payload n ch toa
              Hme Hsmall Hbusy Hch Hidx Htoa Hlink Hpeers)
    as (w' & n' & line & E & Hd).
  eexists w', n', _. split; [exact E|]. split; [exact Hd|].
  intros t size2 payload2 idx2 n2 Ht Hs2.
  apply send_busy; [done | done |].
  destruct (peers w me ch) as [|p0 ps]; [done|].
  simpl repeat.
  eapply (is_TxBusy_window _ now _ t (transmittingTimes me)); [|exact Ht].
  reflexivity.
Qed.

End SendEdges.

(** A device alone on its channel, and a device on two channels. *)
Definition lone_sender : LoraRadioDevice :=
  mkDevice 1 true true [[1%positive]] [] [] [] false [] phy_sf7 [].
Definition lone_net : Network :=
  mkNetwork (<[1%positive := lone_sender]> ∅) 7 [].
Definition two_channel_sender : LoraRadioDevice :=
  mkDevice 1 true true [[1%positive; 2%positive]; [1%positive]] [] [] []
           false [] phy_sf7 [].
Definition two_channel_net : Network :=
  mkNetwork (<[1%positive := two_channel_sender]> (<[2%positive := peer0]> ∅))
            0 [].

Lemma send_without_peer_witness :
  send half link0 power0 1 0 10 "x" 0 lone_net 0
  = Some (SendReturns false
            (dropped lone_net 1 lone_sender
               (mkTxLine 7 10 false false false [] [] [] [] [] [])) 0).
Proof.
  apply (send_without_peer half link0 power0 lone_net 1 lone_sender 0 10 0
           "x" 0 [1%positive]).
  - reflexivity.
  - unfold get_MTU. lia.
  - reflexivity.
  - reflexivity.
  - by left.
  - reflexivity.
Defined.

Lemma send_channel_errors_witness :
  send half link0 power0 1 0 10 "x" 0 two_channel_net 0
  = Some (SendRaises AssertionError (with_next_id two_channel_net) 0)
  /\ send half link0 power0 1 0 10 "x" 5 net0 0
     = Some (SendRaises IndexError (with_next_id net0) 0).
Proof.
  split.
  - apply (send_channel_errors half link0 power0 two_channel_net 1
             two_channel_sender 0 10 0 "x" 0);
      [reflexivity | unfold get_MTU; lia | reflexivity | simpl; lia].
  - apply (send_channel_errors half link0 power0 net0 1 sender0 0 10 5 "x" 0);
      [reflexivity | unfold get_MTU; lia | reflexivity | reflexivity
       | lia | lia].
Defined.

Lemma send_then_busy_witness :
  exists w' n' me',
    send half link0 power0 1 0 255 "x" 0 net0 0 = Some (SendReturns true w' n')
    /\ devices w' !! 1%positive = Some me'
    /\ send half link0 power0 1 100000 20 "y" 0 w' n'
       = Some (SendReturns false
                 (dropped w' 1 me'
                    (mkTxLine (globalFrameIDCounter w') 20 false true false
                              [] [] [] [] [] [])) n').
Proof.
  edestruct (send_then_busy half link0 power0 net0 1 sender0 0 255 0 "x" 0)
    as (w' & n' & me' & E & Hd & Hb);
    [ reflexivity
    | unfold get_MTU; lia
    | reflexivity
    | reflexivity
    | left; reflexivity
    | vm_compute; reflexivity
    | intros dst _ _; eexists _, _; split;
      [reflexivity | vm_compute; reflexivity]
    | vm_compute; discriminate
    | ].
  exists w', n', me'. split; [exact E|]. split; [exact Hd|].
  apply Hb; [vm_compute; split; [discriminate | reflexivity]
            | unfold get_MTU; lia].
Defined.

Section Updates.
Variable random : nat -> Q.

Lemma conclude_windows d n cur :
  transmittingTimes (fst (conclude random d n cur)) = transmittingTimes d.
Proof.
  unfold conclude. destruct (collidedIDs cur); [|done].
  destruct (existsb _ _); destruct (negb (Qeq_bool _ _)); simpl; try done;
    destruct (negb (Qltb _ _)); simpl; try done;
    unfold deliver; simpl; by destruct (receiveCallBack d).
Qed.

Lemma rx_turn_windows now st :
  transmittingTimes (dev (rx_turn random now st)) = transmittingTimes (dev st).
Proof.
  unfold rx_turn. destruct (nth_error _ _) as [cur|]; [|done].
  destruct (_ <=? _)%Z; [|done].
  destruct (collision_pass _ _) as [[c others] ok].
  destruct ok; [|done].
  pose proof (conclude_windows (set_frames (dev st) others) (draws st) c) as H.
  destruct (conclude _ _ _ _) as [d2 n2]. exact H.
Qed.

Lemma rx_loop_windows now fuel : forall st,
  transmittingTimes (dev (rx_loop random fuel now st)) = transmittingTimes (dev st).
Proof.
  induction fuel as [|fuel IH]; intros st; simpl; [done|].
  destruct (raised st); [done|]. destruct (_ <? _)%nat; [|done].
  by rewrite IH, rx_turn_windows.
Qed.

(** [update_Timestep] never records a transmission.  When it returns, the
    windows left are windows that were there and that end after [now]: a
    transmission that is over is forgotten.  When the comparison of two
    frames raises, the windows are as they were. *)
Theorem update_Timestep_windows (d : LoraRadioDevice) (now : Z) (n : nat) :
  match update_Timestep random d now n with
  | (d', _, false) =>
    Forall (fun w => (now < snd w)%Z) (transmittingTimes d')
    /\ incl (transmittingTimes d') (transmittingTimes d)
  | (d', _, true) => transmittingTimes d' = transmittingTimes d
  end.
Proof.
  unfold update_Timestep.
  set (st := rx_loop random _ now _).
  pose proof (rx_loop_windows now (length (temporaryReceivedFrames d))
                (mkRxState d 0 n false)) as W.
  fold st in W. simpl in W.
  destruct (raised st); [done|].
  unfold forget_transmissions. cbn [transmittingTimes set_transmittingTimes].
  rewrite W. split.
  - apply List.Forall_forall. intros w Hw. apply filter_In in Hw as [_ Hw].
    apply negb_true_iff, Z.leb_gt in Hw.
    destruct (temporaryReceivedFrames (dev st)); lia.
  - intros w Hw. by apply filter_In in Hw as [Hw _].
Qed.

(** What becomes of a frame that is alone on the pending list once its
    reception is over: it leaves the list, and its payload is handed over
    exactly when it carries no collided id, its reception overlaps none of
    the device's own transmissions, its coding rate is the device's, and the
    draw of the generator is not below its packet error rate. *)
Theorem lone_frame_decision (d : LoraRadioDevice) (now : Z) (n : nat)
    (f : LoraFrame) :
  temporaryReceivedFrames d = [f] ->
  (endReceptionTime f <= now)%Z ->
  let ok :=
    match collidedIDs f with [] => true | _ :: _ => false end
    && negb (existsb (overlaps_transmission f) (transmittingTimes d))
    && Qeq_bool (CR f) (_coding_rate (radioPhySetup d))
    && negb (Qltb (random n) (PER f)) in
  exists d' n',
    update_Timestep random d now n = (d', n', false)
    /\ temporaryReceivedFrames d' = []
    /\ successes (logger d')
       = (successes (logger d) ++ if ok then [f] else [])%list
    /\ handed_over d d' (if ok then [f] else []).
Proof.
  intros Hf Hend ok. unfold update_Timestep. rewrite Hf.
  cbn [length rx_loop raised framesIndex dev]. rewrite Hf.
  cbn [length Nat.ltb Nat.leb]. unfold rx_turn.
  cbn [dev framesIndex draws]. rewrite Hf. cbn [nth_error].
  apply Z.leb_le in Hend. rewrite Hend.
  assert (E : frame_eqb f f = true) by (by apply frame_eqb_key).
  cbn [py_remove]. rewrite E. cbn [collision_pass].
  subst ok. unfold conclude. cbn [transmittingTimes set_frames radioPhySetup].
  destruct (collidedIDs f) as [|c cs].
  - destruct (existsb _ _); destruct (Qeq_bool _ _); cbn [negb andb];
      try destruct (Qltb _ _); cbn [negb andb raised dev draws];
      eexists _, _; (split; [reflexivity|]);
      unfold handed_over, deliver, log_Rx, write_Log, forget_transmissions;
      cbn; destruct (receiveCallBack d);
      cbn; rewrite ?successes_app; cbn; rewrite ?app_nil_r; done.
  - cbn [negb andb raised dev draws].
    eexists _, _. split; [reflexivity|].
    unfold handed_over, log_Rx, write_Log, forget_transmissions.
    cbn. destruct (receiveCallBack d);
      cbn; rewrite ?successes_app; cbn; rewrite ?app_nil_r; done.
Qed.

End Updates.

(** The receiver of the one-byte frame of the run example, with the frame
    pending. *)
Definition one_byte_frame : LoraFrame :=
  mkFrame 0 1 1 "x" 1 0 25856 2000 27856 0 0 5 125000 7 (-(130)) [].
Definition receiver1 : LoraRadioDevice :=
  mkDevice 2 true true [[1%positive; 2%positive]] [] [one_byte_frame] []
           false [] phy_sf7 [].

Lemma lone_frame_decision_witness :
  exists d' n',
    update_Timestep half receiver1 1000000 1 = (d', n', false)
    /\ temporaryReceivedFrames d' = []
    /\ successes (logger d') = [one_byte_frame]
    /\ handed_over receiver1 d' [one_byte_frame].
Proof.
  apply (lone_frame_decision half receiver1 1000000 1 one_byte_frame).
  - reflexivity.
  - simpl. lia.
Defined.

(** ** Time on air *)

Lemma Qceil_le (a b : Q) : a <= b -> (Qceil a <= Qceil b)%Z.
Proof.
  intros H. unfold Qceil.
  assert (Qfloor (- b) <= Qfloor (- a))%Z by (apply Qfloor_resp_le; lra).
  lia.
Qed.

(** [get_TimeOnAir] raises ZeroDivisionError exactly for a bandwidth or a
    spreading factor of zero.  Otherwise, with a positive bandwidth and
    spreading factor and a coding rate that is not negative, a longer frame
    never takes less time on air. *)
Theorem get_TimeOnAir_monotone (phy : PhySetup) (len1 len2 : Z) :
  (get_TimeOnAir phy len1 = inl ZeroDivision
   <-> (_bandwidth phy == 0 \/ _sf phy = 0%Z))
  /\ (0 < _bandwidth phy -> (0 < _sf phy)%Z -> 0 <= _coding_rate phy ->
      (len1 <= len2)%Z ->
      exists t1 t2,
        get_TimeOnAir phy len1 = inr t1
        /\ get_TimeOnAir phy len2 = inr t2
        /\ t1 <= t2).
Proof.
  split.
  - unfold get_TimeOnAir. split.
    + destruct (Qeq_bool (_bandwidth phy) 0) eqn:B; simpl.
      * intros _. left. by apply Qeq_bool_iff.
      * destruct (_sf phy =? 0)%Z eqn:S; [|done].
        intros _. right. by apply Z.eqb_eq.
    + intros [H|H].
      * apply Qeq_bool_iff in H. by rewrite H.
      * rewrite H. simpl. by rewrite orb_true_r.
  - intros Hbw Hsf Hcr Hlen. unfold get_TimeOnAir.
    assert (B : Qeq_bool (_bandwidth phy) 0 = false).
    { destruct (Qeq_bool (_bandwidth phy) 0) eqn:B; [|done].
      apply Qeq_bool_iff in B. lra. }
    assert (S : (_sf phy =? 0)%Z = false) by (apply Z.eqb_neq; lia).
    rewrite B, S. cbn [orb]. eexists _, _. split; [reflexivity|].
    split; [reflexivity|]. cbv zeta.
    set (low := if (_sf phy <=? 6)%Z then 1%Z else 0%Z).
    set (sym := 2 ^ _sf phy / _bandwidth phy).
    assert (Hsym : 0 <= sym).
    { unfold sym. apply Qle_shift_div_l; [done|].
      assert (0 < 2 ^ _sf phy) by (apply Qpower_0_lt; lra). lra. }
    set (c1 := Qceil (inject_Z (8 * len1 + 16 + 20 - 4 * _sf phy + 8 - 8 * low)
                      / inject_Z (4 * _sf phy))).
    set (c2 := Qceil (inject_Z (8 * len2 + 16 + 20 - 4 * _sf phy + 8 - 8 * low)
                      / inject_Z (4 * _sf phy))).
    assert (Hc : (c1 <= c2)%Z).
    { apply Qceil_le. apply Qmult_le_compat_r.
      - rewrite <- Zle_Qle. lia.
      - apply Qinv_le_0_compat. replace 0 with (inject_Z 0) by done.
        rewrite <- Zle_Qle. lia. }
    assert (Hq : inject_Z c1 * _coding_rate phy <= inject_Z c2 * _coding_rate phy).
    { apply Qmult_le_compat_r; [|done]. by rewrite <- Zle_Qle. }
    assert (Hm : inject_Z c1 * _coding_rate phy * sym
                 <= inject_Z c2 * _coding_rate phy * sym)
      by (by apply Qmult_le_compat_r).
    lra.
Qed.

Lemma get_TimeOnAir_monotone_witness :
  exists t1 t2,
    get_TimeOnAir phy_sf7 1 = inr t1
    /\ get_TimeOnAir phy_sf7 255 = inr t2
    /\ t1 <= t2.
Proof.
  apply (proj2 (get_TimeOnAir_monotone phy_sf7 1 255)).
  - reflexivity.
  - reflexivity.
  - discriminate.
  - lia.
Defined.

(** ** The packet error rate as a probability *)














End LoraMore.

(* ===================================================================== *)
(** * More on the power model *)
(* ===================================================================== *)

Module PowerMore.
Import Power PowerFacts.
Local Open Scope Q_scope.

Lemma add_KeyToLogs_charge m key :
  currentCharge (add_KeyToLogs m key) = currentCharge m
  /\ minCharge (add_KeyToLogs m key) = minCharge m
  /\ requiredEnergy (add_KeyToLogs m key) = requiredEnergy m.
Proof. unfold add_KeyToLogs. by destruct (bool_decide _). Qed.

(** [has_Energy] never touches the charge and records the request and its
    answer for the summary.  For a tag with a required energy the answer is
    whether the charge reaches it.  For a tag without one the answer is
    whether the charge exceeds the minimum, and the tag is entered with a
    required energy of 0: asked again, the model answers whether the charge
    is not negative, whatever the minimum. *)
Theorem has_Energy_answers (m : ModelPower) (tag : string) :
  let m' := fst (has_Energy m tag) in
  let granted := snd (has_Energy m tag) in
  currentCharge m' = currentCharge m
  /\ tagsRequestedLoggerDict m' !! tag = Some true
  /\ tagsGrantedLoggerDict m' !! tag = Some (Some granted)
  /\ match requiredEnergy m !! tag with
     | Some required => granted = Qle_bool required (currentCharge m)
     | None =>
       granted = negb (Qle_bool (currentCharge m) (minCharge m))
       /\ requiredEnergy m' !! tag = Some 0
       /\ snd (has_Energy m' tag) = Qle_bool 0 (currentCharge m)
     end.
Proof.
  unfold has_Energy.
  destruct (requiredEnergy m !! tag) as [required|] eqn:R; cbn.
  - rewrite !lookup_insert_eq. done.
  - destruct (add_KeyToLogs_charge (write_Log m (LogNoRequirement tag)) tag)
      as (A & B & C).
    rewrite !lookup_insert_eq, A. by split_and!.
Qed.

(** ** The battery over the steps *)




Lemma const_map_lookup {V} (v : V) (tags : list string) (t : string) :
  t ∈ tags ->
  (list_to_map (List.map (fun t => (t, v)) tags) : gmap string V) !! t = Some v.
Proof.
  induction tags as [|a tags IH]; intros H.
  - by apply not_elem_of_nil in H.
  - simpl. destruct (decide (a = t)) as [->|Hne].
    + by rewrite lookup_insert_eq.
    + rewrite lookup_insert_ne by done. apply IH.
      apply elem_of_cons in H as [->|H]; done.
Qed.








(** Every step ends with the summary line and with the statistics of the
    step cleared: no tag is marked requested or granted, nothing is counted
    as consumed or generated, and the out-of-power flag is down. *)
Theorem Execute_resets_statistics (m : ModelPower) (sun : bool) :
  tracked m ->
  exists m' earlier charge generated outOfPower rows,
    Execute m sun = Returns m' tt
    /\ log m' = (earlier ++ [LogPowerStats charge generated outOfPower rows])%list
    /\ List.map (fun row => fst (fst (fst row))) rows = loggingTags m'
    /\ chargeGeneratedLogger m' = 0
    /\ outOfPowerLogger m' = false
    /\ forall t, t ∈ loggingTags m' ->
         tagsRequestedLoggerDict m' !! t = Some false
         /\ tagsGrantedLoggerDict m' !! t = Some None
         /\ tagsConsumedLoggerDict m' !! t = Some 0.
Proof.
  intros T.
  assert (Th := harvest_tracked m sun T).
  destruct (always_on_loop_spec (alwaysOn (harvest m sun)) (harvest m sun) Th)
    as (L1 & _ & _).
  unfold Execute.
  destruct (always_on_loop (harvest m sun) (alwaysOn (harvest m sun)))
    as [m5 rets] eqn:L. cbn [fst] in L1.
  destruct (stats_rows_tracked m5 L1) as [rows Hrows].
  unfold log_Stats. rewrite Hrows.
  eexists _, _, _, _, _, rows. split; [reflexivity|]. cbn.
  split_and!; try done.
  - clear -Hrows. unfold stats_rows in Hrows.
    apply mapM_Some in Hrows.
    induction Hrows as [|a row l rs H _ IH]; [done|].
    cbn. f_equal; [|exact IH].
    destruct (tagsRequestedLoggerDict m5 !! a) as [r|]; [|done].
    destruct (tagsGrantedLoggerDict m5 !! a) as [g|]; [|done].
    destruct (tagsConsumedLoggerDict m5 !! a) as [c|]; [|done].
    by injection H as <-.
  - intros t Ht. split_and!; by apply const_map_lookup.
Qed.


(** A bank at 10 J between 5 J and 20 J, a radio drawing half a watt, an
    always-on computer drawing 2 W, one second per step. *)
Definition bank1 : ModelPower :=
  new_ModelPower [("TXRADIO"%string, 1 # 2); ("CPU"%string, 2)] 10 20 5 1 1
                 ["CPU"%string] [] 1.



Lemma Execute_resets_statistics_witness :
  exists m',
    Execute bank1 false = Returns m' tt
    /\ outOfPowerLogger m' = false
    /\ tagsConsumedLoggerDict m' !! "CPU"%string = Some 0.
Proof.
  destruct (Execute_resets_statistics bank1 false
              (new_ModelPower_tracked _ _ _ _ _ _ _ _ _))
    as (m' & l & c & g & o & rows & E & _ & _ & _ & O & S).
  exists m'. split_and!; [exact E | exact O |].
  apply S.
  assert (X : loggingTags m' = loggingTags bank1).
  { vm_compute in E. by injection E as <-. }
  rewrite X. apply list_elem_of_In. vm_compute. tauto.
Defined.


End PowerMore.

(* ===================================================================== *)
(** * More on the model-composition engine *)
(* ===================================================================== *)

Module OrchestrationMore.
Import Orchestration OrchestrationFacts.

Section Cache.

Variable reg : gmap string (ModelDetails -> option Model).

(** The first loop, entry by entry: what each entry builds, which of the
    built models are kept and for which a warning is printed. *)
Lemma collect_order (n : NodeInstance) (ds : list ModelDetails) :
  forall names temp warn names' temp' warn',
    collect reg n ds names temp warn = inr (names', temp', warn') ->
    exists ms new dropped,
      Forall2 (fun d m => build reg d = Some m) ds ms
      /\ temp' = temp ++ new
      /\ warn' = warn ++ (duplicate_warning n <$> dropped)
      /\ sublist new ms
      /\ (length new + length dropped = length ms)%nat
      /\ (forall i m, ms !! i = Some m ->
            iName m ∉ names ->
            (forall j m', (j < i)%nat -> ms !! j = Some m' -> iName m' <> iName m) ->
            m ∈ new).
Proof.
  induction ds as [|d ds IH]; intros names temp warn names' temp' warn' H.
  - simpl in H. injection H as <- <- <-. exists [], [], [].
    split_and!; try done; by rewrite ?app_nil_r.
  - simpl in H. destruct (build reg d) as [m|] eqn:B; [|done].
    destruct (isThisNodeSupported n m) eqn:Sup; [|done].
    destruct (bool_decide_reflect (iName m ∈ names)) as [Hin|Hin].
    + destruct (IH _ _ _ _ _ _ H) as (ms & new & dropped & F & E1 & E2 & Sub & L & Fst).
      exists (m :: ms), new, (m :: dropped). split_and!.
      * by constructor.
      * done.
      * rewrite E2, <- app_assoc. done.
      * by apply sublist_cons.
      * simpl. lia.
      * intros [|i] m0 Hm0 Hnot Hfirst.
        -- simpl in Hm0. injection Hm0 as <-. done.
        -- simpl in Hm0. apply (Fst i m0 Hm0 Hnot).
           intros j m' Hj Hm'. apply (Hfirst (S j) m'); [lia | done].
    + destruct (IH _ _ _ _ _ _ H) as (ms & new & dropped & F & E1 & E2 & Sub & L & Fst).
      exists (m :: ms), (m :: new), dropped. split_and!.
      * by constructor.
      * rewrite E1, <- app_assoc. done.
      * done.
      * by apply sublist_skip.
      * simpl. lia.
      * intros [|i] m0 Hm0 Hnot Hfirst.
        -- simpl in Hm0. injection Hm0 as <-. apply elem_of_cons. by left.
        -- simpl in Hm0. apply elem_of_cons. right. apply (Fst i m0 Hm0).
           ++ rewrite elem_of_union, elem_of_singleton. intros [E|E]; [|done].
              apply (Hfirst 0%nat m); [lia | done | done].
           ++ intros j m' Hj Hm'. apply (Hfirst (S j) m'); [lia | done].
Qed.

Lemma collect_names (n : NodeInstance) (ds : list ModelDetails) names temp warn :
  collect reg n ds ∅ [] [] = inr (names, temp, warn) ->
  (forall x, x ∈ names <-> x ∈ iName <$> temp)
  /\ NoDup (iName <$> temp)
  /\ (forall m, m ∈ temp -> exists d, d ∈ ds /\ build reg d = Some m).
Proof.
  intros C.
  destruct (collect_spec reg n ds _ _ _ _ _ _ C)
    as (I1 & I2 & (new & I3 & I4) & _ & _).
  { intros x. simpl. rewrite elem_of_nil. set_solver. }
  { simpl. apply NoDup_nil_2. }
  simpl in I3. subst new. split_and!; try done.
  intros m Hm. by destruct (I4 m Hm) as (_ & ?).
Qed.

Lemma find_unresolved_none (temp : list Model) :
  List.find (fun m => negb (model_resolved temp m)) temp = None ->
  slots_resolved temp.
Proof.
  intros F m slot Hm Hs.
  pose proof (List.find_none _ _ F m (proj1 (list_elem_of_In _ _) Hm)) as R.
  apply negb_false_iff in R.
  by apply (proj1 (model_resolved_iff temp m) R).
Qed.

(** The three ways [_add_Models] ends once the first loop has succeeded. *)
Lemma add_Models_after_collect o n ds names temp warn :
  collect reg n ds ∅ [] [] = inr (names, temp, warn) ->
  let o1 := mkOrchestrator (dependencyResolvedSetsOfModels o)
                           (printed o ++ warn) in
  ((names ∈ dependencyResolvedSetsOfModels o)
   /\ _add_Models reg o n ds = Added temp o1)
  \/ ((names ∉ dependencyResolvedSetsOfModels o)
      /\ exists m0, m0 ∈ temp /\ model_resolved temp m0 = false
         /\ _add_Models reg o n ds
            = Raises (DependencyMismatch (iName m0) (nodeID n) names) o1)
  \/ ((names ∉ dependencyResolvedSetsOfModels o)
      /\ slots_resolved temp
      /\ _add_Models reg o n ds
         = Added temp
             (if bool_decide (1 < size names)%nat
              then mkOrchestrator (dependencyResolvedSetsOfModels o ++ [names])
                                  (printed o ++ warn)
              else o1)).
Proof.
  intros C o1. unfold _add_Models. rewrite C. cbn.
  destruct (existsb _ (dependencyResolvedSetsOfModels o)) eqn:Hit.
  { left. split; [by apply cache_hit_iff | done]. }
  assert (Hmiss : names ∉ dependencyResolvedSetsOfModels o).
  { intros Hin. apply cache_hit_iff in Hin. congruence. }
  right. destruct (List.find _ temp) as [m0|] eqn:F.
  - left. split; [done|]. apply List.find_some in F as [Hin R]. exists m0.
    split_and!; [by apply list_elem_of_In | by apply negb_true_iff | done].
  - right. split; [done|]. split; [by apply find_unresolved_none | done].
Qed.

(** The dependency slots a model class declares. *)
Variable deps : string -> list (list string).

(** Every slot of every name of the set holds a name of the set. *)
Definition closed_under (s : gset string) : Prop :=
  forall x slot, x ∈ s -> slot ∈ deps x ->
    exists name, name ∈ slot /\ name ∈ s.

(** When the dependency slots of a model are those of its class, the cache
    of resolved name sets never lets an unresolved list through: if every
    cached set is closed under the dependencies, every list the call hands
    to a node has all its slots met, through the cache or not, and every
    set cached afterwards is closed again. *)
Theorem cache_sound (o : Orchestrator) (n : NodeInstance)
    (ds : list ModelDetails) (added : list Model) (o' : Orchestrator) :
  (forall d m, build reg d = Some m -> dependencyModelClasses m = deps (iName m)) ->
  (forall s, s ∈ dependencyResolvedSetsOfModels o -> closed_under s) ->
  _add_Models reg o n ds = Added added o' ->
  slots_resolved added
  /\ (forall s, s ∈ dependencyResolvedSetsOfModels o' -> closed_under s).
Proof.
  intros Hclass Hcache H.
  destruct (collect reg n ds ∅ [] []) as [e|[[names temp] warn]] eqn:C.
  { unfold _add_Models in H. by rewrite C in H. }
  destruct (collect_names n ds names temp warn C) as (N1 & N2 & N3).
  destruct (add_Models_after_collect o n ds names temp warn C)
    as [(Hit & E)|[(_ & m0 & _ & _ & E)|(Hmiss & Hres & E)]];
    rewrite E in H; [|done|]; injection H as <- <-.
  - split; [|done]. intros m slot Hm Hs.
    destruct (N3 m Hm) as (d & _ & B). rewrite (Hclass d m B) in Hs.
    destruct (Hcache names Hit (iName m) slot) as (name & Hn & Hin); [|done|].
    { apply N1. apply list_elem_of_fmap. by exists m. }
    apply N1, list_elem_of_fmap in Hin as (m' & -> & Hm').
    by exists (iName m'), m'.
  - split; [done|].
    assert (Hnames : closed_under names).
    { intros x slot Hx Hs. apply N1, list_elem_of_fmap in Hx as (m & -> & Hm).
      destruct (N3 m Hm) as (d & _ & B). rewrite <- (Hclass d m B) in Hs.
      destruct (Hres m slot Hm Hs) as (name & m' & Hn & Hm' & <-).
      exists (iName m'). split; [done|]. apply N1, list_elem_of_fmap. by exists m'. }
    intros s Hs. destruct (bool_decide _); cbn in Hs; [|by apply Hcache].
    apply elem_of_app in Hs as [Hs|Hs]; [by apply Hcache|].
    by apply list_elem_of_singleton in Hs as ->.
Qed.

(** A call that hands a list to the node adds at most one set to the cache:
    the set of the names of the list, when it has at least two names and was
    not cached.  The same call made again hands over the same list and
    leaves the cache as it is. *)
Theorem add_Models_again (o : Orchestrator) (n : NodeInstance)
    (ds : list ModelDetails) (added : list Model) (o' : Orchestrator) :
  _add_Models reg o n ds = Added added o' ->
  (dependencyResolvedSetsOfModels o' = dependencyResolvedSetsOfModels o
   \/ exists names,
        dependencyResolvedSetsOfModels o'
        = dependencyResolvedSetsOfModels o ++ [names]
        /\ (names ∉ dependencyResolvedSetsOfModels o)
        /\ (1 < size names)%nat
        /\ forall x, x ∈ names <-> x ∈ iName <$> added)
  /\ exists o'',
       _add_Models reg o' n ds = Added added o''
       /\ dependencyResolvedSetsOfModels o'' = dependencyResolvedSetsOfModels o'.
Proof.
  intros H.
  destruct (collect reg n ds ∅ [] []) as [e|[[names temp] warn]] eqn:C.
  { unfold _add_Models in H. by rewrite C in H. }
  destruct (collect_names n ds names temp warn C) as (N1 & _ & _).
  destruct (add_Models_after_collect o n ds names temp warn C)
    as [(Hit & E)|[(_ & m0 & _ & _ & E)|(Hmiss & Hres & E)]];
    rewrite E in H; [|done|]; injection H as <- <-.
  - split; [by left|].
    destruct (add_Models_after_collect
                (mkOrchestrator (dependencyResolvedSetsOfModels o)
                                (printed o ++ warn)) n ds names temp warn C)
      as [(_ & E')|[(Hmiss' & _)|(Hmiss' & _)]]; [|done|done].
    eexists. split; [exact E' | done].
  - destruct (bool_decide_reflect (1 < size names)%nat) as [Hsz|Hsz].
    + split; [right; by exists names|].
      destruct (add_Models_after_collect
                  (mkOrchestrator (dependencyResolvedSetsOfModels o ++ [names])
                                  (printed o ++ warn)) n ds names temp warn C)
        as [(_ & E')|[(Hmiss' & _)|(Hmiss' & _)]].
      * eexists. split; [exact E' | done].
      * exfalso. apply Hmiss'. cbn. apply elem_of_app. right.
        by apply list_elem_of_singleton.
      * exfalso. apply Hmiss'. cbn. apply elem_of_app. right.
        by apply list_elem_of_singleton.
    + split; [by left|].
      destruct (add_Models_after_collect
                  (mkOrchestrator (dependencyResolvedSetsOfModels o)
                                  (printed o ++ warn)) n ds names temp warn C)
        as [(Hit' & _)|[(_ & m0 & Hm0 & R & _)|(_ & _ & E')]].
      * done.
      * exfalso. assert (X : model_resolved temp m0 = true); [|congruence].
        apply model_resolved_iff. intros slot Hs. by apply (Hres m0 slot).
      * eexists. split; [exact E'|].
        destruct (bool_decide_reflect (1 < size names)%nat); done.
Qed.

(** Of the configured entries with one iname the first is the one kept.
    When the first loop succeeds every entry was built; the list it yields
    is a sublist of the built models in configuration order and holds every
    built model that no earlier one shares its iname with; and each entry
    gave either a model of the list or a printed warning. *)
Theorem collect_first_wins (n : NodeInstance) (ds : list ModelDetails)
    (names : gset string) (temp : list Model) (warn : list string) :
  collect reg n ds ∅ [] [] = inr (names, temp, warn) ->
  exists ms,
    Forall2 (fun d m => build reg d = Some m) ds ms
    /\ sublist temp ms
    /\ NoDup (iName <$> temp)
    /\ (forall i m, ms !! i = Some m ->
          (forall j m', (j < i)%nat -> ms !! j = Some m' -> iName m' <> iName m) ->
          m ∈ temp)
    /\ (length temp + length warn = length ds)%nat.
Proof.
  intros C.
  destruct (collect_names n ds names temp warn C) as (_ & ND & _).
  destruct (collect_order n ds _ _ _ _ _ _ C)
    as (ms & new & dropped & F & E1 & E2 & Sub & L & Fst).
  simpl in E1, E2. subst new warn. exists ms. split_and!; try done.
  - intros i m Hm Hfirst. apply (Fst i m Hm); [set_solver | done].
  - rewrite length_fmap, L. symmetry. by apply Forall2_length in F.
Qed.

(** The first loop stops at the first entry that does not build or whose
    model does not accept the node class, whatever follows it. *)
Theorem add_Models_first_offender (o : Orchestrator) (n : NodeInstance)
    (pre : list ModelDetails) (d : ModelDetails) (post : list ModelDetails) :
  (forall d', d' ∈ pre ->
     exists m, build reg d' = Some m /\ isThisNodeSupported n m = true) ->
  (build reg d = None ->
   exists o', _add_Models reg o n (pre ++ d :: post)
              = Raises (InitError (iname d)) o')
  /\ (forall m, build reg d = Some m -> isThisNodeSupported n m = false ->
      exists o', _add_Models reg o n (pre ++ d :: post) = Raises Unsupported o').
Proof.
  intros Hpre.
  assert (G : forall names temp warn,
            collect reg n (pre ++ d :: post) names temp warn
            = match build reg d with
              | None => inl (InitError (iname d))
              | Some m =>
                if isThisNodeSupported n m
                then collect reg n (pre ++ d :: post) names temp warn
                else inl Unsupported
              end).
  { induction pre as [|a pre IH]; intros names temp warn.
    - simpl. destruct (build reg d) as [m|]; [|done].
      by destruct (isThisNodeSupported n m).
    - destruct (Hpre a) as (ma & Ba & Sa); [by apply elem_of_cons; left|].
      assert (Hpre' : forall d', d' ∈ pre ->
                exists m, build reg d' = Some m /\ isThisNodeSupported n m = true).
      { intros d' Hd'. apply Hpre. by apply elem_of_cons; right. }
      specialize (IH Hpre').
      destruct (build reg d) as [m|] eqn:B.
      + destruct (isThisNodeSupported n m) eqn:S; [done|].
        simpl. rewrite Ba, Sa. destruct (bool_decide _); apply IH.
      + simpl. rewrite Ba, Sa. destruct (bool_decide _); apply IH. }
  split.
  - intros B. exists o. unfold _add_Models. by rewrite G, B.
  - intros m B S. exists o. unfold _add_Models. by rewrite G, B, S.
Qed.

End Cache.

(** The slots of the three example classes. *)
Definition deps0 (name : string) : list (list string) :=
  if String.eqb name "ModelPower"
  then [["ModelFixedOrbit"; "ModelOrbit"; "ModelOrbitOneFullUpdate"]]%string
  else [].

Lemma registry_class_like (d : ModelDetails) (m : Model) :
  build registry d = Some m -> dependencyModelClasses m = deps0 (iName m).
Proof.
  unfold build, registry. intros H.
  destruct (_ !! iname d) as [init|] eqn:L; [|done].
  apply lookup_insert_Some in L as [[_ <-]|[_ L]]; [by injection H as <-|].
  apply lookup_insert_Some in L as [[_ <-]|[_ L]]; [by injection H as <-|].
  apply lookup_insert_Some in L as [[_ <-]|[_ L]]; [by injection H as <-|].
  by rewrite lookup_empty in L.
Qed.

Definition power_and_orbit : list ModelDetails :=
  [mkDetails "ModelPower" []; mkDetails "ModelOrbit" []].

Lemma cache_sound_witness :
  slots_resolved [ModelPower; ModelOrbit]
  /\ closed_under deps0 {["ModelOrbit"%string; "ModelPower"%string]}.
Proof.
  destruct (cache_sound registry deps0 fresh_orchestrator satellite_node
              power_and_orbit [ModelPower; ModelOrbit]
              (mkOrchestrator [{["ModelOrbit"%string; "ModelPower"%string]}] [])
              registry_class_like) as [A B].
  - intros s Hs. by apply not_elem_of_nil in Hs.
  - vm_compute. reflexivity.
  - split; [exact A|]. apply B. cbn. by apply list_elem_of_singleton.
Defined.

Lemma add_Models_again_witness :
  exists o'',
    _add_Models registry
      (mkOrchestrator [{["ModelOrbit"%string; "ModelPower"%string]}] [])
      satellite_node power_and_orbit
    = Added [ModelPower; ModelOrbit] o''
    /\ dependencyResolvedSetsOfModels o''
       = [{["ModelOrbit"%string; "ModelPower"%string]}].
Proof.
  destruct (add_Models_again registry fresh_orchestrator satellite_node
              power_and_orbit [ModelPower; ModelOrbit]
              (mkOrchestrator [{["ModelOrbit"%string; "ModelPower"%string]}] []))
    as [_ (o'' & A & B)].
  - vm_compute. reflexivity.
  - by exists o''.
Defined.

(** The power model configured a second time, with other arguments. *)
Definition power_twice : list ModelDetails :=
  power_and_orbit ++ [mkDetails "ModelPower" [("again"%string, "yes"%string)]].

Lemma collect_first_wins_witness :
  exists ms,
    Forall2 (fun d m => build registry d = Some m)
            power_twice ms
    /\ sublist [ModelPower; ModelOrbit] ms.
Proof.
  destruct (collect_first_wins registry satellite_node
              power_twice
              {["ModelOrbit"%string; "ModelPower"%string]}
              [ModelPower; ModelOrbit]
              [duplicate_warning satellite_node ModelPower])
    as (ms & A & B & _).
  - vm_compute. reflexivity.
  - by exists ms.
Defined.

Lemma add_Models_first_offender_witness :
  exists o',
    _add_Models registry fresh_orchestrator ground_node
      (mkDetails "ModelFovTimeBased" []
       :: mkDetails "ModelOrbit" [] :: [mkDetails "ModelUnknown" []])
    = Raises Unsupported o'.
Proof.
  apply (proj2 (add_Models_first_offender registry fresh_orchestrator ground_node
                  [mkDetails "ModelFovTimeBased" []] (mkDetails "ModelOrbit" [])
                  [mkDetails "ModelUnknown" []]
                  ltac:(intros d' Hd'; apply list_elem_of_singleton in Hd' as ->;
                        by exists ModelFovTimeBased))
          ModelOrbit eq_refl eq_refl).
Defined.

End OrchestrationMore.

(* ===================================================================== *)
(** * The models of a node *)
(* ===================================================================== *)

Module Registry.

(** [imodel.EModelTag], with the values of the enumeration. *)
Inductive EModelTag :=
| POWER | ORBITAL | VIEWOFNODE | BASICLORARADIO | DATAGENERATOR | DATASTORE
| ISL | MAC | ADACS | IMAGING | IMAGINGRADIO | COMPUTE | SCHEDULER.

Definition value (t : EModelTag) : Z :=
  match t with
  | POWER => 0 | ORBITAL => 1 | VIEWOFNODE => 2 | BASICLORARADIO => 3
  | DATAGENERATOR => 4 | DATASTORE => 5 | ISL => 6 | MAC => 7 | ADACS => 8
  | IMAGING => 9 | IMAGINGRADIO => 10 | COMPUTE => 11 | SCHEDULER => 12
  end.

Definition of_value (z : Z) : option EModelTag :=
  match z with
  | 0 => Some POWER | 1 => Some ORBITAL | 2 => Some VIEWOFNODE
  | 3 => Some BASICLORARADIO | 4 => Some DATAGENERATOR | 5 => Some DATASTORE
  | 6 => Some ISL | 7 => Some MAC | 8 => Some ADACS | 9 => Some IMAGING
  | 10 => Some IMAGINGRADIO | 11 => Some COMPUTE | 12 => Some SCHEDULER
  | _ => None
  end.

#[global] Instance EModelTag_eq_dec : EqDecision EModelTag.
Proof. solve_decision. Defined.

#[global] Instance EModelTag_countable : Countable EModelTag.
Proof. apply (inj_countable value of_value). by intros []. Defined.

(** What the nodes read of a model instance. *)
Record IModel := mkIModel {
  iName : string;
  modelTag : EModelTag
}.

(** The model registry of [SatelliteBasic]. *)
Module SatelliteBasic.

Record Models := mkModels {
  __models : list IModel;
  __tagToModels : gmap EModelTag IModel
}.

(** The two fields as [__init__] leaves them. *)
Definition new : Models := mkModels [] ∅.

(** [SatelliteBasic.add_Models]. *)
Definition add_Models (self : Models) (_modelsToAdd : list IModel) : Models :=
  mkModels (__models self ++ _modelsToAdd)
           (List.fold_left (fun d _model => <[modelTag _model := _model]> d)
                           _modelsToAdd (__tagToModels self)).

(** [SatelliteBasic.has_ModelWithTag]. *)
Definition has_ModelWithTag (self : Models) (_modelTag : EModelTag)
  : option IModel :=
  __tagToModels self !! _modelTag.

(** [SatelliteBasic.has_ModelWithName]. *)
Definition has_ModelWithName (self : Models) (_modelName : string)
  : option IModel :=
  List.find (fun _model => String.eqb (iName _model) _modelName) (__models self).

(** [SatelliteBasic.get_Models]. *)
Definition get_Models (self : Models) : list IModel := __models self.

End SatelliteBasic.

(** The model registry of [GSBasic]: the list alone. *)
Module GSBasic.

Record Models := mkModels {
  __models : list IModel
}.

Definition new : Models := mkModels [].

(** [GSBasic.add_Models]. *)
Definition add_Models (self : Models) (_modelsToAdd : list IModel) : Models :=
  mkModels (__models self ++ _modelsToAdd).

(** [GSBasic.has_ModelWithTag]. *)
Definition has_ModelWithTag (self : Models) (_modelTag : EModelTag)
  : option IModel :=
  List.find (fun _model => value (modelTag _model) =? value _modelTag)
            (__models self).

(** [GSBasic.has_ModelWithName]. *)
Definition has_ModelWithName (self : Models) (_modelName : string)
  : option IModel :=
  List.find (fun _model => String.eqb (iName _model) _modelName) (__models self).

(** [GSBasic.get_Models]. *)
Definition get_Models (self : Models) : list IModel := __models self.

End GSBasic.

(** The test "this model carries the tag". *)
Definition tagged (tag : EModelTag) (m : IModel) : bool :=
  value (modelTag m) =? value tag.

Lemma tagged_iff tag m : tagged tag m = true <-> modelTag m = tag.
Proof.
  unfold tagged. rewrite Z.eqb_eq. split; [|by intros ->].
  by destruct (modelTag m), tag.
Qed.

Lemma find_append {A} (P : A -> bool) (l1 l2 : list A) :
  List.find P (l1 ++ l2)
  = match List.find P l1 with
    | Some x => Some x
    | None => List.find P l2
    end.
Proof.
  induction l1 as [|a l1 IH]; [done|]. simpl. by destruct (P a).
Qed.

(** The dictionary filled model by model holds, under a tag, the last model
    of the list with that tag. *)
Lemma tag_index_last (l : list IModel) (d : gmap EModelTag IModel)
    (tag : EModelTag) :
  List.fold_left (fun d m => <[modelTag m := m]> d) l d !! tag
  = match List.find (tagged tag) (List.rev l) with
    | Some m => Some m
    | None => d !! tag
    end.
Proof.
  revert d. induction l as [|a l IH]; intros d; [done|].
  simpl. rewrite IH, find_append. destruct (List.find _ (List.rev l)); [done|].
  simpl. destruct (tagged tag a) eqn:T.
  - apply tagged_iff in T as <-. apply lookup_insert_eq.
  - rewrite lookup_insert_ne; [done|]. intros E.
    apply tagged_iff in E. congruence.
Qed.

Lemma find_rev_unique (tag : EModelTag) (l : list IModel) :
  List.NoDup (List.map modelTag l) ->
  List.find (tagged tag) (List.rev l) = List.find (tagged tag) l.
Proof.
  induction l as [|a l IH]; intros ND; [done|].
  simpl in ND. apply List.NoDup_cons_iff in ND as [Hnot ND].
  simpl. rewrite find_append, (IH ND). simpl.
  destruct (tagged tag a) eqn:T; [|by destruct (List.find _ l)].
  destruct (List.find (tagged tag) l) as [m|] eqn:F; [|done].
  apply List.find_some in F as [Hin Tm]. exfalso. apply Hnot.
  apply tagged_iff in T, Tm. rewrite T, <- Tm. by apply List.in_map.
Qed.

Lemma sat_registry (batches : list (list IModel)) (r : SatelliteBasic.Models) :
  SatelliteBasic.__models (List.fold_left SatelliteBasic.add_Models batches r)
  = SatelliteBasic.__models r ++ List.concat batches
  /\ SatelliteBasic.__tagToModels
       (List.fold_left SatelliteBasic.add_Models batches r)
     = List.fold_left (fun d m => <[modelTag m := m]> d) (List.concat batches)
                      (SatelliteBasic.__tagToModels r).
Proof.
  revert r. induction batches as [|b batches IH]; intros r.
  - simpl. by rewrite app_nil_r.
  - simpl. destruct (IH (SatelliteBasic.add_Models r b)) as [-> ->].
    simpl. by rewrite <- app_assoc, List.fold_left_app.
Qed.

Lemma gs_registry (batches : list (list IModel)) (r : GSBasic.Models) :
  GSBasic.__models (List.fold_left GSBasic.add_Models batches r)
  = GSBasic.__models r ++ List.concat batches.
Proof.
  revert r. induction batches as [|b batches IH]; intros r.
  - simpl. by rewrite app_nil_r.
  - simpl. rewrite IH. simpl. by rewrite <- app_assoc.
Qed.

(** After any calls of [add_Models] both node classes list the models in the
    order they were added and find a model by name in the same way: the
    first of that name.  By tag they differ: a satellite answers with the
    last model added under the tag, a ground station with the first.  Both
    find a model under the same tags, and the same one when no two models
    share a tag. *)
Theorem has_ModelWithTag_last_or_first (batches : list (list IModel))
    (tag : EModelTag) (name : string) :
  let sat := List.fold_left SatelliteBasic.add_Models batches SatelliteBasic.new in
  let gs := List.fold_left GSBasic.add_Models batches GSBasic.new in
  let all := List.concat batches in
  SatelliteBasic.get_Models sat = all
  /\ GSBasic.get_Models gs = all
  /\ SatelliteBasic.has_ModelWithTag sat tag
     = List.find (tagged tag) (List.rev all)
  /\ GSBasic.has_ModelWithTag gs tag = List.find (tagged tag) all
  /\ (is_Some (SatelliteBasic.has_ModelWithTag sat tag)
      <-> is_Some (GSBasic.has_ModelWithTag gs tag))
  /\ (List.NoDup (List.map modelTag all) ->
      SatelliteBasic.has_ModelWithTag sat tag = GSBasic.has_ModelWithTag gs tag)
  /\ SatelliteBasic.has_ModelWithName sat name
     = GSBasic.has_ModelWithName gs name.
Proof.
  intros sat gs all.
  destruct (sat_registry batches SatelliteBasic.new) as [S1 S2].
  pose proof (gs_registry batches GSBasic.new) as G1.
  simpl in S1, S2, G1. fold sat in S1, S2. fold gs in G1. fold all in S1, S2, G1.
  assert (St : SatelliteBasic.has_ModelWithTag sat tag
               = List.find (tagged tag) (List.rev all)).
  { unfold SatelliteBasic.has_ModelWithTag. rewrite S2, tag_index_last.
    destruct (List.find _ _); [done | apply lookup_empty]. }
  assert (Gt : GSBasic.has_ModelWithTag gs tag = List.find (tagged tag) all).
  { unfold GSBasic.has_ModelWithTag. by rewrite G1. }
  split_and!; try done.
  - rewrite St, Gt. split; intros [m F]; apply List.find_some in F as [Hin T].
    + destruct (List.find (tagged tag) all) as [m'|] eqn:F'; [done|].
      apply (proj2 (List.in_rev _ _)) in Hin.
      by rewrite (List.find_none _ _ F' m Hin) in T.
    + destruct (List.find (tagged tag) (List.rev all)) as [m'|] eqn:F'; [done|].
      apply (proj1 (List.in_rev _ _)) in Hin.
      by rewrite (List.find_none _ _ F' m Hin) in T.
  - intros ND. rewrite St, Gt. by apply find_rev_unique.
  - unfold SatelliteBasic.has_ModelWithName, GSBasic.has_ModelWithName.
    by rewrite S1, G1.
Qed.

(** Two orbital models on one node: the satellite asks the fixed orbit, the
    ground station the propagated one. *)
Example two_orbital_models :
  let batch := [mkIModel "ModelOrbit" ORBITAL; mkIModel "ModelPower" POWER;
                mkIModel "ModelFixedOrbit" ORBITAL] in
  SatelliteBasic.has_ModelWithTag
    (SatelliteBasic.add_Models SatelliteBasic.new batch) ORBITAL
  = Some (mkIModel "ModelFixedOrbit" ORBITAL)
  /\ GSBasic.has_ModelWithTag (GSBasic.add_Models GSBasic.new batch) ORBITAL
     = Some (mkIModel "ModelOrbit" ORBITAL).
Proof. split; vm_compute; reflexivity. Qed.

End Registry.

(* ===================================================================== *)
(** * The topology as a container *)
(* ===================================================================== *)

Module Topologies.
Import Runtime.

(** The fields of a [Topology] object. *)
Record TopologyObj := mkTopologyObj {
  __id : Z;
  __name : string;
  __nodes : list Node;
  __nodeIDToNodeMap : gmap Z Node
}.

(** [Topology.__init__]. *)
Definition new_Topology (_name : string) (_id : Z) : TopologyObj :=
  mkTopologyObj _id _name [] ∅.

(** A call returns or raises; the object is as the call left it either way. *)
Inductive AddOutcome :=
| AddReturns (t : TopologyObj)
| AddRaises (t : TopologyObj) (exn : string).

Definition after (o : AddOutcome) : TopologyObj :=
  match o with
  | AddReturns t => t
  | AddRaises t _ => t
  end.

(** [Topology.add_Node]; [None] is Python's [None]. *)
Definition add_Node (self : TopologyObj) (_node : option Node) : AddOutcome :=
  match _node with
  | None => AddReturns self
  | Some n =>
      let nodes' := __nodes self ++ [n] in
      match __nodeIDToNodeMap self !! nodeID n with
      | None =>
          AddReturns (mkTopologyObj (__id self) (__name self) nodes'
                        (<[nodeID n := n]> (__nodeIDToNodeMap self)))
      | Some _ =>
          AddRaises (mkTopologyObj (__id self) (__name self) nodes'
                       (__nodeIDToNodeMap self))
                    "Node ID already exists in the topology"
      end
  end.

(** [Topology.get_Node]. *)
Definition get_Node (self : TopologyObj) (_nodeId : Z) : option Node :=
  __nodeIDToNodeMap self !! _nodeId.

(** The [nodes] property. *)
Definition nodes (self : TopologyObj) : list Node := __nodes self.

(** Calls of [add_Node] one after the other on the same object, the caller
    going on after an exception. *)
Definition add_Nodes (self : TopologyObj) (l : list (option Node)) : TopologyObj :=
  List.fold_left (fun t n => after (add_Node t n)) l self.

(** The index agrees with the list: under an id it holds the first node of
    the list with that id. *)
Definition indexed (t : TopologyObj) : Prop :=
  forall k, __nodeIDToNodeMap t !! k
            = List.find (fun n => nodeID n =? k) (__nodes t).

Lemma find_last {A} (P : A -> bool) (l : list A) (a : A) :
  List.find P (l ++ [a])
  = match List.find P l with
    | Some x => Some x
    | None => if P a then Some a else None
    end.
Proof.
  induction l as [|b l IH]; [done|]. simpl. by destruct (P b).
Qed.

Lemma add_Node_indexed (t : TopologyObj) (n : option Node) :
  indexed t -> indexed (after (add_Node t n)).
Proof.
  intros I. destruct n as [n|]; [|done]. unfold add_Node.
  destruct (__nodeIDToNodeMap t !! nodeID n) as [old|] eqn:L; intros k; simpl;
    rewrite find_last, <- (I k).
  - destruct (__nodeIDToNodeMap t !! k) eqn:Lk; [done|].
    destruct (Z.eqb_spec (nodeID n) k) as [E|E]; [congruence | done].
  - destruct (Z.eqb_spec (nodeID n) k) as [<-|E].
    + by rewrite lookup_insert_eq, L.
    + rewrite lookup_insert_ne by done. by destruct (__nodeIDToNodeMap t !! k).
Qed.

Lemma add_Node_nodes (t : TopologyObj) (n : option Node) :
  __nodes (after (add_Node t n)) = __nodes t ++ option_list n
  /\ __id (after (add_Node t n)) = __id t.
Proof.
  destruct n as [n|]; simpl; [|by rewrite app_nil_r].
  by destruct (__nodeIDToNodeMap t !! nodeID n).
Qed.

(** A topology filled by any calls of [add_Node]: the node list holds every
    node that was passed, in order, a node rejected for its id included;
    [get_Node] answers with the first node of that list with the id, which
    is what the look-up over the list of [Runtime] gives; and a call raises
    exactly when a node with the id was passed before. *)
Theorem get_Node_first_added (_name : string) (_id : Z)
    (l : list (option Node)) (n : Node) (k : Z) :
  let t := add_Nodes (new_Topology _name _id) l in
  nodes t = List.concat (List.map option_list l)
  /\ get_Node t k = List.find (fun n => nodeID n =? k) (nodes t)
  /\ get_Node t k = Runtime.get_Node (mkTopology (__id t) (nodes t)) k
  /\ ((exists exn t', add_Node t (Some n) = AddRaises t' exn)
      <-> exists n', List.In (Some n') l /\ nodeID n' = nodeID n)
  /\ nodes (after (add_Node t (Some n))) = nodes t ++ [n].
Proof.
  intros t.
  assert (G : forall l t0, indexed t0 ->
            indexed (add_Nodes t0 l)
            /\ __nodes (add_Nodes t0 l)
               = __nodes t0 ++ List.concat (List.map option_list l)).
  { clear. induction l as [|a l IH]; intros t0 I.
    - simpl. by rewrite app_nil_r.
    - change (add_Nodes t0 (a :: l)) with (add_Nodes (after (add_Node t0 a)) l).
      destruct (IH (after (add_Node t0 a)) (add_Node_indexed t0 a I))
        as [I' E].
      split; [exact I'|]. rewrite E.
      rewrite (proj1 (add_Node_nodes t0 a)). simpl. by rewrite <- app_assoc. }
  destruct (G l (new_Topology _name _id)) as [I E]; [by intros k'|].
  fold t in I, E. simpl in E. unfold nodes, get_Node.
  split_and!; try done.
  - split.
    + intros (exn & t' & H). unfold add_Node in H.
      destruct (__nodeIDToNodeMap t !! nodeID n) as [n'|] eqn:L; [|done].
      rewrite (I (nodeID n)) in L. apply List.find_some in L as [Hin Hid].
      exists n'. split; [|by apply Z.eqb_eq].
      rewrite E in Hin. apply List.in_concat in Hin as (x & Hx & Hn').
      apply List.in_map_iff in Hx as ([a|] & <- & Ha); simpl in Hn'; [|done].
      by destruct Hn' as [->|[]].
    + intros (n' & Hin & Hid). unfold add_Node.
      destruct (__nodeIDToNodeMap t !! nodeID n) as [old|] eqn:L; [by eexists _, _|].
      exfalso. rewrite (I (nodeID n)) in L.
      assert (Hn' : List.In n' (__nodes t)).
      { rewrite E. apply List.in_concat. exists [n']. split; [|by left].
        apply List.in_map_iff. by exists (Some n'). }
      pose proof (List.find_none _ _ L n' Hn') as X. simpl in X.
      apply Z.eqb_neq in X. done.
  - apply (add_Node_nodes t (Some n)).
Qed.

End Topologies.

(* ===================================================================== *)
(** * More on the run loop and the node clocks *)
(* ===================================================================== *)

Module RuntimeMore.
Import Runtime RuntimeFacts.

(** [SatelliteBasic.ExecuteCntd] and [GSBasic.ExecuteCntd]: the [while] loop
    with a bound on the number of tests of its condition; [None] when the
    bound is reached. *)
Fixpoint ExecuteCntd (fuel : nat) (w : World) (n : Node) : option World :=
  match fuel with
  | O => None
  | S fuel' =>
      let now := time_of (store w) (timestamp n) in
      if now <=? endTimeStamp n then
        (* for _model in self.__models: _model.Execute() *)
        let w1 := mkWorld (store w) (ran w ++ [(nodeID n, now)]) in
        (* self.__timestamp.add_seconds(self.__timedelta) *)
        ExecuteCntd fuel'
          (mkWorld (add_seconds (store w1) (timestamp n) (timedelta n)) (ran w1)) n
      else Some w
  end.

(** The number of instants [t0, t0 + delta, ...] that are not after the end
    time. *)
Definition horizon (t0 tEnd delta : Z) : Z :=
  Z.max 0 ((tEnd - t0) / delta + 1).

Lemma horizon_test (t0 tEnd delta k : Z) :
  0 < delta -> 0 <= k ->
  (t0 + Z.min k (horizon t0 tEnd delta) * delta <=? tEnd)
  = (k <? horizon t0 tEnd delta).
Proof.
  intros Hd Hk. unfold horizon.
  pose proof (Z.mul_div_le (tEnd - t0) delta Hd) as L.
  pose proof (Z.mul_succ_div_gt (tEnd - t0) delta Hd) as U.
  set (q := (tEnd - t0) / delta) in *.
  destruct (Z.leb_spec (t0 + Z.min k (Z.max 0 (q + 1)) * delta) tEnd) as [A|A];
    destruct (Z.ltb_spec k (Z.max 0 (q + 1))) as [B|B]; try done; exfalso.
  - rewrite Z.min_r in A by lia.
    destruct (Z.max_spec 0 (q + 1)) as [[_ E]|[_ E]]; rewrite E in A; nia.
  - rewrite Z.min_l in A by lia.
    assert (k <= q) by lia. nia.
Qed.

Lemma horizon_next (t0 tEnd delta : Z) :
  0 < delta -> t0 <= tEnd ->
  horizon t0 tEnd delta = horizon (t0 + delta) tEnd delta + 1.
Proof.
  intros Hd Ht. unfold horizon.
  replace (tEnd - (t0 + delta)) with ((tEnd - t0) + (-1) * delta) by lia.
  rewrite Z.div_add by lia.
  assert (0 <= (tEnd - t0) / delta) by (apply Z.div_pos; lia).
  lia.
Qed.

Lemma horizon_past (t0 tEnd delta : Z) :
  0 < delta -> tEnd < t0 -> horizon t0 tEnd delta = 0.
Proof.
  intros Hd Ht. unfold horizon.
  assert ((tEnd - t0) / delta < 0) by (apply Z.div_lt_upper_bound; lia).
  lia.
Qed.

Lemma steps_clock_saturates (k : nat) ts w n t0 :
  List.NoDup (List.map timestamp (all_nodes ts)) ->
  List.In n (all_nodes ts) ->
  store w !! timestamp n = Some (OTime t0) ->
  0 < timedelta n ->
  store (steps k ts w) !! timestamp n
  = Some (OTime (t0 + Z.min (Z.of_nat k) (horizon t0 (endTimeStamp n) (timedelta n))
                      * timedelta n)).
Proof.
  intros ND HIn Ht Hd.
  assert (HK : 0 <= horizon t0 (endTimeStamp n) (timedelta n))
    by (unfold horizon; lia).
  induction k as [|k IH].
  - simpl. rewrite Ht. do 2 f_equal. rewrite Z.min_l by lia. lia.
  - simpl. unfold run_OneStep.
    destruct (run_nodes_clock (all_nodes ts) (steps k ts w) n _ ND HIn IH) as [E _].
    rewrite E, horizon_test by lia. do 2 f_equal.
    destruct (Z.ltb_spec (Z.of_nat k) (horizon t0 (endTimeStamp n) (timedelta n))).
    + rewrite !Z.min_l by lia. lia.
    + rewrite !Z.min_r by lia. lia.
Qed.

(** The clock of a node stops at the first instant after its end time.  For
    a node with a positive step whose clock object is its own, started at
    [t0]: after [k] steps of the run the clock shows [t0 + min(k, K) * delta],
    where [K] counts the instants [t0 + i * delta] not after the end time;
    so it is after the end time exactly from step [K] on, and never more
    than one step after it. *)
Theorem clock_stops_after_end (k : nat) (ts : list Topology) (w : World)
    (n : Node) (t0 : Z) :
  List.NoDup (List.map timestamp (all_nodes ts)) ->
  List.In n (all_nodes ts) ->
  store w !! timestamp n = Some (OTime t0) ->
  0 < timedelta n ->
  t0 <= endTimeStamp n ->
  let K := horizon t0 (endTimeStamp n) (timedelta n) in
  let now := time_of (store (steps k ts w)) (timestamp n) in
  now = t0 + Z.min (Z.of_nat k) K * timedelta n
  /\ (endTimeStamp n < now <-> K <= Z.of_nat k)
  /\ now <= endTimeStamp n + timedelta n.
Proof.
  intros ND HIn Ht Hd Hend K now.
  assert (E : now = t0 + Z.min (Z.of_nat k) K * timedelta n).
  { unfold now, time_of. by rewrite (steps_clock_saturates k ts w n t0). }
  pose proof (horizon_test t0 (endTimeStamp n) (timedelta n) (Z.of_nat k) Hd
                ltac:(lia)) as T.
  fold K in T. rewrite <- E in T.
  split; [exact E|]. split.
  - destruct (Z.leb_spec now (endTimeStamp n)), (Z.ltb_spec (Z.of_nat k) K);
      try done; lia.
  - pose proof (horizon_test t0 (endTimeStamp n) (timedelta n) (K - 1) Hd) as T1.
    fold K in T1.
    assert (1 <= K).
    { unfold K. rewrite (horizon_next _ _ _ Hd Hend). unfold horizon. lia. }
    specialize (T1 ltac:(lia)). rewrite Z.min_l in T1 by lia.
    replace (K - 1 <? K) with true in T1 by (symmetry; apply Z.ltb_lt; lia).
    apply Z.leb_le in T1.
    assert (Z.min (Z.of_nat k) K <= K) by lia.
    rewrite E. nia.
Qed.

Lemma driver_steps_add (a b : nat) (m : Manager) :
  driver_steps (a + b) m = driver_steps b (driver_steps a m).
Proof.
  revert m. induction a as [|a IH]; intros m; [done|]. simpl. apply IH.
Qed.

Lemma driver_exit_stays (j : nat) (m : Manager) :
  pc m = AtExit -> driver_steps j m = m.
Proof.
  intros H. induction j as [|j IH]; [done|].
  simpl. unfold driver_step. by rewrite H.
Qed.

(** [run_Sim] on a manager nobody asked to pause returns: after the loop
    test and the step body of each of the steps and one last loop test the
    driver is out of the loop, every step was executed once, the counter is
    the number of steps (0 when that number is negative), the stopping event
    is set, and nothing moves afterwards. *)
Theorem run_Sim_completes (ts : list Topology) (N workers : Z) (w0 : World)
    (j : nat) :
  let m := driver_steps (2 * Z.to_nat N + 1 + j) (new_Manager ts N workers w0) in
  pc m = AtExit
  /\ currentStep m = Z.max 0 N
  /\ world m = steps (Z.to_nat N) ts w0
  /\ stoppingCondition m = true
  /\ resumingCondition m = false
  /\ timeStepToStop m = None.
Proof.
  intros m. subst m. rewrite driver_steps_add, driver_steps_add.
  set (m0 := new_Manager ts N workers w0).
  set (m1 := driver_steps (2 * Z.to_nat N) m0).
  assert (H1 : pc m1 = AtLoopHead /\ currentStep m1 = Z.max 0 N
               /\ world m1 = steps (Z.to_nat N) ts w0
               /\ timeStepToStop m1 = None /\ numOfSteps m1 = N
               /\ resumingCondition m1 = false).
  { destruct (Z.le_gt_cases 0 N) as [HN|HN].
    - destruct (driver_free_run (Z.to_nat N) m0)
        as (P1 & P2 & P3 & P4 & _ & P6 & _ & P8); [done | exact I | simpl; lia |].
      fold m1 in P1, P2, P3, P4, P6, P8.
      split_and!; try done. rewrite P2. simpl. lia.
    - unfold m1. replace (Z.to_nat N) with 0%nat by lia. simpl.
      split_and!; try done. lia. }
  destruct H1 as (P1 & P2 & P3 & P4 & P5 & P6).
  assert (E : driver_steps 1 m1 = set_pc (set_stopping m1 true) AtExit).
  { simpl. unfold driver_step. rewrite P1, P2, P5.
    by replace (Z.max 0 N <? N) with false by (symmetry; apply Z.ltb_ge; lia). }
  rewrite E, driver_exit_stays by done. simpl. done.
Qed.

(** [ExecuteCntd] returns when the step is positive: it runs the models at
    every instant [t0 + i * delta] not after the end time, in order, and
    leaves the clock at the first instant after it.  It does what that many
    calls of [Execute] do, and a call of [Execute] after it does nothing. *)
Theorem ExecuteCntd_runs_to_end (fuel : nat) (w : World) (n : Node) (t0 : Z) :
  store w !! timestamp n = Some (OTime t0) ->
  0 < timedelta n ->
  let K := Z.to_nat (horizon t0 (endTimeStamp n) (timedelta n)) in
  (K < fuel)%nat ->
  exists w',
    ExecuteCntd fuel w n = Some w'
    /\ w' = Nat.iter K (fun w => fst (Execute w n)) w
    /\ store w' !! timestamp n = Some (OTime (t0 + Z.of_nat K * timedelta n))
    /\ endTimeStamp n < t0 + Z.of_nat K * timedelta n
    /\ ran w' = ran w ++ List.map (fun i => (nodeID n, t0 + Z.of_nat i * timedelta n))
                                  (List.seq 0 K)
    /\ Execute w' n = (w', false).
Proof.
  intros Ht Hd. cbv zeta. revert w t0 Ht.
  induction fuel as [|fuel IH]; intros w t0 Ht Hf; [lia|].
  cbn [ExecuteCntd].
  replace (time_of (store w) (timestamp n)) with t0
    by (unfold time_of; by rewrite Ht).
  destruct (Z.leb_spec t0 (endTimeStamp n)) as [Hle|Hgt].
  - rewrite (horizon_next _ _ _ Hd Hle) in Hf |- *.
    set (K' := horizon (t0 + timedelta n) (endTimeStamp n) (timedelta n)) in *.
    assert (HK' : 0 <= K') by (unfold K', horizon; lia).
    replace (Z.to_nat (K' + 1)) with (S (Z.to_nat K')) in Hf |- * by lia.
    set (w1 := mkWorld (add_seconds (store w) (timestamp n) (timedelta n))
                       (ran w ++ [(nodeID n, t0)])).
    assert (E1 : fst (Execute w n) = w1).
    { unfold Execute, time_of. rewrite Ht.
      by replace (t0 <=? endTimeStamp n) with true
        by (symmetry; apply Z.leb_le; lia). }
    destruct (IH w1 (t0 + timedelta n)) as (w' & R & I1 & I2 & I3 & I4 & I5).
    { by apply time_of_add_seconds_same. }
    { fold K'. lia. }
    fold K' in I1, I2, I3, I4.
    exists w'. split; [exact R|]. split_and!.
    + rewrite Nat.iter_succ_r, E1. exact I1.
    + rewrite I2. do 2 f_equal. lia.
    + lia.
    + rewrite I4. cbn [ran w1]. rewrite <- app_assoc. f_equal.
      cbn [List.seq List.map]. rewrite <- List.seq_shift, List.map_map.
      cbn [app]. f_equal; [f_equal; lia|].
      apply List.map_ext. intros i. f_equal. lia.
    + exact I5.
  - rewrite (horizon_past _ _ _ Hd Hgt). simpl.
    exists w. split_and!; try done.
    + rewrite Ht. do 2 f_equal. lia.
    + lia.
    + by rewrite app_nil_r.
    + unfold Execute, time_of. rewrite Ht.
      by replace (t0 <=? endTimeStamp n) with false
        by (symmetry; apply Z.leb_gt; lia).
Qed.


(** [get_Position] settles: once it has returned a Location object for the
    node's instant, asking again returns that same object and changes
    nothing; the first call changes no object but the position dictionary
    of the node, and leaves the clock alone. *)
Theorem get_Position_settles (h : gmap positive Obj) (n : Node) (t : Z)
    (r : positive) (h' : gmap positive Obj) :
  h !! timestamp n = Some (OTime t) ->
  (forall d orbital, positions n = PositionDictionary d orbital ->
     exists dict, h !! d = Some (OPositions dict)) ->
  get_Position h n = Some (r, h') ->
  get_Position h' n = Some (r, h')
  /\ h' !! timestamp n = Some (OTime t)
  /\ forall x o, h !! x = Some o ->
       (forall d orbital, positions n = PositionDictionary d orbital -> x <> d) ->
       h' !! x = Some o.
Proof.
  intros Ht Hd. unfold get_Position.
  destruct (positions n) as [p|d orbital] eqn:P.
  { intros [= <- <-]. done. }
  destruct (Hd d orbital eq_refl) as [dict Hdict]. rewrite Hdict.
  replace (time_of h (timestamp n)) with t by (unfold time_of; by rewrite Ht).
  destruct (dict !! t) as [p|] eqn:Hp.
  { intros [= <- <-]. unfold time_of. rewrite Hdict, Ht, Hp. done. }
  destruct orbital as [[f|p]|]; [| |done].
  - destruct (f t) as [l|] eqn:F; [|done].
    unfold alloc. intros [= <- <-].
    set (p := fresh (dom h)).
    assert (Hfresh : h !! p = None) by (apply not_elem_of_dom, is_fresh).
    assert (Hpd : p <> d) by congruence.
    assert (Hpt : p <> timestamp n) by congruence.
    assert (Hdt : d <> timestamp n) by congruence.
    assert (Hclock : (<[d := OPositions (<[t := p]> dict)]> (<[p := OLocation l]> h))
                     !! timestamp n = Some (OTime t)).
    { by rewrite !lookup_insert_ne. }
    split_and!.
    + unfold time_of. rewrite Hclock, lookup_insert_eq, lookup_insert_eq. done.
    + exact Hclock.
    + intros x o Hx Hne. rewrite lookup_insert_ne by (intros <-; by apply (Hne d (Some (OrbitComputed f)))).
      rewrite lookup_insert_ne by congruence. done.
  - intros [= <- <-]. unfold time_of. rewrite Hdict, Ht, Hp. done.
Qed.

(** A satellite with a propagated orbit, its clock at instant 5 and no
    position computed yet. *)
Definition sat_orbit : Node :=
  mkNode "SatelliteBasic" SAT 7 0 1%positive 10 1
         (PositionDictionary 2%positive
            (Some (OrbitComputed (fun now => Some (mkLocation (inject_Z now) 0 0))))).
Definition store_orbit : gmap positive Obj :=
  <[1%positive := OTime 5]> (<[2%positive := OPositions ∅]> ∅).

Lemma get_Position_settles_witness :
  exists r h',
    get_Position store_orbit sat_orbit = Some (r, h')
    /\ get_Position h' sat_orbit = Some (r, h')
    /\ h' !! r = Some (OLocation (mkLocation 5 0 0)).
Proof.
  assert (E : get_Position store_orbit sat_orbit
              = Some (3%positive,
                      <[2%positive := OPositions (<[5 := 3%positive]> ∅)]>
                        (<[3%positive := OLocation (mkLocation 5 0 0)]> store_orbit))).
  { vm_compute. reflexivity. }
  eexists _, _. split; [exact E|]. split.
  - refine (proj1 (get_Position_settles store_orbit sat_orbit 5 _ _ eq_refl _ E)).
    intros d orbital [= <- <-]. by exists ∅.
  - vm_compute. reflexivity.
Defined.

Definition node_a : Node :=
  mkNode "SatelliteBasic" SAT 1 0 1%positive 10 3 (FixedPosition 9%positive).
Definition world_a : World := mkWorld (<[1%positive := OTime 0]> ∅) [].

Lemma clock_stops_after_end_witness :
  time_of (store (steps 7 [mkTopology 0 [node_a]] world_a)) (timestamp node_a)
  = 0 + Z.min 7 (horizon 0 10 3) * 3.
Proof.
  refine (proj1 (clock_stops_after_end 7 [mkTopology 0 [node_a]] world_a node_a 0
                   _ _ eq_refl _ _)).
  - simpl. repeat constructor. intros [].
  - simpl. by left.
  - simpl. lia.
  - simpl. lia.
Defined.

Lemma ExecuteCntd_runs_to_end_witness :
  exists w',
    ExecuteCntd 5 world_a node_a = Some w'
    /\ ran w' = [(1, 0); (1, 3); (1, 6); (1, 9)]
    /\ time_of (store w') (timestamp node_a) = 12.
Proof.
  destruct (ExecuteCntd_runs_to_end 5 world_a node_a 0 eq_refl)
    as (w' & R & _ & C & _ & Rn & _).
  - simpl. lia.
  - vm_compute. lia.
  - exists w'. split; [exact R|]. split.
    + rewrite Rn. vm_compute. reflexivity.
    + unfold time_of. rewrite C. vm_compute. reflexivity.
Defined.


End RuntimeMore.
